(** * ServerSentry maintenance tools: a shallow embedding

    The development follows the four Python tools of the repository:

    - [tools/consolidate_duplicates.py]  (module [Consolidate]):
      the function remover and the framework-import injector;
    - [tools/migrate_bootstrap_simple.py] (module [Migrate]):
      the bootstrap migrator with its backup / restore protocol;
    - [tools/project_cleanup_audit.py]   (module [Audit]):
      the duplicate / unused / complexity checks;
    - [tools/cleanup_commands.py]        (module [Cleanup]):
      the clean-up of the command file.

    Modelling choices shared by all modules.

    - A text is a [list ascii], one element per character.  Characters above
      127 are inert: they are neither white space nor letters with a case.
      This is exact for every text whose non-ASCII characters are neither
      Unicode white space nor cased letters (shell scripts with UTF-8
      symbols in messages, for instance).
    - The file system is a finite map from paths to texts, together with the
      sets of unreadable and executable paths and the write faults that an
      environment may inject ([World]).
    - Python's [re] is embedded as a small backtracking matcher ([Re]) over
      the constructs the tools use: literals, character classes, greedy and
      lazy stars over one class, anchors and one capture group. *)

From Stdlib Require Import Ascii String ZArith Lia.
From stdpp Require Import gmap strings list.

Abbreviation text := (list ascii).

(** A literal of the source, as a text. *)
Definition py (s : string) : text := String.list_ascii_of_string s.

(** ** Python string primitives *)

Module Str.

Definition nl : ascii := "010"%char.

(** [c.isspace()] on ASCII: TAB LF VT FF CR, FS GS RS US, SPACE. *)
Definition isspace (c : ascii) : bool :=
  let n := nat_of_ascii c in
  ((9 <=? n) && (n <=? 13)) || ((28 <=? n) && (n <=? 32)).

Definition isupper (c : ascii) : bool :=
  let n := nat_of_ascii c in (65 <=? n) && (n <=? 90).

Definition islower (c : ascii) : bool :=
  let n := nat_of_ascii c in (97 <=? n) && (n <=? 122).

Definition isdigit (c : ascii) : bool :=
  let n := nat_of_ascii c in (48 <=? n) && (n <=? 57).

(** [c.lower()] *)
Definition lower_char (c : ascii) : ascii :=
  if isupper c then ascii_of_nat (nat_of_ascii c + 32) else c.

(** [s.lower()] *)
Definition lower (s : text) : text := map lower_char s.

(** [s.split("\n")] *)
Fixpoint split_nl (s : text) : list text :=
  match s with
  | [] => [[]]
  | c :: s' =>
      if Ascii.eqb c nl then [] :: split_nl s'
      else match split_nl s' with
           | l :: ls => (c :: l) :: ls
           | [] => [[c]]
           end
  end.

(** ["\n".join(ls)] *)
Fixpoint join_nl (ls : list text) : text :=
  match ls with
  | [] => []
  | [l] => l
  | l :: ls' => l ++ nl :: join_nl ls'
  end.

(** ["".join(ls)] *)
Definition join_empty (ls : list text) : text := concat ls.

(** [s.count(c)] for a one-character [c] *)
Fixpoint count (c : ascii) (s : text) : Z :=
  match s with
  | [] => 0
  | x :: s' => (if Ascii.eqb x c then 1 else 0) + count c s'
  end.

Fixpoint lstrip (s : text) : text :=
  match s with
  | c :: s' => if isspace c then lstrip s' else s
  | [] => []
  end.

Definition rstrip (s : text) : text := rev (lstrip (rev s)).

(** [s.strip()] *)
Definition strip (s : text) : text := rstrip (lstrip s).

(** [s.startswith(p)] *)
Fixpoint startswith (p s : text) : bool :=
  match p, s with
  | [], _ => true
  | a :: p', b :: s' => Ascii.eqb a b && startswith p' s'
  | _ :: _, [] => false
  end.

(** [s.endswith(p)] *)
Definition endswith (p s : text) : bool := startswith (rev p) (rev s).

(** [p in s] *)
Fixpoint contains (p s : text) : bool :=
  startswith p s ||
  match s with
  | [] => false
  | _ :: s' => contains p s'
  end.

(** The contiguous-substring relation that [contains] decides. *)
Definition infix (p s : text) : Prop := ∃ a b, s = a ++ p ++ b.

End Str.

(** ** The fragment of Python's [re] used by the tools *)

Module Re.

Inductive atom : Type :=
| Chr (p : ascii → bool)        (* one character of a class *)
| Star (p : ascii → bool)       (* greedy  [p*]  *)
| StarLazy (p : ascii → bool)   (* lazy    [p*?] *)
| Bos                           (* [^] without MULTILINE *)
| Bol                           (* [^] with MULTILINE *)
| Eol                           (* [$] with MULTILINE *)
| GOpen                         (* [(] of group 1 *)
| GClose.                       (* [)] of group 1 *)

Definition regex := list atom.

(** State of capture group 1 while matching. *)
Inductive cap : Type :=
| NoCap
| Open (acc : text)
| Closed (g : text).

Definition push (k : cap) (c : ascii) : cap :=
  match k with
  | Open acc => Open (acc ++ [c])
  | _ => k
  end.

Definition group1 (k : cap) : text :=
  match k with
  | Closed g => g
  | _ => []
  end.

(** A successful match: group 1, the last character consumed (or the one
    before the match when nothing was consumed) and the unread text. *)
Record found : Type := Found { grp : text; lastc : option ascii; rest : text }.

Definition at_bol (prev : option ascii) : bool :=
  match prev with
  | None => true
  | Some c => Ascii.eqb c Str.nl
  end.

Definition at_eol (s : text) : bool :=
  match s with
  | [] => true
  | c :: _ => Ascii.eqb c Str.nl
  end.

(** Backtracking matcher anchored at the current position.  [prev] is the
    character before the position, [None] at the start of the string.
    Alternatives are tried in the order of Python's matcher: a greedy star
    first takes a character, a lazy star first tries the continuation
    [cont]. *)
Definition matcher := cap → option ascii → text → option found.

Fixpoint star (p : ascii → bool) (cont : matcher)
  (k : cap) (prev : option ascii) (s : text) {struct s} : option found :=
  match s with
  | c :: s' =>
      if p c then
        match star p cont (push k c) (Some c) s' with
        | Some m => Some m
        | None => cont k prev s
        end
      else cont k prev s
  | [] => cont k prev s
  end.

Fixpoint star_lazy (p : ascii → bool) (cont : matcher)
  (k : cap) (prev : option ascii) (s : text) {struct s} : option found :=
  match cont k prev s with
  | Some m => Some m
  | None =>
      match s with
      | c :: s' => if p c then star_lazy p cont (push k c) (Some c) s' else None
      | [] => None
      end
  end.

Fixpoint rmatch (r : regex) : matcher :=
  match r with
  | [] => λ k prev s, Some (Found (group1 k) prev s)
  | Chr p :: r' => λ k prev s,
      match s with
      | c :: s' => if p c then rmatch r' (push k c) (Some c) s' else None
      | [] => None
      end
  | Star p :: r' => star p (rmatch r')
  | StarLazy p :: r' => star_lazy p (rmatch r')
  | Bos :: r' => λ k prev s,
      match prev with
      | None => rmatch r' k prev s
      | Some _ => None
      end
  | Bol :: r' => λ k prev s, if at_bol prev then rmatch r' k prev s else None
  | Eol :: r' => λ k prev s, if at_eol s then rmatch r' k prev s else None
  | GOpen :: r' => λ k prev s, rmatch r' (Open []) prev s
  | GClose :: r' => λ k prev s,
      match k with
      | Open acc => rmatch r' (Closed acc) prev s
      | _ => rmatch r' k prev s
      end
  end.

(** [re.match(r, s)] *)
Definition re_match (r : regex) (s : text) : option found :=
  rmatch r NoCap None s.

(** [re.search(r, s)], as a truth value *)
Fixpoint search_from (r : regex) (prev : option ascii) (s : text) : bool :=
  match rmatch r NoCap prev s with
  | Some _ => true
  | None =>
      match s with
      | [] => false
      | c :: s' => search_from r (Some c) s'
      end
  end.

Definition search (r : regex) (s : text) : bool := search_from r None s.

(** Scanning for successive matches.  After a match that consumed [n]
    characters the scan resumes at its end: the [n - 1] characters after
    the first one are passed over ([skip]) without a new attempt.  The
    patterns of the tools never match the empty string. *)
Definition consumed (s : text) (m : found) : nat :=
  length s - length (rest m).

(** [r.findall(s)] for a pattern with one group *)
Fixpoint findall_from (r : regex) (skip : nat) (prev : option ascii)
  (s : text) : list text :=
  match s with
  | [] => []
  | c :: s' =>
      match skip with
      | S n => findall_from r n (Some c) s'
      | O =>
          match rmatch r NoCap prev s with
          | Some m => grp m :: findall_from r (consumed s m - 1) (Some c) s'
          | None => findall_from r 0 (Some c) s'
          end
      end
  end.

Definition findall (r : regex) (s : text) : list text :=
  findall_from r 0 None s.

(** [r.sub(repl, s)] for a replacement without group references *)
Fixpoint sub_from (r : regex) (repl : text) (skip : nat)
  (prev : option ascii) (s : text) : text :=
  match s with
  | [] => []
  | c :: s' =>
      match skip with
      | S n => sub_from r repl n (Some c) s'
      | O =>
          match rmatch r NoCap prev s with
          | Some m => repl ++ sub_from r repl (consumed s m - 1) (Some c) s'
          | None => c :: sub_from r repl 0 (Some c) s'
          end
      end
  end.

Definition sub (r : regex) (repl : text) (s : text) : text :=
  sub_from r repl 0 None s.

(** Pattern builders. *)
Definition any : ascii → bool := λ _, true.                 (* [.] DOTALL *)
Definition dot : ascii → bool := λ c, negb (Ascii.eqb c Str.nl). (* [.] *)
Definition eqc (c : ascii) : ascii → bool := Ascii.eqb c.
Definition is_ci (c : ascii) : ascii → bool :=
  λ x, Ascii.eqb (Str.lower_char x) (Str.lower_char c).     (* IGNORECASE *)
Definition lit (s : text) : regex := map (λ c, Chr (eqc c)) s.
Definition lit_ci (s : text) : regex := map (λ c, Chr (is_ci c)) s.

End Re.

Definition dquote : ascii := "034"%char.

(** ** The file system and the effects of the tools *)

Abbreviation path := (list ascii).

Module Sys.

(** How a write to a path fails, when the environment makes it fail:
    [open(p, "w")] is refused and the file is left as it was, or the file
    is truncated and the write stops after [n] characters. *)
Inductive fault : Type :=
| OpenDenied
| WriteStops (n : nat).

(** A file is kept as the text that Python reads from it. *)
Record world : Type := World {
  files : gmap path text;
  unreadable : gset path;
  write_fault : gmap path fault;
  executable : gset path
}.

(** Status lines printed by the tools. *)
Inductive event : Type :=
| Migrating (f : path)
| NoChangesMade (f : path)
| SuccessfullyMigrated (f : path)
| ErrorMigrating (f : path)
| Updated (f : path)
| ErrorUpdating (f : path)
| FoundShellFiles (n : nat)
| FoundFilesToMigrate (n : nat)
| MigrationSummary (migrated errors checked : nat)
| Line (msg : text).

Record state : Type := State { fs : world; out : list event }.

Inductive result (A : Type) : Type :=
| Return (a : A)
| Raise.
Arguments Return {A} a.
Arguments Raise {A}.

(** Computations over the file system that may raise an exception. *)
Definition M (A : Type) : Type := state → state * result A.

#[global] Instance M_ret : MRet M := λ A a st, (st, Return a).
#[global] Instance M_bind : MBind M := λ A B f m st,
  match m st with
  | (st', Return a) => f a st'
  | (st', Raise) => (st', Raise)
  end.

(** [try: body except Exception: handler] *)
Definition try_except {A} (body handler : M A) : M A := λ st,
  match body st with
  | (st', Return a) => (st', Return a)
  | (st', Raise) => handler st'
  end.

Definition raise {A} : M A := λ st, (st, Raise).

(** The faults of this file system are those of reading and of writing a
    file.  Printing a status line always succeeds, and so do removing and
    moving a file that exists: what the tools do when one of these fails
    is outside the development. *)
Definition print (e : event) : M () := λ st,
  (State (fs st) (out st ++ [e]), Return ()).

Definition set_files (w : world) (m : gmap path text) : world :=
  World m (unreadable w) (write_fault w) (executable w).

Definition put_files (m : gmap path text) : M () := λ st,
  (State (set_files (fs st) m) (out st), Return ()).

Definition get_world : M world := λ st, (st, Return (fs st)).

(** [open(p).read()] *)
Definition read_text (p : path) : M text :=
  w ← get_world;
  match files w !! p with
  | Some content => if bool_decide (p ∈ unreadable w) then raise else mret content
  | None => raise
  end.

(** [open(p, "w").write(data)] *)
Definition write_text (p : path) (data : text) : M () :=
  w ← get_world;
  match write_fault w !! p with
  | None => put_files (<[p := data]> (files w))
  | Some OpenDenied => raise
  | Some (WriteStops n) => put_files (<[p := take n data]> (files w));; raise
  end.

(** [shutil.copy2(src, dst)] *)
Definition copy2 (src dst : path) : M () :=
  data ← read_text src; write_text dst data.

(** [os.remove(p)] *)
Definition remove (p : path) : M () :=
  w ← get_world;
  match files w !! p with
  | Some _ => put_files (delete p (files w))
  | None => raise
  end.

(** [os.path.exists(p)] and [os.path.isfile(p)]: the model has no
    directories. *)
Definition path_exists (p : path) : M bool :=
  w ← get_world; mret (bool_decide (is_Some (files w !! p))).

(** [shutil.move(src, dst)]: a rename inside one directory. *)
Definition move (src dst : path) : M () :=
  w ← get_world;
  match files w !! src with
  | Some data => put_files (<[dst := data]> (delete src (files w)))
  | None => raise
  end.

(** [os.access(p, os.X_OK)] *)
Definition access_x (p : path) : M bool :=
  w ← get_world; mret (bool_decide (p ∈ executable w)).

(** Running a computation from a world, with nothing printed yet. *)
Definition run {A} (m : M A) (w : world) : state * result A :=
  m (State w []).

End Sys.

(** ** tools/consolidate_duplicates.py *)

Module Consolidate.

Definition ident_start (c : ascii) : bool :=
  Str.islower c || Str.isupper c || Ascii.eqb c "_".

Definition ident_char (c : ascii) : bool :=
  ident_start c || Str.isdigit c.

(** The header pattern: [^], group 1 = [[a-zA-Z_]] then [[a-zA-Z0-9_]*],
    then [\s*], an opening and a closing parenthesis, [\s*] and an
    opening brace. *)
Definition function_re : Re.regex :=
  [Re.Bos; Re.GOpen; Re.Chr ident_start; Re.Star ident_char; Re.GClose;
   Re.Star Str.isspace; Re.Chr (Re.eqc "("); Re.Chr (Re.eqc ")");
   Re.Star Str.isspace; Re.Chr (Re.eqc "{")].

(** [re.match(..., line.strip())] and [function_match.group(1)] *)
Definition function_match (line : text) : option text :=
  Re.grp <$> Re.re_match function_re (Str.strip line).

Definition brace_delta (line : text) : Z :=
  Str.count "{" line - Str.count "}" line.

(** The [while i < len(lines)] loop of [remove_duplicate_functions]; the
    result is [new_lines]. *)
Fixpoint remove_loop (functions_to_remove : gset text) (lines : list text)
  (skip_until_end : bool) (brace_count : Z) : list text :=
  match lines with
  | [] => []
  | line :: lines' =>
      if skip_until_end then
        let brace_count := brace_count + Str.count "{" line in
        let brace_count := brace_count - Str.count "}" line in
        if brace_count <=? 0
        then remove_loop functions_to_remove lines' false 0
        else remove_loop functions_to_remove lines' true brace_count
      else
        match function_match line with
        | Some func_name =>
            if bool_decide (func_name ∈ functions_to_remove)
            then remove_loop functions_to_remove lines' true (brace_delta line)
            else line :: remove_loop functions_to_remove lines' false brace_count
        | None => line :: remove_loop functions_to_remove lines' false brace_count
        end
  end%Z.

(** The lines the remover emits ([new_lines]). *)
Definition emitted_lines (content : text) (functions_to_remove : gset text)
  : list text :=
  remove_loop functions_to_remove (Str.split_nl content) false 0.

Definition remove_duplicate_functions (content : text)
  (functions_to_remove : gset text) : text :=
  Str.join_nl (emitted_lines content functions_to_remove).

(** A line is a definition header of one of the names in [F], as the
    remover recognises it. *)
Definition is_header_of (F : gset text) (line : text) : Prop :=
  ∃ name, function_match line = Some name ∧ name ∈ F.

(** [self.test_functions] *)
Definition test_functions : gset text :=
  list_to_set
    [ py "test_pass"; py "test_fail"; py "assert";
      py "setup_test_environment"; py "cleanup_test_environment";
      py "create_test_config"; py "print_test_header";
      py "start_timer"; py "end_timer"; py "assert_performance" ].

(** [self.ui_functions] *)
Definition ui_functions : gset text :=
  list_to_set
    [ py "print_header"; py "print_success"; py "print_error";
      py "print_warning"; py "print_info"; py "print_separator";
      py "print_dim"; py "print_status" ].

(** [any(func in content for func in functions)] *)
Definition any_in (functions : gset text) (content : text) : bool :=
  existsb (λ func, Str.contains func content) (elements functions).

Definition should_add_test_framework (content : text) : bool :=
  any_in test_functions content.

Definition should_add_ui_framework (content : text) : bool :=
  any_in ui_functions content.

Definition test_import_block : text :=
  Str.join_nl
    [ [];
      py "# Load unified test framework";
      py "if [[ -f " ++ [dquote] ++ py "${SERVERSENTRY_ROOT}/tests/lib/test_framework_core.sh" ++ [dquote] ++ py " ]]; then";
      py "  source " ++ [dquote] ++ py "${SERVERSENTRY_ROOT}/tests/lib/test_framework_core.sh" ++ [dquote];
      py "fi";
      [] ].

Definition ui_import_block : text :=
  Str.join_nl
    [ [];
      py "# Load unified UI framework";
      py "if [[ -f " ++ [dquote] ++ py "${SERVERSENTRY_ROOT}/lib/ui/common/print_utils.sh" ++ [dquote] ++ py " ]]; then";
      py "  source " ++ [dquote] ++ py "${SERVERSENTRY_ROOT}/lib/ui/common/print_utils.sh" ++ [dquote];
      py "fi";
      [] ].

(** [lines[i:j]] *)
Definition slice {A} (i j : nat) (l : list A) : list A :=
  take (j - i) (drop i l).

(** The test of the inner loop of [add_framework_import] at index [j]. *)
Definition closes_bootstrap (lines : list text) (i j : nat) : bool :=
  match lines !! j with
  | Some line =>
      bool_decide (Str.strip line = py "fi")
      && Str.contains (py "bootstrap")
           (Str.lower (Str.join_empty (slice i j lines)))
  | None => false
  end.

(** The two nested loops of [add_framework_import]: the first line that
    mentions the marker, then the first [j] in [range(i, len(lines))]
    that closes the bootstrap block; [insert_index] stays 0 otherwise. *)
Definition find_insert_index (lines : list text) : nat :=
  match list_find (λ line, Str.contains (py "SERVERSENTRY_ENV_LOADED") line = true)
          lines with
  | Some (i, _) =>
      match list_find (λ j, closes_bootstrap lines i j = true)
              (seq i (length lines - i)) with
      | Some (_, j) => j + 1
      | None => 0
      end
  | None => 0
  end.

(** [lines.insert(i, x)] *)
Definition list_insert_at {A} (i : nat) (x : A) (l : list A) : list A :=
  take i l ++ x :: drop i l.

Definition add_framework_import (content framework_type : text) : text :=
  if bool_decide (framework_type = py "test") then
    Str.join_nl
      (list_insert_at (find_insert_index (Str.split_nl content))
         test_import_block (Str.split_nl content))
  else if bool_decide (framework_type = py "ui") then
    Str.join_nl
      (list_insert_at (find_insert_index (Str.split_nl content))
         ui_import_block (Str.split_nl content))
  else content.

(** The body of [update_file] between reading and writing: the new
    content and the flag [file_updated]. *)
Definition update_content (original_content : text) : text * bool :=
  let content := original_content in
  let file_updated := false in
  let '(content, file_updated) :=
    if should_add_test_framework content then
      let '(content, file_updated) :=
        if negb (Str.contains (py "test_framework_core.sh") content)
        then (add_framework_import content (py "test"), true)
        else (content, file_updated) in
      let content := remove_duplicate_functions content test_functions in
      if bool_decide (content ≠ original_content)
      then (content, true) else (content, file_updated)
    else (content, file_updated) in
  if should_add_ui_framework content then
    let '(content, file_updated) :=
      if negb (Str.contains (py "print_utils.sh") content)
      then (add_framework_import content (py "ui"), true)
      else (content, file_updated) in
    let content := remove_duplicate_functions content ui_functions in
    if bool_decide (content ≠ original_content)
    then (content, true) else (content, file_updated)
  else (content, file_updated).

(** The counters of a [DuplicateConsolidator]. *)
Record consolidator : Type := Consolidator {
  changes_made : nat;
  files_updated : nat
}.

Definition update_file (self : consolidator) (file_path : path)
  : Sys.M (consolidator * bool) :=
  Sys.try_except
    (original_content ← Sys.read_text file_path;
     let '(content, file_updated) := update_content original_content in
     if file_updated && bool_decide (content ≠ original_content) then
       Sys.write_text file_path content;;
       Sys.print (Sys.Updated file_path);;
       mret (Consolidator (changes_made self + 1) (files_updated self + 1),
             true)
     else mret (self, false))
    (Sys.print (Sys.ErrorUpdating file_path);; mret (self, false)).

End Consolidate.

(** ** tools/migrate_bootstrap_simple.py *)

Module Migrate.

Definition NEW_BOOTSTRAP_PATTERN : text :=
  Str.join_nl
  [ py "# Load ServerSentry environment";
    py "if [[ -z " ++ [dquote] ++ py "${SERVERSENTRY_ENV_LOADED:-}" ++ [dquote] ++ py " ]]; then";
    py "  # Set bootstrap control variables";
    py "  export SERVERSENTRY_QUIET=true";
    py "  export SERVERSENTRY_AUTO_INIT=false";
    py "  export SERVERSENTRY_INIT_LEVEL=minimal";
    py "  ";
    py "  # Find and source the main bootstrap file";
    py "  current_dir=" ++ [dquote] ++ py "$(cd " ++ [dquote] ++ py "$(dirname " ++ [dquote] ++ py "${BASH_SOURCE[0]}" ++ [dquote] ++ py ")" ++ [dquote] ++ py " && pwd)" ++ [dquote];
    py "  while [[ " ++ [dquote] ++ py "$current_dir" ++ [dquote] ++ py " != " ++ [dquote] ++ py "/" ++ [dquote] ++ py " ]]; do";
    py "    if [[ -f " ++ [dquote] ++ py "$current_dir/serversentry-env.sh" ++ [dquote] ++ py " ]]; then";
    py "      source " ++ [dquote] ++ py "$current_dir/serversentry-env.sh" ++ [dquote];
    py "      break";
    py "    fi";
    py "    current_dir=" ++ [dquote] ++ py "$(dirname " ++ [dquote] ++ py "$current_dir" ++ [dquote] ++ py ")" ++ [dquote];
    py "  done";
    py "  ";
    py "  # Verify bootstrap succeeded";
    py "  if [[ -z " ++ [dquote] ++ py "${SERVERSENTRY_ENV_LOADED:-}" ++ [dquote] ++ py " ]]; then";
    py "    echo " ++ [dquote] ++ py "❌ ERROR: Failed to load ServerSentry environment" ++ [dquote] ++ py " >&2";
    py "    exit 1";
    py "  fi";
    py "fi" ].

(** [old_pattern], compiled with MULTILINE and DOTALL: the comment line,
    lazily anything up to a newline, the line that tests the marker
    variable, white space and a newline, lazily anything up to the legacy
    path, lazily anything (twice) up to a line that starts with [fi],
    white space and the end of a line. *)
Definition old_pattern : Re.regex :=
  Re.lit (py "# Load ServerSentry environment")
  ++ [Re.StarLazy Re.any; Re.Chr (Re.eqc Str.nl)]
  ++ Re.lit (py "if [[ -z " ++ [dquote] ++ py "${SERVERSENTRY_ENV_LOADED:-}"
             ++ [dquote] ++ py " ]]; then")
  ++ [Re.Star Str.isspace; Re.Chr (Re.eqc Str.nl)]
  ++ [Re.StarLazy Re.any]
  ++ Re.lit (py "lib/serversentry-bootstrap.sh")
  ++ [Re.StarLazy Re.any]
  ++ [Re.StarLazy Re.any]
  ++ [Re.Bol] ++ Re.lit (py "fi") ++ [Re.Star Str.isspace; Re.Eol].

Definition backup_of (file_path : path) : path := file_path ++ py ".backup".

(** [find_shell_files]: [globbed] is what the glob patterns produce, in
    order; only regular files that end in [.sh] are kept. *)
Definition find_shell_files (globbed : list path) : Sys.M (list path) :=
  w ← Sys.get_world;
  mret (filter (λ f, is_Some (Sys.files w !! f)
                     ∧ Str.endswith (py ".sh") f = true) globbed).

Definition needs_migration (file_path : path) : Sys.M bool :=
  Sys.try_except
    (content ← Sys.read_text file_path;
     mret (Str.contains (py "lib/serversentry-bootstrap.sh") content))
    (mret false).

Definition migrate_file (file_path : path) : Sys.M bool :=
  Sys.print (Sys.Migrating file_path);;
  Sys.try_except
    (content ← Sys.read_text file_path;
     let backup_path := backup_of file_path in
     Sys.copy2 file_path backup_path;;
     let new_content := Re.sub old_pattern NEW_BOOTSTRAP_PATTERN content in
     if bool_decide (new_content = content) then
       Sys.print (Sys.NoChangesMade file_path);;
       Sys.remove backup_path;;
       mret false
     else
       Sys.write_text file_path new_content;;
       Sys.print (Sys.SuccessfullyMigrated file_path);;
       Sys.remove backup_path;;
       mret true)
    (Sys.print (Sys.ErrorMigrating file_path);;
     let backup_path := backup_of file_path in
     backup_exists ← Sys.path_exists backup_path;
     (if backup_exists : bool
      then Sys.move backup_path file_path else mret ());;
     mret false).

(** [[f for f in shell_files if needs_migration(f)]] *)
Fixpoint select_files (shell_files : list path) : Sys.M (list path) :=
  match shell_files with
  | [] => mret []
  | f :: fs =>
      b ← needs_migration f;
      rest ← select_files fs;
      mret (if b : bool then f :: rest else rest)
  end.

(** The loop of [main] over [files_to_migrate], with its two counters. *)
Fixpoint migrate_all (files_to_migrate : list path)
  (migrated_count error_count : nat) : Sys.M (nat * nat) :=
  match files_to_migrate with
  | [] => mret (migrated_count, error_count)
  | file_path :: fs =>
      ok ← migrate_file file_path;
      if ok : bool then migrate_all fs (migrated_count + 1) error_count
      else migrate_all fs migrated_count (error_count + 1)
  end.

Definition main (globbed : list path) : Sys.M bool :=
  Sys.print (Sys.Line (py "Starting bootstrap migration..."));;
  shell_files ← find_shell_files globbed;
  Sys.print (Sys.FoundShellFiles (length shell_files));;
  files_to_migrate ← select_files shell_files;
  Sys.print (Sys.FoundFilesToMigrate (length files_to_migrate));;
  match files_to_migrate with
  | [] =>
      Sys.print (Sys.Line (py "No files need migration!"));;
      mret true
  | _ =>
      '(migrated_count, error_count) ← migrate_all files_to_migrate 0 0;
      Sys.print (Sys.MigrationSummary migrated_count error_count
                   (length shell_files));;
      if error_count =? 0 then
        Sys.print (Sys.Line (py "Bootstrap migration completed successfully!"));;
        mret true
      else
        Sys.print (Sys.Line (py "Bootstrap migration completed with errors"));;
        mret false
  end.

(** [exit(0 if success else 1)]; an escaping exception ends the process
    with status 1 as well. *)
Definition exit_code (r : Sys.result bool) : Z :=
  match r with
  | Sys.Return true => 0
  | _ => 1
  end.

End Migrate.

(** ** tools/project_cleanup_audit.py *)

Module Audit.

Inductive severity : Type := LOW | MEDIUM | HIGH.

Inductive category : Type :=
| FILE_ACCESS
| DUPLICATE_FILES
| DUPLICATE_FUNCTION
| UNUSED_FILE
| COMPLEX_FILE
| LOW_DOCUMENTATION.

(** The descriptions that the checks format, with the values they
    interpolate. *)
Inductive description : Type :=
| CannotReadFile
| CannotAnalyzeFunctions
| CannotAnalyzeComplexity
| DuplicateFilesFound (files : list path)
| DefinedInMultipleFiles (func_name : text) (files : list path)
| AppearsUnused
| HighComplexity (code_lines : nat)
| MediumComplexity (code_lines : nat)
| LowCommentRatio (comment_lines total_lines : nat).

Record issue : Type := Issue {
  issue_severity : severity;
  issue_category : category;
  issue_file : path;
  issue_description : description
}.

#[global] Instance severity_eq_dec : EqDecision severity.
Proof. solve_decision. Defined.
#[global] Instance category_eq_dec : EqDecision category.
Proof. solve_decision. Defined.
#[global] Instance description_eq_dec : EqDecision description.
Proof. solve_decision. Defined.
#[global] Instance issue_eq_dec : EqDecision issue.
Proof. solve_decision. Defined.

(** A [defaultdict(list)]: keys in insertion order. *)
Definition dict (K V : Type) : Type := list (K * list V).

(** [d[k].append(v)] *)
Fixpoint dict_append {K V} `{EqDecision K} (k : K) (v : V) (d : dict K V)
  : dict K V :=
  match d with
  | [] => [(k, [v])]
  | (k', vs) :: d' =>
      if decide (k = k') then (k', vs ++ [v]) :: d'
      else (k', vs) :: dict_append k v d'
  end.

(** The state of a [ProjectAuditor]. *)
Record auditor : Type := Auditor {
  issues : list issue;
  redundant_files : list path;
  duplicate_functions : dict text path;
  unused_files : list path
}.

(** [ProjectAuditor.__init__] *)
Definition new_auditor : auditor := Auditor [] [] [] [].

Definition log_issue (self : auditor) (sev : severity) (cat : category)
  (file_path : path) (descr : description) : auditor :=
  Auditor (issues self ++ [Issue sev cat file_path descr])
          (redundant_files self) (duplicate_functions self)
          (unused_files self).

(** Reading a file in the audit: [None] stands for any exception. *)
Definition read (w : Sys.world) (p : path) : option text :=
  match Sys.files w !! p with
  | Some content =>
      if bool_decide (p ∈ Sys.unreadable w) then None else Some content
  | None => None
  end.

(** [find_shell_files]: [globbed] is what [root_dir.glob] yields for the
    pattern of all [.sh] files, in traversal order. *)
Definition find_shell_files (w : Sys.world) (globbed : list path)
  : list path :=
  filter (λ f, is_Some (Sys.files w !! f)) globbed.

Section DuplicateFiles.

(** [hashlib.md5(data).hexdigest()] *)
Variable md5 : text → text.

(** The first loop of [find_duplicate_files]. *)
Fixpoint hash_files (w : Sys.world) (shell_files : list path)
  (file_hashes : dict text path) (self : auditor)
  : dict text path * auditor :=
  match shell_files with
  | [] => (file_hashes, self)
  | file_path :: fs =>
      match read w file_path with
      | Some data =>
          hash_files w fs (dict_append (md5 data) file_path file_hashes)
            self
      | None =>
          hash_files w fs file_hashes
            (log_issue self LOW FILE_ACCESS file_path CannotReadFile)
      end
  end.

(** The second loop of [find_duplicate_files]. *)
Fixpoint report_duplicate_files (items : dict text path) (self : auditor)
  : auditor :=
  match items with
  | [] => self
  | (content_hash, files) :: items' =>
      match files with
      | first :: _ :: _ =>
          let self :=
            Auditor (issues self)
                    (redundant_files self ++ drop 1 files)
                    (duplicate_functions self) (unused_files self) in
          report_duplicate_files items'
            (log_issue self MEDIUM DUPLICATE_FILES first
               (DuplicateFilesFound files))
      | _ => report_duplicate_files items' self
      end
  end.

Definition find_duplicate_files (w : Sys.world) (globbed : list path)
  (self : auditor) : auditor :=
  let shell_files := find_shell_files w globbed in
  let '(file_hashes, self) := hash_files w shell_files [] self in
  report_duplicate_files file_hashes self.

End DuplicateFiles.

(** The pattern of [find_duplicate_functions], compiled with MULTILINE. *)
Definition function_pattern : Re.regex :=
  [Re.Bol; Re.GOpen; Re.Chr Consolidate.ident_start;
   Re.Star Consolidate.ident_char; Re.GClose;
   Re.Star Str.isspace; Re.Chr (Re.eqc "("); Re.Chr (Re.eqc ")");
   Re.Star Str.isspace; Re.Chr (Re.eqc "{")].

Definition set_duplicate_functions (self : auditor) (d : dict text path)
  : auditor :=
  Auditor (issues self) (redundant_files self) d (unused_files self).

(** [for func_name in functions: ...append(file_path)] *)
Fixpoint register_functions (functions : list text) (file_path : path)
  (d : dict text path) : dict text path :=
  match functions with
  | [] => d
  | func_name :: rest =>
      register_functions rest file_path (dict_append func_name file_path d)
  end.

(** The first loop of [find_duplicate_functions]. *)
Fixpoint scan_functions (w : Sys.world) (shell_files : list path)
  (self : auditor) : auditor :=
  match shell_files with
  | [] => self
  | file_path :: fs =>
      match read w file_path with
      | Some content =>
          let functions := Re.findall function_pattern content in
          scan_functions w fs
            (set_duplicate_functions self
               (register_functions functions file_path
                  (duplicate_functions self)))
      | None =>
          scan_functions w fs
            (log_issue self LOW FILE_ACCESS file_path CannotAnalyzeFunctions)
      end
  end.

(** The second loop of [find_duplicate_functions]. *)
Fixpoint report_duplicate_functions (items : dict text path)
  (self : auditor) : auditor :=
  match items with
  | [] => self
  | (func_name, files) :: items' =>
      match files with
      | first :: _ :: _ =>
          report_duplicate_functions items'
            (log_issue self MEDIUM DUPLICATE_FUNCTION first
               (DefinedInMultipleFiles func_name files))
      | _ => report_duplicate_functions items' self
      end
  end.

Definition find_duplicate_functions (w : Sys.world) (globbed : list path)
  (self : auditor) : auditor :=
  let shell_files := find_shell_files w globbed in
  let self := scan_functions w shell_files self in
  report_duplicate_functions (duplicate_functions self) self.

(** [Path.name]: the part after the last slash. *)
Fixpoint path_name (p : path) : text :=
  match p with
  | [] => []
  | c :: p' =>
      if bool_decide ("/"%char ∈ p') then path_name p'
      else if Ascii.eqb c "/" then p' else p
  end.

(** [name.rfind(".")] *)
Fixpoint rfind_dot (name : text) (i : nat) : option nat :=
  match name with
  | [] => None
  | c :: name' =>
      match rfind_dot name' (i + 1) with
      | Some j => Some j
      | None => if Ascii.eqb c "." then Some i else None
      end
  end.

(** [Path.stem]: the name without its last suffix; a leading or a final
    dot does not start a suffix. *)
Definition path_stem (p : path) : text :=
  let name := path_name p in
  match rfind_dot name 0 with
  | Some i =>
      if (0 <? i) && (i <? length name - 1) then take i name else name
  | None => name
  end.

(** The corpus loop of [check_unused_files]. *)
Fixpoint build_corpus (w : Sys.world) (shell_files : list path)
  (all_content : text) : text :=
  match shell_files with
  | [] => all_content
  | file_path :: fs =>
      match read w file_path with
      | Some content => build_corpus w fs (all_content ++ content ++ [Str.nl])
      | None => build_corpus w fs all_content
      end
  end.

(** The four patterns of [check_unused_files]; names are escaped, hence
    literal, and the search ignores case. *)
Definition reference_patterns (file_name base_name : text)
  : list Re.regex :=
  [ Re.lit_ci (py "source") ++ [Re.Star Re.dot] ++ Re.lit_ci file_name;
    Re.lit_ci (py "source") ++ [Re.Star Re.dot] ++ Re.lit_ci base_name;
    Re.lit_ci (py ".") ++ [Re.Star Re.dot] ++ Re.lit_ci file_name;
    Re.lit_ci base_name ++ Re.lit_ci (py ".sh") ].

Definition referenced (all_content : text) (file_path : path) : bool :=
  existsb (λ pattern, Re.search pattern all_content)
    (reference_patterns (path_name file_path) (path_stem file_path)).

Definition skip_files : gset text :=
  {[ py "serversentry-env.sh"; py "serversentry" ]}.

Definition mark_unused (self : auditor) (file_path : path) : auditor :=
  log_issue
    (Auditor (issues self) (redundant_files self) (duplicate_functions self)
             (unused_files self ++ [file_path]))
    MEDIUM UNUSED_FILE file_path AppearsUnused.

(** The second loop of [check_unused_files]. *)
Fixpoint flag_unused (w : Sys.world) (all_content : text)
  (shell_files : list path) (self : auditor) : auditor :=
  match shell_files with
  | [] => self
  | file_path :: fs =>
      if bool_decide (path_name file_path ∈ skip_files)
      then flag_unused w all_content fs self
      else if referenced all_content file_path
      then flag_unused w all_content fs self
      else if bool_decide (file_path ∈ Sys.executable w)
      then flag_unused w all_content fs self
      else flag_unused w all_content fs (mark_unused self file_path)
  end.

Definition check_unused_files (w : Sys.world) (globbed : list path)
  (self : auditor) : auditor :=
  let shell_files := find_shell_files w globbed in
  let all_content := build_corpus w shell_files [] in
  flag_unused w all_content shell_files self.

(** [f.readlines()]: the lines with their terminators; a final newline
    does not start another line. *)
Definition readlines (content : text) : list text :=
  let ls := Str.split_nl content in
  map (λ l, l ++ [Str.nl]) (removelast ls)
  ++ match List.last ls [] with
     | [] => []
     | l => [l]
     end.

Definition is_comment (line : text) : bool :=
  Str.startswith (py "#") (Str.strip line).

Definition is_code (line : text) : bool :=
  negb (bool_decide (Str.strip line = [])) && negb (is_comment line).

Definition count_lines (p : text → bool) (lines : list text) : nat :=
  length (filter (λ l, p l = true) lines).

(** [comment_lines / total_lines < 0.1].  Python divides the two integers
    with correct rounding and compares with the double nearest to one
    tenth; rounding is monotone, so for line counts below 2^53 the
    outcome is that of the exact comparison, which is the one kept. *)
Definition ratio_below_tenth (comment_lines total_lines : nat) : bool :=
  10 * comment_lines <? total_lines.

(** The body of the loop of [analyze_complexity] for a file that was
    read. *)
Definition analyze_lines (self : auditor) (file_path : path)
  (lines : list text) : auditor :=
  let total_lines := length lines in
  let code_lines := count_lines is_code lines in
  let comment_lines := count_lines is_comment lines in
  let self :=
    if 300 <? code_lines then
      log_issue self HIGH COMPLEX_FILE file_path (HighComplexity code_lines)
    else if 200 <? code_lines then
      log_issue self MEDIUM COMPLEX_FILE file_path
        (MediumComplexity code_lines)
    else self in
  if (50 <? total_lines) && ratio_below_tenth comment_lines total_lines then
    log_issue self LOW LOW_DOCUMENTATION file_path
      (LowCommentRatio comment_lines total_lines)
  else self.

Fixpoint analyze_files (w : Sys.world) (shell_files : list path)
  (self : auditor) : auditor :=
  match shell_files with
  | [] => self
  | file_path :: fs =>
      match read w file_path with
      | Some content =>
          analyze_files w fs (analyze_lines self file_path (readlines content))
      | None =>
          analyze_files w fs
            (log_issue self LOW FILE_ACCESS file_path CannotAnalyzeComplexity)
      end
  end.

Definition analyze_complexity (w : Sys.world) (globbed : list path)
  (self : auditor) : auditor :=
  analyze_files w (find_shell_files w globbed) self.

End Audit.

(** * Properties *)

(** ** Lines of a text *)

Section Lines.

Import Str.

Lemma split_nl_not_nil (s : text) : split_nl s ≠ [].
Proof.
  destruct s as [|c s]; simpl; [done|].
  destruct (Ascii.eqb c nl); [done|].
  destruct (split_nl s); done.
Qed.

Lemma split_nl_cons (c : ascii) (s : text) :
  c ≠ nl → ∃ l ls, split_nl s = l :: ls ∧ split_nl (c :: s) = (c :: l) :: ls.
Proof.
  intros Hc. simpl. apply Ascii.eqb_neq in Hc. rewrite Hc.
  destruct (split_nl s) as [|l ls] eqn:E.
  - by apply split_nl_not_nil in E.
  - eauto.
Qed.

Lemma split_nl_nl (s : text) : split_nl (nl :: s) = [] :: split_nl s.
Proof. reflexivity. Qed.

Lemma join_nl_cons (l : text) (ls : list text) :
  ls ≠ [] → join_nl (l :: ls) = l ++ nl :: join_nl ls.
Proof. destruct ls; [done|]. reflexivity. Qed.

(** Joining the lines of a text gives the text back. *)
Lemma join_split (s : text) : join_nl (split_nl s) = s.
Proof.
  induction s as [|c s IH]; [done|].
  destruct (decide (c = nl)) as [->|Hc].
  - rewrite split_nl_nl, join_nl_cons by apply split_nl_not_nil.
    by rewrite IH.
  - destruct (split_nl_cons c s Hc) as (l & ls & E & ->).
    rewrite E in IH. destruct ls as [|l' ls].
    + simpl in *. by subst.
    + rewrite join_nl_cons by done. rewrite join_nl_cons in IH by done.
      by rewrite <- IH.
Qed.

Lemma split_nl_app_nl (l s : text) :
  nl ∉ l → split_nl (l ++ nl :: s) = l :: split_nl s.
Proof.
  induction l as [|c l IH]; intros Hl.
  - reflexivity.
  - assert (c ≠ nl) as Hc by (intros ->; apply Hl; left).
    assert (nl ∉ l) as Hl' by (intros ?; apply Hl; by right).
    cbn [app]. destruct (split_nl_cons c (l ++ nl :: s) Hc)
      as (l0 & ls0 & E & ->).
    rewrite IH in E by done. by simplify_eq.
Qed.

Lemma split_nl_line (l : text) : nl ∉ l → split_nl l = [l].
Proof.
  induction l as [|c l IH]; intros Hl; [done|].
  assert (c ≠ nl) as Hc by (intros ->; apply Hl; left).
  assert (nl ∉ l) as Hl' by (intros ?; apply Hl; by right).
  destruct (split_nl_cons c l Hc) as (l0 & ls0 & E & ->).
  rewrite IH in E by done. by simplify_eq.
Qed.

(** Lines that hold no newline survive a join followed by a split. *)
Lemma split_join (ls : list text) :
  ls ≠ [] → Forall (λ l, nl ∉ l) ls → split_nl (join_nl ls) = ls.
Proof.
  induction ls as [|l ls IH]; [done|]. intros _ Hls.
  apply Forall_cons in Hls as [Hl Hls].
  destruct ls as [|l' ls].
  - simpl. by apply split_nl_line.
  - rewrite join_nl_cons by done. rewrite split_nl_app_nl by done.
    by rewrite IH.
Qed.

Lemma split_nl_no_nl (s : text) : Forall (λ l, nl ∉ l) (split_nl s).
Proof.
  induction s as [|c s IH].
  - repeat constructor. apply not_elem_of_nil.
  - destruct (decide (c = nl)) as [->|Hc].
    + rewrite split_nl_nl. constructor; [apply not_elem_of_nil | done].
    + destruct (split_nl_cons c s Hc) as (l & ls & E & ->).
      rewrite E in IH. apply Forall_cons in IH as [Hl Hls].
      constructor; [|done]. rewrite elem_of_cons.
      intros [?|?]; [by apply Hc | done].
Qed.

End Lines.

(** ** The function remover *)

Lemma Forall_sublist {A} (P : A → Prop) (l1 l2 : list A) :
  l1 `sublist_of` l2 → Forall P l2 → Forall P l1.
Proof.
  rewrite !Forall_forall. intros Hsub HP x Hx.
  apply HP. by eapply elem_of_sublist.
Qed.

Section Remover.

Import Str Consolidate.

Variable F : gset text.

Lemma remove_loop_sublist (lines : list text) (skip : bool) (bc : Z) :
  remove_loop F lines skip bc `sublist_of` lines.
Proof.
  revert skip bc. induction lines as [|line lines IH]; intros skip bc.
  - constructor.
  - cbn [remove_loop]. destruct skip.
    + case_match; by apply sublist_cons.
    + destruct (function_match line) as [name|];
        [case_bool_decide|]; by constructor.
Qed.

(** No line that the loop emits is a header of a function to remove. *)
Lemma remove_loop_no_header (lines : list text) (skip : bool) (bc : Z) :
  Forall (λ l, ¬ is_header_of F l) (remove_loop F lines skip bc).
Proof.
  revert skip bc. induction lines as [|line lines IH]; intros skip bc.
  - constructor.
  - cbn [remove_loop]. destruct skip.
    + case_match; apply IH.
    + destruct (function_match line) as [name|] eqn:E.
      * case_bool_decide as HF; [apply IH|].
        constructor; [|apply IH].
        intros (n & Hn & HnF). congruence.
      * constructor; [|apply IH].
        intros (n & Hn & HnF). congruence.
Qed.

(** Without such a header, the loop never starts skipping. *)
Lemma remove_loop_id (lines : list text) (bc : Z) :
  Forall (λ l, ¬ is_header_of F l) lines →
  remove_loop F lines false bc = lines.
Proof.
  induction 1 as [|line lines Hline _ IH]; [done|].
  cbn [remove_loop].
  destruct (function_match line) as [name|] eqn:E.
  - case_bool_decide as HF.
    + destruct Hline. by exists name.
    + by rewrite IH.
  - by rewrite IH.
Qed.

Lemma function_match_empty : function_match [] = None.
Proof. reflexivity. Qed.

Lemma not_header_empty : ¬ is_header_of F [].
Proof. intros (n & Hn & _). by rewrite function_match_empty in Hn. Qed.

(** The lines of the output text are the emitted lines; when nothing is
    emitted the output is the empty text, whose only line is empty. *)
Lemma split_remove (content : text) :
  split_nl (remove_duplicate_functions content F) =
    match emitted_lines content F with
    | [] => [[]]
    | ls => ls
    end.
Proof.
  unfold remove_duplicate_functions.
  destruct (emitted_lines content F) as [|l ls] eqn:E; [done|].
  apply split_join; [done|]. rewrite <- E.
  eapply Forall_sublist; [apply remove_loop_sublist | apply split_nl_no_nl].
Qed.

Lemma remove_no_header (content : text) :
  Forall (λ l, ¬ is_header_of F l)
    (split_nl (remove_duplicate_functions content F)).
Proof.
  rewrite split_remove.
  pose proof (remove_loop_no_header (split_nl content) false 0) as H.
  fold (emitted_lines content F) in H.
  destruct (emitted_lines content F); [|done].
  repeat constructor. apply not_header_empty.
Qed.

Lemma remove_id (content : text) :
  Forall (λ l, ¬ is_header_of F l) (split_nl content) →
  remove_duplicate_functions content F = content.
Proof.
  intros H. unfold remove_duplicate_functions, emitted_lines.
  rewrite remove_loop_id by done. apply join_split.
Qed.

(** C5. Removing the same set of functions a second time changes
    nothing. *)
Theorem remove_duplicate_functions_idempotent (content : text) :
  remove_duplicate_functions (remove_duplicate_functions content F) F =
  remove_duplicate_functions content F.
Proof. apply remove_id, remove_no_header. Qed.

End Remover.

(** The nested-braces scenario. *)

Definition nested_braces_input : text :=
  Str.join_nl
    [ py "foo() {";
      py "  if true; then";
      py "    echo " ++ [dquote] ++ py "{" ++ [dquote];
      py "  fi";
      py "}";
      py "bar() {";
      py "  echo ok";
      py "}";
      [] ].

Definition nested_braces_bar : text :=
  Str.join_nl [ py "bar() {"; py "  echo ok"; py "}"; [] ].

(** C4, as stated, fails: the remover does not keep [bar]. *)
Lemma nested_braces_counterexample :
  Consolidate.remove_duplicate_functions nested_braces_input {[ py "foo" ]}
  ≠ nested_braces_bar.
Proof. vm_compute. discriminate. Qed.

(** C4, amended. On the nested-braces input with deletion set {foo} the
    remover emits no line at all: the brace inside the string literal of
    line 3 is counted as an opening brace, the counter is still positive at
    the closing brace of [foo] and at the end of the text, and the output is
    the empty text. *)
Theorem nested_braces_removes_everything :
  Consolidate.emitted_lines nested_braces_input {[ py "foo" ]} = [] ∧
  Consolidate.remove_duplicate_functions nested_braces_input {[ py "foo" ]}
  = [].
Proof. split; reflexivity. Qed.

(** ** Substrings *)

Section Substrings.

Import Str.

Lemma infix_refl (s : text) : infix s s.
Proof. exists [], []. by rewrite app_nil_r. Qed.

Lemma infix_nil (s : text) : infix [] s.
Proof. by exists [], s. Qed.

Lemma infix_trans (a b c : text) : infix a b → infix b c → infix a c.
Proof.
  intros (x & y & ->) (u & v & ->).
  exists (u ++ x), (y ++ v). by rewrite <- !app_assoc.
Qed.

Lemma infix_app_l (p a b : text) : infix p b → infix p (a ++ b).
Proof. intros (x & y & ->). exists (a ++ x), y. by rewrite <- app_assoc. Qed.

Lemma infix_app_r (p a b : text) : infix p a → infix p (a ++ b).
Proof. intros (x & y & ->). exists x, (y ++ b). by rewrite <- !app_assoc. Qed.

Lemma infix_suffix (p s : text) : p `suffix_of` s → infix p s.
Proof. intros [k ->]. exists k, []. by rewrite app_nil_r. Qed.

Lemma infix_prefix (p s : text) : p `prefix_of` s → infix p s.
Proof. intros [k ->]. by exists [], k. Qed.

Lemma startswith_spec (p s : text) :
  startswith p s = true ↔ p `prefix_of` s.
Proof.
  revert s. induction p as [|a p IH]; intros s.
  - split; [intros _; apply prefix_nil | done].
  - destruct s as [|b s]; simpl.
    + split; [done|]. intros [k Hk]. discriminate.
    + rewrite andb_true_iff, Ascii.eqb_eq, IH. split.
      * intros [-> Hp]. by apply prefix_cons.
      * intros [k Hk]. simplify_eq/=. split; [done|]. by exists k.
Qed.

Lemma contains_spec (p s : text) : contains p s = true ↔ infix p s.
Proof.
  induction s as [|c s IH].
  - simpl. rewrite orb_false_r, startswith_spec. split.
    + apply infix_prefix.
    + intros (a & b & H). symmetry in H.
      apply app_eq_nil in H as [-> H]. apply app_eq_nil in H as [-> _].
      done.
  - cbn [contains]. rewrite orb_true_iff, startswith_spec, IH. split.
    + intros [H|H]; [by apply infix_prefix|].
      by apply (infix_app_l p [c] s).
    + intros (a & b & H). destruct a as [|x a].
      * left. by exists b.
      * right. simplify_eq/=. by exists a, b.
Qed.

Lemma lstrip_suffix (s : text) : lstrip s `suffix_of` s.
Proof.
  induction s as [|c s IH]; [done|]. simpl.
  destruct (isspace c); [|done]. by apply suffix_cons_r.
Qed.

Lemma strip_infix (s : text) : infix (strip s) s.
Proof.
  unfold strip, rstrip.
  eapply infix_trans; [|apply infix_suffix, lstrip_suffix].
  destruct (lstrip_suffix (rev (lstrip s))) as [k Hk].
  apply infix_prefix. exists (rev k).
  rewrite <- rev_app_distr, <- Hk. by rewrite rev_involutive.
Qed.

Lemma join_nl_infix (ls : list text) (l : text) :
  l ∈ ls → infix l (join_nl ls).
Proof.
  induction ls as [|x ls IH]; [by intros ?%elem_of_nil|].
  destruct ls as [|y ls].
  - intros ->%list_elem_of_singleton. apply infix_refl.
  - rewrite join_nl_cons by done. rewrite elem_of_cons. intros [->|H].
    + apply infix_app_r, infix_refl.
    + apply infix_app_l. apply (infix_app_l l [nl]). by apply IH.
Qed.

Lemma line_infix (content l : text) : l ∈ split_nl content → infix l content.
Proof. intros H. rewrite <- (join_split content). by apply join_nl_infix. Qed.

End Substrings.

(** ** The matcher *)

Section Matcher.

Import Re.

(** The capture state agrees with the text read so far. *)
Definition cap_ok (k : cap) (pre : text) : Prop :=
  match k with
  | NoCap => True
  | Open acc => acc `suffix_of` pre
  | Closed g => Str.infix g pre
  end.

(** A matcher reads a prefix of the text and reports as group 1 a
    substring of what was read. *)
Definition sound_at (f : matcher) (s : text) : Prop :=
  ∀ k prev m pre,
    cap_ok k pre → f k prev s = Some m →
    ∃ used, s = used ++ rest m ∧ Str.infix (grp m) (pre ++ used).

Definition sound (f : matcher) : Prop := ∀ s, sound_at f s.

Lemma cap_ok_push (k : cap) (pre : text) (c : ascii) :
  cap_ok k pre → cap_ok (push k c) (pre ++ [c]).
Proof.
  destruct k as [|acc|g]; simpl; [done| |].
  - intros [x ->]. exists x. by rewrite <- app_assoc.
  - apply infix_app_r.
Qed.

Lemma sound_step (f : matcher) (c : ascii) (s : text) :
  sound_at f s →
  ∀ k prev m pre,
    cap_ok k pre → f (push k c) prev s = Some m →
    ∃ used, c :: s = used ++ rest m ∧ Str.infix (grp m) (pre ++ used).
Proof.
  intros Hf k prev m pre Hk Hm.
  destruct (Hf _ _ _ (pre ++ [c]) (cap_ok_push _ _ c Hk) Hm)
    as (used & -> & Hg).
  exists (c :: used). split; [done|].
  by rewrite <- app_assoc in Hg.
Qed.

Lemma sound_star (p : ascii → bool) (cont : matcher) :
  sound cont → sound (star p cont).
Proof.
  intros Hc s. induction s as [|c s IH]; intros k prev m pre Hk; simpl.
  - by apply Hc.
  - destruct (p c); [|by apply Hc].
    destruct (star p cont (push k c) (Some c) s) as [m'|] eqn:E.
    + intros [= <-]. by eapply sound_step.
    + by apply Hc.
Qed.

Lemma sound_star_lazy (p : ascii → bool) (cont : matcher) :
  sound cont → sound (star_lazy p cont).
Proof.
  intros Hc s. induction s as [|c s IH]; intros k prev m pre Hk; simpl.
  - destruct (cont k prev []) as [m'|] eqn:E; [|done].
    intros [= <-]. by eapply Hc.
  - destruct (cont k prev (c :: s)) as [m'|] eqn:E.
    + intros [= <-]. by eapply Hc.
    + destruct (p c); [|done]. by eapply sound_step.
Qed.

Lemma sound_rmatch (r : regex) : sound (rmatch r).
Proof.
  induction r as [|a r IH]; [|destruct a]; cbn [rmatch].
  - intros s k prev m pre Hk [= <-]. exists []. simpl. split; [done|].
    rewrite app_nil_r. destruct k; simpl in *; auto using infix_nil.
  - intros [|c s] k prev m pre Hk; [done|].
    destruct (p c); [|done]. by eapply sound_step.
  - by apply sound_star.
  - by apply sound_star_lazy.
  - intros s k [c|] m pre Hk; [done|]. by apply IH.
  - intros s k prev m pre Hk. destruct (at_bol prev); [|done]. by apply IH.
  - intros s k prev m pre Hk. destruct (at_eol s); [|done]. by apply IH.
  - intros s k prev m pre Hk. apply IH. apply suffix_nil.
  - intros s k prev m pre Hk. destruct k as [|acc|g]; apply IH; try done.
    by apply infix_suffix.
Qed.

(** [re.match]: group 1 is a substring of the text. *)
Lemma re_match_grp (r : regex) (s : text) (m : found) :
  re_match r s = Some m → Str.infix (grp m) s.
Proof.
  intros H. destruct (sound_rmatch r s NoCap None m [] I H) as (u & -> & Hg).
  by apply infix_app_r.
Qed.

End Matcher.

(** ** The framework-import injector *)

Section Injector.

Import Str Consolidate.

Lemma split_nl_app (a b : text) :
  split_nl (a ++ nl :: b) = split_nl a ++ split_nl b.
Proof.
  induction a as [|c a IH]; [done|].
  destruct (decide (c = nl)) as [->|Hc].
  - cbn [app]. rewrite !split_nl_nl, IH. done.
  - cbn [app].
    destruct (split_nl_cons c (a ++ nl :: b) Hc) as (l & ls & E & ->).
    destruct (split_nl_cons c a Hc) as (l0 & ls0 & E0 & ->).
    rewrite IH, E0 in E. by simplify_eq/=.
Qed.

Lemma split_join_concat (ls : list text) :
  ls ≠ [] → split_nl (join_nl ls) = concat (split_nl <$> ls).
Proof.
  induction ls as [|l ls IH]; [done|]. intros _.
  destruct ls as [|l' ls].
  - simpl. by rewrite app_nil_r.
  - rewrite join_nl_cons by done. rewrite split_nl_app, IH by done. done.
Qed.

Lemma concat_split_lines (ls : list text) :
  Forall (λ l, nl ∉ l) ls → concat (split_nl <$> ls) = ls.
Proof.
  induction 1 as [|l ls Hl _ IH]; [done|].
  cbn. rewrite IH. by rewrite split_nl_line.
Qed.

(** The lines of a text after a block is inserted at line [i]. *)
Lemma split_insert (content block : text) (i : nat) :
  split_nl (join_nl (list_insert_at i block (split_nl content))) =
  take i (split_nl content) ++ split_nl block ++ drop i (split_nl content).
Proof.
  unfold list_insert_at.
  rewrite split_join_concat by (by destruct (take i (split_nl content))).
  rewrite fmap_app, fmap_cons, concat_app, concat_cons.
  pose proof (split_nl_no_nl content) as H.
  rewrite !concat_split_lines; [done|by apply Forall_drop|by apply Forall_take].
Qed.

Lemma split_insert_perm (content block : text) (i : nat) :
  split_nl (join_nl (list_insert_at i block (split_nl content))) ≡ₚ
  split_nl content ++ split_nl block.
Proof.
  rewrite split_insert.
  rewrite <- (take_drop i (split_nl content)) at 3.
  rewrite <- !app_assoc. f_equiv. apply Permutation_app_comm.
Qed.

(** Texts none of whose lines is a header of [F]. *)
Definition header_free (F : gset text) (content : text) : Prop :=
  Forall (λ l, ¬ is_header_of F l) (split_nl content).

Lemma any_in_spec (F : gset text) (content : text) :
  any_in F content = true ↔ ∃ f, f ∈ F ∧ infix f content.
Proof.
  unfold any_in. rewrite existsb_exists. split.
  - intros (f & Hf & Hc). exists f. split.
    + by apply elem_of_elements, list_elem_of_In.
    + by apply contains_spec.
  - intros (f & Hf & Hc). exists f. split.
    + by apply list_elem_of_In, elem_of_elements.
    + by apply contains_spec.
Qed.

(** The name of a header occurs in its line. *)
Lemma function_match_infix (line name : text) :
  function_match line = Some name → infix name line.
Proof.
  unfold function_match.
  destruct (Re.re_match function_re (strip line)) as [m|] eqn:E; [|done].
  intros [= <-]. eapply infix_trans; [|apply strip_infix].
  by eapply re_match_grp.
Qed.

Lemma header_free_no_name (F : gset text) (content : text) :
  any_in F content = false → header_free F content.
Proof.
  intros Hno. apply Forall_forall. intros l Hl (name & Hm & HF).
  assert (any_in F content = true) as H; [|congruence].
  apply any_in_spec. exists name. split; [done|].
  eapply infix_trans; [by apply function_match_infix|by apply line_infix].
Qed.

Lemma header_free_remove (F G : gset text) (content : text) :
  header_free G content →
  header_free G (remove_duplicate_functions content F).
Proof.
  unfold header_free. intros H. rewrite split_remove.
  destruct (emitted_lines content F) as [|l ls] eqn:E.
  - repeat constructor. apply not_header_empty.
  - rewrite <- E. eapply Forall_sublist; [apply remove_loop_sublist|done].
Qed.

Lemma header_free_insert (G : gset text) (content block : text) (i : nat) :
  header_free G content → header_free G block →
  header_free G (join_nl (list_insert_at i block (split_nl content))).
Proof.
  unfold header_free. intros Hc Hb. rewrite split_insert.
  rewrite !Forall_app. auto using Forall_take, Forall_drop.
Qed.

Lemma import_blocks_no_header (G : gset text) :
  header_free G test_import_block ∧ header_free G ui_import_block.
Proof.
  assert (∀ b, forallb (λ l, bool_decide (function_match l = None))
                 (split_nl b) = true → header_free G b) as H.
  { intros b Hb. apply Forall_forall. intros l Hl (n & Hn & _).
    rewrite forallb_forall in Hb. apply list_elem_of_In, Hb in Hl.
    apply bool_decide_eq_true in Hl. congruence. }
  split; apply H; by vm_compute.
Qed.

(** The two halves of [update_content]. *)
Definition framework_step (functions : gset text) (fragment kind : text)
  (content : text) : text :=
  if any_in functions content then
    remove_duplicate_functions
      (if negb (contains fragment content)
       then add_framework_import content kind else content)
      functions
  else content.

Definition test_step : text → text :=
  framework_step test_functions (py "test_framework_core.sh") (py "test").

Definition ui_step : text → text :=
  framework_step ui_functions (py "print_utils.sh") (py "ui").

Lemma update_content_steps (content : text) :
  (update_content content).1 = ui_step (test_step content).
Proof.
  unfold update_content, ui_step, test_step, framework_step,
    should_add_test_framework, should_add_ui_framework.
  destruct (any_in test_functions content);
    [destruct (negb (contains (py "test_framework_core.sh") content));
     cbv zeta; case_bool_decide|];
    cbv beta iota zeta;
    (destruct (any_in ui_functions _); [|done]);
    (destruct (negb (contains (py "print_utils.sh") _)));
    cbv beta iota zeta; by case_bool_decide.
Qed.

End Injector.

Section InjectorTwice.

Import Str Consolidate.

Lemma add_test_import (content : text) :
  add_framework_import content (py "test") =
  join_nl (list_insert_at (find_insert_index (split_nl content))
             test_import_block (split_nl content)).
Proof. reflexivity. Qed.

Lemma add_ui_import (content : text) :
  add_framework_import content (py "ui") =
  join_nl (list_insert_at (find_insert_index (split_nl content))
             ui_import_block (split_nl content)).
Proof. reflexivity. Qed.

(** What a step may add: the lines of its import block. *)
Definition block_of (kind : text) : text :=
  if bool_decide (kind = py "test") then test_import_block
  else if bool_decide (kind = py "ui") then ui_import_block
  else [].

Lemma header_free_add (G : gset text) (content kind : text) :
  header_free G content →
  header_free G (add_framework_import content kind).
Proof.
  intros H. unfold add_framework_import.
  destruct (import_blocks_no_header G) as [Ht Hu].
  repeat case_bool_decide; auto using header_free_insert.
Qed.

Lemma split_add_submseteq (content kind : text) :
  split_nl (add_framework_import content kind) ⊆+
  split_nl content ++ split_nl (block_of kind).
Proof.
  unfold add_framework_import, block_of.
  repeat case_bool_decide.
  - apply Permutation_submseteq, split_insert_perm.
  - apply Permutation_submseteq, split_insert_perm.
  - by apply submseteq_inserts_r.
Qed.

Lemma split_remove_submseteq (F : gset text) (content : text)
  (Y : list text) :
  split_nl content ⊆+ Y → [] ∈ Y →
  split_nl (remove_duplicate_functions content F) ⊆+ Y.
Proof.
  intros HY Hnil. rewrite split_remove.
  destruct (emitted_lines content F) as [|l ls] eqn:E.
  - by apply singleton_submseteq_l.
  - rewrite <- E. etrans; [|exact HY].
    apply sublist_submseteq, remove_loop_sublist.
  Qed.

Section Step.

Variables (functions : gset text) (fragment kind : text).

Lemma step_header_free (content : text) :
  header_free functions (framework_step functions fragment kind content).
Proof.
  unfold framework_step.
  destruct (any_in functions content) eqn:E.
  - apply remove_no_header.
  - by apply header_free_no_name.
Qed.

Lemma step_preserves_header_free (G : gset text) (content : text) :
  header_free G content →
  header_free G (framework_step functions fragment kind content).
Proof.
  intros H. unfold framework_step.
  destruct (any_in functions content); [|done].
  apply header_free_remove.
  destruct (negb (contains fragment content)); [|done].
  by apply header_free_add.
Qed.

Lemma step_submseteq (content : text) :
  [] ∈ split_nl (block_of kind) →
  split_nl (framework_step functions fragment kind content) ⊆+
  split_nl content ++ split_nl (block_of kind).
Proof.
  intros Hnil. unfold framework_step.
  destruct (any_in functions content);
    [|by apply submseteq_inserts_r].
  apply split_remove_submseteq; [|apply elem_of_app; by right].
  destruct (negb (contains fragment content)).
  - apply split_add_submseteq.
  - by apply submseteq_inserts_r.
Qed.

(** On a text without headers of its functions, and with the fragment
    present whenever one of the names is, a step changes nothing. *)
Lemma step_fixed (content : text) :
  header_free functions content →
  (any_in functions content = true → contains fragment content = true) →
  framework_step functions fragment kind content = content.
Proof.
  intros Hfree Himp. unfold framework_step.
  destruct (any_in functions content); [|done].
  rewrite Himp by done. simpl. by apply remove_id.
Qed.

End Step.

(** The output of [update_content] holds no header of either set. *)
Lemma update_content_header_free (content : text) :
  header_free test_functions (update_content content).1 ∧
  header_free ui_functions (update_content content).1.
Proof.
  rewrite update_content_steps. split.
  - apply step_preserves_header_free, step_header_free.
  - apply step_header_free.
Qed.

(** Every line of the output is a line of the input or of one copy of an
    import block. *)
Lemma update_content_lines (content : text) :
  split_nl (update_content content).1 ⊆+
  split_nl content ++ split_nl test_import_block ++ split_nl ui_import_block.
Proof.
  rewrite update_content_steps, app_assoc.
  etrans; [apply (step_submseteq _ _ (py "ui")); by vm_compute; left|].
  apply submseteq_skips_r.
  apply (step_submseteq _ _ (py "test")). vm_compute. by left.
Qed.

(** The import of each framework that the text needs is present. *)
Definition imports_present (content : text) : Prop :=
  (should_add_test_framework content = true →
   contains (py "test_framework_core.sh") content = true) ∧
  (should_add_ui_framework content = true →
   contains (py "print_utils.sh") content = true).

Lemma update_content_fixed (content : text) :
  header_free test_functions content →
  header_free ui_functions content →
  imports_present content →
  update_content content = (content, false).
Proof.
  intros Ht Hu [Hti Hui].
  unfold update_content, should_add_test_framework,
    should_add_ui_framework in *.
  destruct (any_in test_functions content).
  - rewrite Hti by done. cbv beta iota zeta. unfold negb.
    rewrite (remove_id _ _ Ht).
    rewrite bool_decide_eq_false_2 by (intros H; by apply H).
    destruct (any_in ui_functions content); [|done].
    rewrite Hui by done. cbv beta iota zeta. unfold negb.
    rewrite (remove_id _ _ Hu).
    by rewrite bool_decide_eq_false_2 by (intros H; by apply H).
  - destruct (any_in ui_functions content); [|done].
    rewrite Hui by done. cbv beta iota zeta. unfold negb.
    rewrite (remove_id _ _ Hu).
    by rewrite bool_decide_eq_false_2 by (intros H; by apply H).
Qed.

(** A second pass over the output of a first one changes nothing when the
    imports the output needs are present in it. *)
Lemma update_content_twice (content : text) :
  imports_present (update_content content).1 →
  update_content (update_content content).1 =
  ((update_content content).1, false).
Proof.
  destruct (update_content_header_free content).
  by apply update_content_fixed.
Qed.

End InjectorTwice.

Section InjectorFiles.

Import Str Consolidate.

(** [update_file] on a readable file whose write does not fail. *)
Lemma update_file_run (self : consolidator) (p : path) (st : Sys.state)
  (c : text) :
  Sys.files (Sys.fs st) !! p = Some c →
  p ∉ Sys.unreadable (Sys.fs st) →
  Sys.write_fault (Sys.fs st) !! p = None →
  update_file self p st =
    if (update_content c).2 && bool_decide ((update_content c).1 ≠ c) then
      (Sys.State
         (Sys.set_files (Sys.fs st)
            (<[p := (update_content c).1]> (Sys.files (Sys.fs st))))
         (Sys.out st ++ [Sys.Updated p]),
       Sys.Return (Consolidator (changes_made self + 1)
                     (files_updated self + 1), true))
    else (st, Sys.Return (self, false)).
Proof.
  intros Hf Hr Hw.
  unfold update_file, Sys.try_except, Sys.read_text, Sys.write_text.
  unfold mbind, Sys.M_bind, Sys.get_world, mret, Sys.M_ret.
  rewrite Hf. rewrite bool_decide_eq_false_2 by done.
  destruct (update_content c) as [c' upd]. cbn [fst snd].
  destruct (upd && bool_decide (c' ≠ c)); [|done].
  rewrite Hw. reflexivity.
Qed.

(** Without the flag [file_updated], the content is the original one. *)
Lemma update_content_unchanged (c : text) :
  (update_content c).2 = false → (update_content c).1 = c.
Proof.
  unfold update_content, should_add_test_framework,
    should_add_ui_framework.
  destruct (any_in test_functions c);
    [destruct (negb (contains (py "test_framework_core.sh") c));
     cbv zeta; case_bool_decide as H1|];
    cbv beta iota zeta;
    (destruct (any_in ui_functions _); [|try done]);
    try (destruct (negb (contains (py "print_utils.sh") _)));
    cbv beta iota zeta; try case_bool_decide as H2; cbn [fst snd];
    try done.
  all: try (intros _; by apply dec_stable in H2).
  all: try (intros _; by apply dec_stable in H1).
Qed.

(** C6, amended. On a readable file whose write succeeds, one invocation
    of [update_file] leaves [update_content] of the old content in the
    file; each line of it is a line of the old content or of one copy of
    an import block, so at most one block per framework is inserted; and
    when the new content holds the source path of each framework whose
    functions it mentions (the import is present), a second invocation
    changes neither the file system nor the output and reports no
    update. *)
Theorem update_file_twice (w : Sys.world) (self : consolidator) (p : path)
  (c : text) :
  Sys.files w !! p = Some c →
  p ∉ Sys.unreadable w →
  Sys.write_fault w !! p = None →
  let st1 := (Sys.run (update_file self p) w).1 in
  let c1 := (update_content c).1 in
  Sys.files (Sys.fs st1) !! p = Some c1 ∧
  split_nl c1 ⊆+
    split_nl c ++ split_nl test_import_block ++ split_nl ui_import_block ∧
  (imports_present c1 →
   ∀ self', update_file self' p st1 = (st1, Sys.Return (self', false))).
Proof.
  intros Hf Hr Hw st1 c1.
  assert (Sys.files (Sys.fs st1) !! p = Some c1
          ∧ Sys.unreadable (Sys.fs st1) = Sys.unreadable w
          ∧ Sys.write_fault (Sys.fs st1) = Sys.write_fault w)
    as (Hf1 & Hr1 & Hw1).
  { subst st1 c1. unfold Sys.run. rewrite (update_file_run _ _ _ c) by done.
    destruct (update_content c) as [c' upd] eqn:E. cbn [fst snd].
    destruct upd; cbn [andb]; [case_bool_decide as Hne|];
      cbn [fst snd Sys.fs Sys.files Sys.set_files Sys.unreadable
           Sys.write_fault].
    - rewrite lookup_insert_eq. split_and!; reflexivity.
    - rewrite Hne. split_and!; [exact Hf|..];
        reflexivity.
    - pose proof (update_content_unchanged c) as Hu.
      rewrite E in Hu. cbn [fst snd] in Hu. rewrite Hu by reflexivity.
      split_and!; [exact Hf|..]; reflexivity. }
  split_and!; [done|apply update_content_lines|].
  intros Hpres self'.
  rewrite (update_file_run _ _ _ c1); [|done|by rewrite Hr1|by rewrite Hw1].
  subst c1. by rewrite update_content_twice.
Qed.

End InjectorFiles.

(** A test script that calls [test_pass]: the import is inserted once. *)
Definition calls_test_pass : Sys.world :=
  Sys.World {[ py "tests/t.sh" := py "test_pass ok" ]} ∅ ∅ ∅.

Lemma update_file_twice_witness :
  let st1 :=
    (Sys.run (Consolidate.update_file (Consolidate.Consolidator 0 0)
                (py "tests/t.sh")) calls_test_pass).1 in
  Sys.files (Sys.fs st1) !! py "tests/t.sh" =
    Some (Consolidate.test_import_block ++ Str.nl :: py "test_pass ok") ∧
  Consolidate.update_file (Consolidate.Consolidator 1 1) (py "tests/t.sh") st1
  = (st1, Sys.Return (Consolidate.Consolidator 1 1, false)).
Proof.
  pose proof (update_file_twice calls_test_pass (Consolidate.Consolidator 0 0)
                (py "tests/t.sh") (py "test_pass ok")
                eq_refl (not_elem_of_empty _) eq_refl) as (H1 & _ & H3).
  split.
  - rewrite H1. vm_compute. reflexivity.
  - apply H3. split.
    + intros _. vm_compute. reflexivity.
    + intros H. vm_compute in H. discriminate H.
Defined.

(** A script whose bootstrap block sits inside a function that the
    consolidation removes. *)
Definition bootstrap_inside_function : text :=
  Str.join_nl
    [ py "assert(){ # SERVERSENTRY_ENV_LOADED bootstrap";
      py "fi";
      py "}";
      py "assert" ].

Definition swallowed_import : Sys.world :=
  Sys.World {[ py "tests/t.sh" := bootstrap_inside_function ]} ∅ ∅ ∅.

(** C6, as stated, fails: the first invocation inserts the import after the
    [fi] inside [assert] and then removes it together with [assert]; the
    second invocation inserts it again, at the top. *)
Lemma update_file_twice_counterexample :
  let self := Consolidate.Consolidator 0 0 in
  let st1 :=
    (Sys.run (Consolidate.update_file self (py "tests/t.sh"))
       swallowed_import).1 in
  let st2 := (Consolidate.update_file self (py "tests/t.sh") st1).1 in
  Sys.files (Sys.fs st1) !! py "tests/t.sh" = Some (py "assert") ∧
  Sys.files (Sys.fs st2) !! py "tests/t.sh" =
    Some (Consolidate.test_import_block ++ Str.nl :: py "assert") ∧
  Sys.files (Sys.fs st2) ≠ Sys.files (Sys.fs st1).
Proof.
  split_and!; [vm_compute; reflexivity..|].
  intros H. apply (f_equal (λ m, m !! py "tests/t.sh")) in H.
  vm_compute in H. discriminate.
Qed.

(** ** The bootstrap migrator *)

Section Migrator.

Import Str Migrate.

Lemma backup_ne (p : path) : backup_of p ≠ p.
Proof.
  unfold backup_of. intros H. apply (f_equal length) in H.
  rewrite length_app in H. vm_compute (length (py ".backup")) in H. lia.
Qed.

(** A path that ends in [.sh] is nobody's backup. *)
Lemma sh_not_backup (p q : path) :
  endswith (py ".sh") p = true → p ≠ backup_of q.
Proof.
  intros H ->. unfold endswith, backup_of in H.
  rewrite rev_app_distr in H. by vm_compute in H.
Qed.

(** [needs_migration], as a function of the world. *)
Definition needs (w : Sys.world) (p : path) : bool :=
  match Audit.read w p with
  | Some content => contains (py "lib/serversentry-bootstrap.sh") content
  | None => false
  end.

Lemma needs_migration_run (p : path) (st : Sys.state) :
  needs_migration p st = (st, Sys.Return (needs (Sys.fs st) p)).
Proof.
  unfold needs_migration, needs, Audit.read, Sys.try_except, Sys.read_text.
  unfold mbind, Sys.M_bind, Sys.get_world, mret, Sys.M_ret, Sys.raise.
  destruct (Sys.files (Sys.fs st) !! p) as [c|]; [|done].
  by case_bool_decide.
Qed.

Lemma select_files_run (l : list path) (st : Sys.state) :
  select_files l st =
  (st, Sys.Return (filter (λ p, needs (Sys.fs st) p = true) l)).
Proof.
  induction l as [|p l IH]; [done|].
  cbn [select_files]. unfold mbind, Sys.M_bind at 1.
  rewrite needs_migration_run. unfold mbind, Sys.M_bind at 1.
  rewrite IH. unfold mret, Sys.M_ret. rewrite filter_cons.
  destruct (needs (Sys.fs st) p); by case_decide.
Qed.

(** The selection of [main]: regular files ending in [.sh] that mention
    the legacy bootstrap file. *)
Definition files_to_migrate (w : Sys.world) (globbed : list path)
  : list path :=
  filter (λ p, needs w p = true)
    (filter (λ f, is_Some (Sys.files w !! f)
                  ∧ endswith (py ".sh") f = true) globbed).

(** The state after [migrate_file] printed [events] and left the files
    [m]. *)
Definition after (st : Sys.state) (m : gmap path text)
  (events : list Sys.event) : Sys.state :=
  Sys.State (Sys.set_files (Sys.fs st) m) (Sys.out st ++ events).

Lemma after_nil (st : Sys.state) : after st (Sys.files (Sys.fs st)) [] = st.
Proof.
  destruct st as [[m u f x] o]. unfold after, Sys.set_files. cbn.
  by rewrite app_nil_r.
Qed.

Lemma after_after (st : Sys.state) (m m' : gmap path text)
  (e e' : list Sys.event) :
  after (after st m e) m' e' = after st m' (e ++ e').
Proof. unfold after, Sys.set_files. cbn. by rewrite app_assoc. Qed.

(** Equations of the monad and of its primitives. *)
Lemma bind_return {A B} (m : Sys.M A) (f : A → Sys.M B) st st' a :
  m st = (st', Sys.Return a) → (m ≫= f) st = f a st'.
Proof. unfold mbind, Sys.M_bind. by intros ->. Qed.

Lemma bind_raise {A B} (m : Sys.M A) (f : A → Sys.M B) st st' :
  m st = (st', Sys.Raise) → (m ≫= f) st = (st', Sys.Raise).
Proof. unfold mbind, Sys.M_bind. by intros ->. Qed.

Lemma try_return {A} (body handler : Sys.M A) st st' a :
  body st = (st', Sys.Return a) →
  Sys.try_except body handler st = (st', Sys.Return a).
Proof. unfold Sys.try_except. by intros ->. Qed.

Lemma try_raise {A} (body handler : Sys.M A) st st' :
  body st = (st', Sys.Raise) →
  Sys.try_except body handler st = handler st'.
Proof. unfold Sys.try_except. by intros ->. Qed.

Lemma print_run (e : Sys.event) (st : Sys.state) :
  Sys.print e st = (after st (Sys.files (Sys.fs st)) [e], Sys.Return ()).
Proof. by destruct st as [[m u f x] o]. Qed.

Lemma read_run (p : path) (st : Sys.state) (c : text) :
  Sys.files (Sys.fs st) !! p = Some c → p ∉ Sys.unreadable (Sys.fs st) →
  Sys.read_text p st = (st, Sys.Return c).
Proof.
  intros Hf Hr. unfold Sys.read_text, mbind, Sys.M_bind, Sys.get_world.
  rewrite Hf. by rewrite bool_decide_eq_false_2.
Qed.

Lemma write_run (p : path) (data : text) (st : Sys.state) :
  Sys.write_fault (Sys.fs st) !! p = None →
  Sys.write_text p data st =
  (after st (<[p := data]> (Sys.files (Sys.fs st))) [], Sys.Return ()).
Proof.
  intros Hw. unfold Sys.write_text, mbind, Sys.M_bind, Sys.get_world.
  rewrite Hw. unfold Sys.put_files, after. by rewrite app_nil_r.
Qed.

(** The files after a failed write of [data] to [p]. *)
Definition failed_write (flt : Sys.fault) (p : path) (data : text)
  (m : gmap path text) : gmap path text :=
  match flt with
  | Sys.OpenDenied => m
  | Sys.WriteStops n => <[p := take n data]> m
  end.

Lemma write_fails (p : path) (data : text) (st : Sys.state)
  (flt : Sys.fault) :
  Sys.write_fault (Sys.fs st) !! p = Some flt →
  Sys.write_text p data st =
  (after st (failed_write flt p data (Sys.files (Sys.fs st))) [],
   Sys.Raise).
Proof.
  intros Hw. unfold Sys.write_text, mbind, Sys.M_bind, Sys.get_world.
  rewrite Hw. destruct flt as [|n]; cbn [failed_write].
  - by rewrite after_nil.
  - unfold Sys.put_files, Sys.raise, after. by rewrite app_nil_r.
Qed.

Lemma remove_run (p : path) (st : Sys.state) :
  is_Some (Sys.files (Sys.fs st) !! p) →
  Sys.remove p st =
  (after st (delete p (Sys.files (Sys.fs st))) [], Sys.Return ()).
Proof.
  intros [c Hc]. unfold Sys.remove, mbind, Sys.M_bind, Sys.get_world.
  rewrite Hc. unfold Sys.put_files, after. by rewrite app_nil_r.
Qed.

Lemma exists_run (p : path) (st : Sys.state) :
  Sys.path_exists p st =
  (st, Sys.Return (bool_decide (is_Some (Sys.files (Sys.fs st) !! p)))).
Proof. reflexivity. Qed.

Lemma move_run (src dst : path) (st : Sys.state) (data : text) :
  Sys.files (Sys.fs st) !! src = Some data →
  Sys.move src dst st =
  (after st (<[dst := data]> (delete src (Sys.files (Sys.fs st)))) [],
   Sys.Return ()).
Proof.
  intros Hc. unfold Sys.move, mbind, Sys.M_bind, Sys.get_world.
  rewrite Hc. unfold Sys.put_files, after. by rewrite app_nil_r.
Qed.

Lemma after_files st m e : Sys.files (Sys.fs (after st m e)) = m.
Proof. reflexivity. Qed.
Lemma after_unreadable st m e :
  Sys.unreadable (Sys.fs (after st m e)) = Sys.unreadable (Sys.fs st).
Proof. reflexivity. Qed.
Lemma after_write_fault st m e :
  Sys.write_fault (Sys.fs (after st m e)) = Sys.write_fault (Sys.fs st).
Proof. reflexivity. Qed.
Lemma after_out st m e : Sys.out (after st m e) = Sys.out st ++ e.
Proof. reflexivity. Qed.

Lemma copy2_run (src dst : path) (st : Sys.state) (c : text) :
  Sys.files (Sys.fs st) !! src = Some c →
  src ∉ Sys.unreadable (Sys.fs st) →
  Sys.write_fault (Sys.fs st) !! dst = None →
  Sys.copy2 src dst st =
  (after st (<[dst := c]> (Sys.files (Sys.fs st))) [], Sys.Return ()).
Proof.
  intros Hf Hr Hw. unfold Sys.copy2.
  rewrite (bind_return _ _ _ _ _ (read_run _ _ _ Hf Hr)).
  by apply write_run.
Qed.

(** The pattern does not match: the backup is made and removed. *)
Lemma migrate_file_no_match (p : path) (st : Sys.state) (c : text) :
  Sys.files (Sys.fs st) !! p = Some c →
  p ∉ Sys.unreadable (Sys.fs st) →
  Sys.write_fault (Sys.fs st) !! backup_of p = None →
  Re.sub old_pattern NEW_BOOTSTRAP_PATTERN c = c →
  migrate_file p st =
  (after st (delete (backup_of p) (Sys.files (Sys.fs st)))
     [Sys.Migrating p; Sys.NoChangesMade p],
   Sys.Return false).
Proof.
  intros Hf Hr Hw Hsub. unfold migrate_file.
  rewrite (bind_return _ _ _ _ _ (print_run _ _)).
  apply try_return.
  rewrite (bind_return _ _ _ _ c) by (by apply read_run).
  erewrite bind_return by (by eapply copy2_run).
  rewrite Hsub, bool_decide_eq_true_2 by reflexivity.
  rewrite (bind_return _ _ _ _ _ (print_run _ _)).
  erewrite bind_return.
  2:{ apply remove_run. rewrite !after_files, lookup_insert_eq. eauto. }
  rewrite !after_after, !after_files, delete_insert_eq. reflexivity.
Qed.

(** The pattern matched and the write-back fails: the backup is moved
    back. *)
Lemma migrate_file_write_fails (p : path) (st : Sys.state) (c : text)
  (flt : Sys.fault) :
  Sys.files (Sys.fs st) !! p = Some c →
  p ∉ Sys.unreadable (Sys.fs st) →
  Sys.write_fault (Sys.fs st) !! backup_of p = None →
  Sys.write_fault (Sys.fs st) !! p = Some flt →
  Re.sub old_pattern NEW_BOOTSTRAP_PATTERN c ≠ c →
  migrate_file p st =
  (after st (delete (backup_of p) (Sys.files (Sys.fs st)))
     [Sys.Migrating p; Sys.ErrorMigrating p],
   Sys.Return false).
Proof.
  intros Hf Hr Hw Hflt Hsub. unfold migrate_file.
  rewrite (bind_return _ _ _ _ _ (print_run _ _)).
  erewrite try_raise.
  2:{ rewrite (bind_return _ _ _ _ c) by (by apply read_run).
      erewrite bind_return by (by eapply copy2_run).
      rewrite bool_decide_eq_false_2 by exact Hsub.
      erewrite bind_raise; [reflexivity|].
      by apply write_fails. }
  rewrite (bind_return _ _ _ _ _ (print_run _ _)).
  rewrite (bind_return _ _ _ _ _ (exists_run _ _)).
  rewrite !after_after, !after_files.
  assert (failed_write flt p
            (Re.sub old_pattern NEW_BOOTSTRAP_PATTERN c)
            (<[backup_of p := c]> (Sys.files (Sys.fs st)))
          !! backup_of p = Some c) as Hb.
  { destruct flt; cbn [failed_write].
    - apply lookup_insert_eq.
    - rewrite lookup_insert_ne by (symmetry; apply backup_ne).
      apply lookup_insert_eq. }
  rewrite bool_decide_eq_true_2 by eauto.
  erewrite bind_return by (by eapply move_run).
  unfold mret, Sys.M_ret. rewrite !after_after, !after_files.
  do 2 f_equal. apply map_eq. intros q.
  destruct (decide (q = p)) as [->|Hqp].
  - rewrite lookup_insert_eq, lookup_delete_ne by apply backup_ne. done.
  - rewrite lookup_insert_ne by done.
    destruct (decide (q = backup_of p)) as [->|Hqb].
    + by rewrite !lookup_delete_eq.
    + rewrite !lookup_delete_ne by done.
      destruct flt; cbn [failed_write].
      * by rewrite lookup_insert_ne.
      * by rewrite !lookup_insert_ne.
Qed.

Lemma find_shell_files_run (globbed : list path) (st : Sys.state) :
  find_shell_files globbed st =
  (st, Sys.Return
         (filter (λ f, is_Some (Sys.files (Sys.fs st) !! f)
                       ∧ endswith (py ".sh") f = true) globbed)).
Proof. reflexivity. Qed.

(** A file on which [migrate_file] finds nothing to replace and nothing
    fails. *)
Definition no_match (w : Sys.world) (p : path) : Prop :=
  ∃ c, Sys.files w !! p = Some c
       ∧ (p ∉ Sys.unreadable w)
       ∧ Sys.write_fault w !! backup_of p = None
       ∧ Re.sub old_pattern NEW_BOOTSTRAP_PATTERN c = c.

Definition drop_backups (l : list path) (m : gmap path text)
  : gmap path text :=
  foldl (λ acc p, delete (backup_of p) acc) m l.

Lemma lookup_drop_backups (l : list path) (m : gmap path text) (k : path) :
  drop_backups l m !! k =
  if bool_decide (k ∈ backup_of <$> l) then None else m !! k.
Proof.
  revert m. induction l as [|p l IH]; intros m; [done|].
  cbn [drop_backups foldl]. fold (drop_backups l (delete (backup_of p) m)).
  rewrite IH, fmap_cons.
  destruct (decide (k = backup_of p)) as [->|Hk].
  - rewrite lookup_delete_eq, (bool_decide_eq_true_2 (_ ∈ _ :: _)).
    + by case_bool_decide.
    + by left.
  - rewrite lookup_delete_ne by done.
    rewrite (bool_decide_ext (k ∈ backup_of p :: (backup_of <$> l))
               (k ∈ backup_of <$> l)); [done|].
    rewrite elem_of_cons. split; [by intros [?|?]|by right].
Qed.

Lemma migrate_all_no_match (l : list path) (st : Sys.state) (m e : nat) :
  Forall (λ p, endswith (py ".sh") p = true ∧ no_match (Sys.fs st) p) l →
  migrate_all l m e st =
  (after st (drop_backups l (Sys.files (Sys.fs st)))
     (l ≫= (λ p, [Sys.Migrating p; Sys.NoChangesMade p])),
   Sys.Return (m, e + length l)).
Proof.
  revert st m e. induction l as [|p l IH]; intros st m e Hl.
  - cbn. unfold mret, Sys.M_ret. rewrite after_nil. by rewrite Nat.add_0_r.
  - apply Forall_cons in Hl as [[Hsh (c & Hf & Hr & Hw & Hsub)] Hl].
    cbn [migrate_all].
    rewrite (bind_return _ _ _ _ _
               (migrate_file_no_match _ _ _ Hf Hr Hw Hsub)).
    rewrite IH.
    + rewrite after_after, after_files. cbn [length].
      by replace (e + 1 + length l) with (e + S (length l)) by lia.
    + eapply Forall_impl; [exact Hl|].
      intros q [Hq (c' & Hf' & Hr' & Hw' & Hsub')]. split; [done|].
      exists c'. rewrite after_files, after_unreadable, after_write_fault.
      split_and!; try done.
      rewrite lookup_delete_ne; [done|].
      intros Heq. by eapply sh_not_backup.
Qed.

Lemma no_match_events (l : list path) (e : Sys.event) :
  e ∈ l ≫= (λ p, [Sys.Migrating p; Sys.NoChangesMade p]) →
  ∃ p, p ∈ l ∧ (e = Sys.Migrating p ∨ e = Sys.NoChangesMade p).
Proof.
  rewrite list_elem_of_bind. intros (p & He & Hp). exists p. split; [done|].
  apply elem_of_cons in He as [->|He]; [by left|].
  apply list_elem_of_singleton in He as ->. by right.
Qed.

(** C1, amended. When the pattern matches none of the processed files and
    nothing else fails, every processed file is reported with the line
    [No changes made] and with no error line, it keeps its content and
    its backup is gone; but [migrate_file] returns [False] for it, [main]
    counts it as an error, and the exit code is 1 as soon as one file was
    processed (0 only when no file needed migration). *)
Theorem main_all_no_match (w : Sys.world) (globbed : list path) :
  (∀ p, p ∈ files_to_migrate w globbed → no_match w p) →
  let st := (Sys.run (main globbed) w).1 in
  let r := (Sys.run (main globbed) w).2 in
  exit_code r =
    (if decide (files_to_migrate w globbed = []) then 0 else 1)%Z ∧
  ∀ p, p ∈ files_to_migrate w globbed →
       Sys.NoChangesMade p ∈ Sys.out st
       ∧ (Sys.ErrorMigrating p ∉ Sys.out st)
       ∧ Sys.files (Sys.fs st) !! p = Sys.files w !! p
       ∧ Sys.files (Sys.fs st) !! backup_of p = None.
Proof.
  intros Hall. unfold Sys.run, main.
  rewrite (bind_return _ _ _ _ _ (print_run _ _)).
  rewrite (bind_return _ _ _ _ _ (find_shell_files_run _ _)).
  rewrite (bind_return _ _ _ _ _ (print_run _ _)).
  rewrite (bind_return _ _ _ _ _ (select_files_run _ _)).
  rewrite (bind_return _ _ _ _ _ (print_run _ _)).
  rewrite !after_after, !after_files. cbn [Sys.fs].
  change (filter _ (filter _ globbed)) with (files_to_migrate w globbed).
  destruct (files_to_migrate w globbed) as [|p0 l] eqn:E.
  - rewrite (bind_return _ _ _ _ _ (print_run _ _)).
    cbn [fst snd]. split; [done|]. by intros p ?%elem_of_nil.
  - rewrite <- E in *.
    assert (Forall (λ p, endswith (py ".sh") p = true
                         ∧ no_match w p) (files_to_migrate w globbed))
      as Hforall.
    { apply Forall_forall. intros p Hp. split; [|by apply Hall].
      unfold files_to_migrate in Hp.
      apply list_elem_of_filter in Hp as [_ Hp].
      by apply list_elem_of_filter in Hp as [[_ Hsh] _]. }
    erewrite bind_return by (by apply migrate_all_no_match).
    cbn beta iota.
    rewrite (bind_return _ _ _ _ _ (print_run _ _)).
    assert ((0 + length (files_to_migrate w globbed) =? 0) = false) as ->.
    { rewrite E. reflexivity. }
    rewrite (bind_return _ _ _ _ _ (print_run _ _)).
    unfold mret, Sys.M_ret. rewrite !after_after, !after_files.
    cbn [fst snd after Sys.fs Sys.out Sys.files Sys.set_files].
    split; [by rewrite decide_False by (by rewrite E)|].
    intros p Hp. split_and!.
    + assert (Sys.NoChangesMade p
              ∈ files_to_migrate w globbed
                ≫= (λ q, [Sys.Migrating q; Sys.NoChangesMade q])) as Hin.
      { apply list_elem_of_bind. exists p. split; [|done]. right. by left. }
      rewrite !elem_of_app. tauto.
    + rewrite !elem_of_app, !list_elem_of_singleton, elem_of_nil.
      intros H. destruct_or!; try discriminate H; try done.
      apply no_match_events in H as (q & _ & [[=]|[=]]).
    + rewrite lookup_drop_backups, bool_decide_eq_false_2; [done|].
      intros (q & Heq & _)%list_elem_of_fmap.
      rewrite Forall_forall in Hforall. destruct (Hforall p Hp) as [Hsh _].
      by apply (sh_not_backup p q).
    + rewrite lookup_drop_backups, bool_decide_eq_true_2; [done|].
      by apply list_elem_of_fmap_2.
Qed.

(** C2. When the write-back of a transformed file fails, [migrate_file]
    moves the backup back: the file holds its old content, the backup is
    gone, the other files are as before, the file is reported as failed
    and the loop of [main] goes on with the next file and one more
    error. *)
Theorem write_failure_restores (p : path) (st : Sys.state) (c : text)
  (flt : Sys.fault) (rest : list path) (migrated_count error_count : nat) :
  Sys.files (Sys.fs st) !! p = Some c →
  p ∉ Sys.unreadable (Sys.fs st) →
  Sys.write_fault (Sys.fs st) !! backup_of p = None →
  Sys.write_fault (Sys.fs st) !! p = Some flt →
  Re.sub old_pattern NEW_BOOTSTRAP_PATTERN c ≠ c →
  let st' := (migrate_file p st).1 in
  (migrate_file p st).2 = Sys.Return false
  ∧ Sys.files (Sys.fs st') !! p = Some c
  ∧ Sys.files (Sys.fs st') !! backup_of p = None
  ∧ (∀ q, q ≠ backup_of p →
          Sys.files (Sys.fs st') !! q = Sys.files (Sys.fs st) !! q)
  ∧ Sys.out st' = Sys.out st ++ [Sys.Migrating p; Sys.ErrorMigrating p]
  ∧ migrate_all (p :: rest) migrated_count error_count st =
    migrate_all rest migrated_count (error_count + 1) st'.
Proof.
  intros Hf Hr Hw Hflt Hsub. cbn zeta.
  pose proof (migrate_file_write_fails _ _ _ _ Hf Hr Hw Hflt Hsub) as Hrun.
  cbn [migrate_all]. rewrite (bind_return _ _ _ _ _ Hrun).
  rewrite Hrun. cbn [fst snd]. rewrite after_files, after_out.
  split_and!; try done.
  - rewrite lookup_delete_ne by apply backup_ne. done.
  - apply lookup_delete_eq.
  - intros q Hq. by rewrite lookup_delete_ne.
Qed.

End Migrator.

(** A script that sources the legacy bootstrap file without the block that
    the pattern describes. *)
Definition sources_legacy_directly : Sys.world :=
  Sys.World
    {[ py "tools/a.sh" :=
         Str.join_nl [ py "source lib/serversentry-bootstrap.sh"; [] ] ]}
    ∅ ∅ ∅.

Lemma sources_legacy_directly_no_match (p : path) :
  p ∈ files_to_migrate sources_legacy_directly [py "tools/a.sh"] →
  no_match sources_legacy_directly p.
Proof.
  intros Hp. vm_compute in Hp.
  apply list_elem_of_singleton in Hp as ->.
  eexists. split_and!.
  - vm_compute. reflexivity.
  - apply not_elem_of_empty.
  - vm_compute. reflexivity.
  - vm_compute. reflexivity.
Defined.

Lemma main_all_no_match_witness :
  let st := (Sys.run (Migrate.main [py "tools/a.sh"])
               sources_legacy_directly).1 in
  Sys.NoChangesMade (py "tools/a.sh") ∈ Sys.out st
  ∧ Sys.files (Sys.fs st) !! py "tools/a.sh"
    = Sys.files sources_legacy_directly !! py "tools/a.sh"
  ∧ Sys.files (Sys.fs st) !! Migrate.backup_of (py "tools/a.sh") = None.
Proof.
  destruct (main_all_no_match sources_legacy_directly [py "tools/a.sh"]
              sources_legacy_directly_no_match) as [_ H].
  destruct (H (py "tools/a.sh")) as (H1 & _ & H3 & H4).
  - vm_compute. left.
  - exact (conj H1 (conj H3 H4)).
Defined.

(** C1, as stated, fails: the only processed file is a no-op, nothing else
    fails, and the exit code is 1. *)
Lemma no_match_exit_code_counterexample :
  (∀ p, p ∈ files_to_migrate sources_legacy_directly [py "tools/a.sh"] →
        no_match sources_legacy_directly p)
  ∧ Sys.out (Sys.run (Migrate.main [py "tools/a.sh"])
               sources_legacy_directly).1
    = [ Sys.Line (py "Starting bootstrap migration...");
        Sys.FoundShellFiles 1;
        Sys.FoundFilesToMigrate 1;
        Sys.Migrating (py "tools/a.sh");
        Sys.NoChangesMade (py "tools/a.sh");
        Sys.MigrationSummary 0 1 1;
        Sys.Line (py "Bootstrap migration completed with errors") ]
  ∧ Migrate.exit_code
      (Sys.run (Migrate.main [py "tools/a.sh"]) sources_legacy_directly).2
    = 1%Z.
Proof.
  split_and!.
  - apply sources_legacy_directly_no_match.
  - vm_compute. reflexivity.
  - vm_compute. reflexivity.
Qed.

(** A script with the legacy bootstrap block. *)
Definition legacy_script : text :=
  Str.join_nl
    [ py "#!/bin/bash";
      py "# Load ServerSentry environment";
      py "if [[ -z " ++ [dquote] ++ py "${SERVERSENTRY_ENV_LOADED:-}"
        ++ [dquote] ++ py " ]]; then";
      py "  source lib/serversentry-bootstrap.sh";
      py "fi";
      py "echo hi";
      [] ].

(** The write to the script stops after five characters. *)
Definition write_stops : Sys.world :=
  Sys.World {[ py "tools/a.sh" := legacy_script ]} ∅
    {[ py "tools/a.sh" := Sys.WriteStops 5 ]} ∅.

Lemma write_failure_restores_witness :
  let st := Sys.State write_stops [] in
  let st' := (Migrate.migrate_file (py "tools/a.sh") st).1 in
  Re.sub Migrate.old_pattern Migrate.NEW_BOOTSTRAP_PATTERN legacy_script
  ≠ legacy_script
  ∧ Sys.files (Sys.fs st') !! py "tools/a.sh" = Some legacy_script
  ∧ Sys.files (Sys.fs st') !! Migrate.backup_of (py "tools/a.sh") = None
  ∧ Sys.out st' =
    [Sys.Migrating (py "tools/a.sh"); Sys.ErrorMigrating (py "tools/a.sh")].
Proof.
  assert (Re.sub Migrate.old_pattern Migrate.NEW_BOOTSTRAP_PATTERN
            legacy_script ≠ legacy_script) as Hne.
  { intros H. vm_compute in H. discriminate H. }
  split; [exact Hne|].
  destruct (write_failure_restores (py "tools/a.sh")
              (Sys.State write_stops []) legacy_script (Sys.WriteStops 5)
              [] 0 0) as (_ & H2 & H3 & _ & H5 & _).
  - vm_compute. reflexivity.
  - apply not_elem_of_empty.
  - vm_compute. reflexivity.
  - vm_compute. reflexivity.
  - exact Hne.
  - exact (conj H2 (conj H3 H5)).
Defined.

(** ** Dictionaries in insertion order *)

Section Dict.

Import Audit.

Context {V : Type}.

(** [d[k]] of a [defaultdict(list)], without inserting. *)
Fixpoint dict_get (k : text) (d : dict text V) : list V :=
  match d with
  | [] => []
  | (k', vs) :: d' => if decide (k = k') then vs else dict_get k d'
  end.

(** Keys are distinct and no entry is empty. *)
Definition dict_wf (d : dict text V) : Prop :=
  NoDup d.*1 ∧ Forall (λ kv, kv.2 ≠ []) d.

Lemma dict_wf_nil : dict_wf [].
Proof. split; constructor. Qed.

Lemma dict_get_append (k k' : text) (v : V) (d : dict text V) :
  dict_get k (dict_append k' v d) =
  if decide (k = k') then dict_get k d ++ [v] else dict_get k d.
Proof.
  induction d as [|[k0 vs] d IH]; cbn [dict_append dict_get].
  - by case_decide.
  - destruct (decide (k' = k0)) as [->|Hne]; cbn [dict_get].
    + by repeat case_decide.
    + rewrite IH. repeat case_decide; try done. congruence.
Qed.

Lemma dict_keys_append (k : text) (v : V) (d : dict text V) :
  ∀ x, x ∈ (dict_append k v d).*1 ↔ x = k ∨ x ∈ d.*1.
Proof.
  induction d as [|[k0 vs] d IH]; intros x; cbn [dict_append].
  - cbn. rewrite list_elem_of_singleton, elem_of_nil. tauto.
  - case_decide as Hk; cbn [fmap list_fmap fst].
    + subst. rewrite !elem_of_cons. tauto.
    + rewrite !elem_of_cons, IH. tauto.
Qed.

Lemma dict_wf_append (k : text) (v : V) (d : dict text V) :
  dict_wf d → dict_wf (dict_append k v d).
Proof.
  intros [Hnd Hne]. induction d as [|[k0 vs] d IH]; cbn [dict_append].
  - split; repeat constructor; cbn; [apply not_elem_of_nil|done].
  - apply NoDup_cons in Hnd as [Hk0 Hnd].
    apply Forall_cons in Hne as [Hvs Hne].
    case_decide as Hk.
    + split; [by constructor|]. constructor; [|done].
      cbn. by destruct vs.
    + destruct (IH Hnd Hne) as [Hnd' Hne'].
      split; [|by constructor].
      cbn [fmap list_fmap fst]. constructor; [|done].
      rewrite dict_keys_append. intros [->|?]; done.
Qed.

Lemma dict_get_absent (k : text) (d : dict text V) :
  k ∉ d.*1 → dict_get k d = [].
Proof.
  induction d as [|[k0 vs] d IH]; [done|].
  cbn [fmap list_fmap fst dict_get]. rewrite not_elem_of_cons.
  intros [Hk Hd]. rewrite decide_False by done. by apply IH.
Qed.

Lemma dict_get_elem (k : text) (vs : list V) (d : dict text V) :
  NoDup d.*1 → (k, vs) ∈ d → dict_get k d = vs.
Proof.
  induction d as [|[k0 vs0] d IH]; [by intros _ ?%elem_of_nil|].
  cbn [fmap list_fmap fst dict_get].
  intros [Hk0 Hnd]%NoDup_cons [[= -> ->]|Hin]%elem_of_cons.
  - by rewrite decide_True.
  - rewrite decide_False; [by apply IH|].
    intros ->. apply Hk0. apply list_elem_of_fmap. by exists (k0, vs).
Qed.

End Dict.

(** ** Duplicate files *)

Section DuplicateFilesSpec.

Import Audit.

Variable md5 : text → text.
Variable w : Sys.world.

(** The digest of a scanned file that can be read. *)
Definition digest (f : path) : option text := md5 <$> read w f.

(** The scanned files with digest [h], in traversal order. *)
Definition group (scanned : list path) (h : text) : list path :=
  filter (λ f, digest f = Some h) scanned.

Lemma group_cons (f : path) (l : list path) (h : text) :
  group (f :: l) h = if decide (digest f = Some h) then f :: group l h
                     else group l h.
Proof. unfold group. rewrite filter_cons. by case_decide. Qed.

Definition access_issue (i : issue) : Prop := issue_category i = FILE_ACCESS.

(** The first loop: each entry of the dictionary grows by the files of its
    digest, and only access issues are logged. *)
Lemma hash_files_spec (l : list path) (d : dict text path) (self : auditor) :
  dict_wf d →
  ∃ extra,
    dict_wf (hash_files md5 w l d self).1
    ∧ (∀ h, dict_get h (hash_files md5 w l d self).1
            = dict_get h d ++ group l h)
    ∧ (hash_files md5 w l d self).2
      = Auditor (issues self ++ extra) (redundant_files self)
          (duplicate_functions self) (unused_files self)
    ∧ Forall access_issue extra.
Proof.
  revert d self. induction l as [|f l IH]; intros d self Hwf.
  - exists []. cbn. split_and!; try done.
    + intros h. by rewrite app_nil_r.
    + destruct self. cbn. by rewrite app_nil_r.
  - cbn [hash_files]. unfold group, digest in *.
    destruct (read w f) as [data|] eqn:Hread.
    + destruct (IH (dict_append (md5 data) f d) self) as (extra & H1 & H2 & H3 & H4);
        [by apply dict_wf_append|].
      exists extra. split_and!; try done.
      intros h. rewrite H2, dict_get_append, filter_cons, Hread. cbn.
      repeat case_decide; simplify_eq; try done.
      by rewrite <- app_assoc.
    + destruct (IH d (log_issue self LOW FILE_ACCESS f CannotReadFile))
        as (extra & H1 & H2 & H3 & H4); [done|].
      exists (Issue LOW FILE_ACCESS f CannotReadFile :: extra).
      split_and!; try done.
      * intros h. rewrite H2, filter_cons, Hread. cbn. by case_decide.
      * rewrite H3. cbn. by rewrite <- app_assoc.
      * by constructor.
Qed.

(** What the second loop does with one entry. *)
Definition redundant_of (entry : text * list path) : list path :=
  match entry.2 with
  | _ :: _ :: _ => drop 1 entry.2
  | _ => []
  end.

Definition duplicate_issue (entry : text * list path) : option issue :=
  match entry.2 with
  | first :: _ :: _ =>
      Some (Issue MEDIUM DUPLICATE_FILES first (DuplicateFilesFound entry.2))
  | _ => None
  end.

Lemma report_duplicate_files_spec (d : dict text path) (self : auditor) :
  report_duplicate_files d self =
  Auditor (issues self ++ omap duplicate_issue d)
    (redundant_files self ++ concat (redundant_of <$> d))
    (duplicate_functions self) (unused_files self).
Proof.
  revert self. induction d as [|[h fs] d IH]; intros self.
  - destruct self. cbn. by rewrite !app_nil_r.
  - cbn [report_duplicate_files]. destruct fs as [|first [|second fs]].
    + rewrite IH. done.
    + rewrite IH. done.
    + rewrite IH. cbn. by rewrite <- !app_assoc.
Qed.

Lemma filter_none {A} (P : A → Prop) `{∀ x, Decision (P x)} (l : list A) :
  Forall (λ x, ¬ P x) l → filter P l = [].
Proof.
  induction 1 as [|x l Hx _ IH]; [done|].
  by rewrite filter_cons, decide_False.
Qed.

Lemma group_digest (l : list path) (h : text) (f : path) :
  f ∈ group l h → digest f = Some h.
Proof. unfold group. by intros [? _]%list_elem_of_filter. Qed.

Lemma elem_of_concat {A} (ls : list (list A)) (x : A) :
  x ∈ concat ls ↔ ∃ l, x ∈ l ∧ l ∈ ls.
Proof.
  induction ls as [|l ls IH]; cbn.
  - split; [by intros ?%elem_of_nil|]. by intros (l & _ & ?%elem_of_nil).
  - rewrite elem_of_app, IH. split.
    + intros [H|(l' & H1 & H2)].
      * exists l. split; [done|by left].
      * exists l'. split; [done|by right].
    + intros (l' & H1 & [->|H2]%elem_of_cons); [by left|].
      right. by exists l'.
Qed.

Lemma elem_of_redundant (d : dict text path) (f : path) :
  f ∈ concat (redundant_of <$> d) ↔
  ∃ h first rest, (h, first :: rest) ∈ d ∧ f ∈ rest.
Proof.
  rewrite elem_of_concat. split.
  - intros (l & Hf & (e & -> & He)%list_elem_of_fmap).
    destruct e as [h [|first [|second fs]]]; cbn in Hf;
      try by apply elem_of_nil in Hf.
    by exists h, first, (second :: fs).
  - intros (h & first & rest & He & Hf).
    exists (redundant_of (h, first :: rest)). split.
    + destruct rest; [by apply elem_of_nil in Hf|done].
    + apply list_elem_of_fmap. by exists (h, first :: rest).
Qed.

(** The issues of the second loop that concern the digest [h]. *)
Definition about (h : text) (i : issue) : Prop :=
  issue_category i = DUPLICATE_FILES ∧ digest (issue_file i) = Some h.

Lemma filter_duplicate_issues (scanned : list path) (h : text)
  (d : dict text path) :
  (∀ h' fs, (h', fs) ∈ d → fs = group scanned h') →
  filter (about h) (omap duplicate_issue d) =
  omap duplicate_issue (filter (λ e, e.1 = h) d).
Proof.
  induction d as [|[h' fs] d IH]; intros Hd; [done|].
  assert (∀ h'' fs', (h'', fs') ∈ d → fs' = group scanned h'') as Hd'.
  { intros ???. apply Hd. by right. }
  specialize (IH Hd').
  assert (∀ f, f ∈ fs → digest f = Some h') as Hfs.
  { intros f Hf. rewrite (Hd h' fs) in Hf by left. by eapply group_digest. }
  rewrite (filter_cons (λ e : text * list path, e.1 = h)).
  cbn [omap list_omap fst].
  destruct (duplicate_issue (h', fs)) as [i|] eqn:Ei.
  - assert (issue_category i = DUPLICATE_FILES
            ∧ digest (issue_file i) = Some h') as [Hc Hdig].
    { unfold duplicate_issue in Ei. cbn in Ei.
      destruct fs as [|first [|second fs]]; simplify_eq. cbn.
      split; [done|]. apply Hfs. by left. }
    rewrite filter_cons.
    destruct (decide (h' = h)) as [->|Hne].
    + rewrite decide_True by done. cbn [omap list_omap]. rewrite Ei.
      by rewrite IH.
    + rewrite decide_False by (intros [_ ?]; congruence). by rewrite IH.
  - case_decide; cbn [omap list_omap]; rewrite ?Ei; by rewrite IH.
Qed.

Lemma filter_key (h : text) (fs : list path) (d : dict text path) :
  NoDup d.*1 → (h, fs) ∈ d → filter (λ e, e.1 = h) d = [(h, fs)].
Proof.
  induction d as [|[h' fs'] d IH]; [by intros _ ?%elem_of_nil|].
  cbn [fmap list_fmap fst].
  intros [Hh' Hnd]%NoDup_cons [[= <- <-]|Hin]%elem_of_cons.
  - rewrite (filter_cons (λ e : text * list path, e.1 = h)).
    rewrite decide_True by done. f_equal.
    apply filter_none, Forall_forall. intros [k vs] Hk ?. simplify_eq/=.
    apply Hh'. apply list_elem_of_fmap. by exists (h, vs).
  - rewrite (filter_cons (λ e : text * list path, e.1 = h)).
    rewrite decide_False; [by apply IH|].
    cbn. intros ->. apply Hh'. apply list_elem_of_fmap. by exists (h, fs).
Qed.

(** C7. For every digest shared by more than one scanned file, the first
    file in traversal order is kept: the other files of the group are in
    the list of redundant files, the first one is not, no other file with
    that digest is, and the duplicate-files issues that concern the group
    are exactly one issue, which names the first file and lists the whole
    group. *)
Theorem duplicate_group_reported (globbed : list path) (h : text)
  (first : path) (others : list path) :
  NoDup globbed →
  group (find_shell_files w globbed) h = first :: others →
  others ≠ [] →
  let a := find_duplicate_files md5 w globbed new_auditor in
  (∀ f, f ∈ others → f ∈ redundant_files a)
  ∧ (first ∉ redundant_files a)
  ∧ (∀ f, f ∈ redundant_files a → digest f = Some h → f ∈ others)
  ∧ filter (about h) (issues a) =
    [Issue MEDIUM DUPLICATE_FILES first
       (DuplicateFilesFound (first :: others))].
Proof.
  intros Hnd Hgroup Hothers a. subst a. unfold find_duplicate_files.
  set (scanned := find_shell_files w globbed) in *.
  destruct (hash_files_spec scanned [] new_auditor dict_wf_nil)
    as (extra & [Hkeys Hne] & Hget & Hself & Haccess).
  destruct (hash_files md5 w scanned [] new_auditor) as [d self1].
  cbn [fst snd] in *. subst self1.
  rewrite report_duplicate_files_spec.
  cbn [issues redundant_files app].
  assert (∀ h' fs, (h', fs) ∈ d → fs = group scanned h') as Hd.
  { intros h' fs Hin. by rewrite <- (dict_get_elem h' fs d), Hget. }
  assert ((h, first :: others) ∈ d) as Hin.
  { destruct (decide (h ∈ d.*1)) as [Hk|Hk].
    - apply list_elem_of_fmap in Hk as ([h' fs] & Hh & Hk).
      cbn in Hh. subst h'. by rewrite <- Hgroup, <- (Hd h fs Hk).
    - apply dict_get_absent in Hk. rewrite Hget, Hgroup in Hk. done. }
  assert (NoDup (first :: others)) as Hnd'.
  { rewrite <- Hgroup. apply NoDup_filter. by apply NoDup_filter. }
  assert (∀ f h' first' rest,
            (h', first' :: rest) ∈ d → f ∈ rest → digest f = Some h →
            h' = h ∧ first' = first ∧ rest = others) as Hsame.
  { intros f h' first' rest He Hf Hdig.
    pose proof (Hd _ _ He) as Hg.
    assert (digest f = Some h') as Hdig'.
    { apply (group_digest scanned). rewrite <- Hg. by right. }
    assert (h' = h) as -> by congruence.
    rewrite Hgroup in Hg. by simplify_eq. }
  split_and!.
  - intros f Hf. apply elem_of_redundant. by exists h, first, others.
  - intros (h' & first' & rest & He & Hf)%elem_of_redundant.
    destruct (Hsame first h' first' rest He Hf) as (-> & -> & ->).
    { apply (group_digest scanned). rewrite Hgroup. by left. }
    by apply NoDup_cons in Hnd' as [? _].
  - intros f (h' & first' & rest & He & Hf)%elem_of_redundant Hdig.
    by destruct (Hsame f h' first' rest He Hf Hdig) as (-> & -> & ->).
  - rewrite filter_app, (filter_none (about h) extra).
    + rewrite (filter_duplicate_issues scanned) by done.
      rewrite (filter_key h (first :: others)) by done.
      cbn. by destruct others.
    + eapply Forall_impl; [exact Haccess|].
      intros i Hi [Hc _]. unfold access_issue in Hi. congruence.
Qed.

End DuplicateFilesSpec.

(** Any function serves as the digest in [duplicate_group_reported]; the
    examples take the content itself. *)
Definition content_digest (data : text) : text := data.

(** Three copies of one script and a different one. *)
Definition three_copies : Sys.world :=
  Sys.World
    {[ py "a.sh" := py "echo x"; py "b.sh" := py "echo x";
       py "c.sh" := py "echo y"; py "d.sh" := py "echo x" ]}
    ∅ ∅ ∅.

Lemma duplicate_group_reported_witness :
  let globbed := [py "a.sh"; py "c.sh"; py "b.sh"; py "d.sh"] in
  let a := Audit.find_duplicate_files content_digest three_copies globbed
             Audit.new_auditor in
  group content_digest three_copies
    (Audit.find_shell_files three_copies globbed) (py "echo x")
  = [py "a.sh"; py "b.sh"; py "d.sh"]
  ∧ (∀ f, f ∈ [py "b.sh"; py "d.sh"] → f ∈ Audit.redundant_files a)
  ∧ (py "a.sh" ∉ Audit.redundant_files a)
  ∧ filter (about content_digest three_copies (py "echo x")) (Audit.issues a)
    = [Audit.Issue Audit.MEDIUM Audit.DUPLICATE_FILES (py "a.sh")
         (Audit.DuplicateFilesFound [py "a.sh"; py "b.sh"; py "d.sh"])].
Proof.
  intros globbed a.
  assert (group content_digest three_copies
            (Audit.find_shell_files three_copies globbed) (py "echo x")
          = [py "a.sh"; py "b.sh"; py "d.sh"]) as Hg.
  { vm_compute. reflexivity. }
  split; [exact Hg|].
  destruct (duplicate_group_reported content_digest three_copies globbed
              (py "echo x") (py "a.sh") [py "b.sh"; py "d.sh"])
    as (H1 & H2 & _ & H4).
  - apply (bool_decide_unpack _). vm_compute. exact I.
  - exact Hg.
  - discriminate.
  - exact (conj H1 (conj H2 H4)).
Defined.

(** ** Unused files *)

Section UnusedFiles.

Import Audit.

Variable w : Sys.world.

(** The test of the second loop of [check_unused_files]. *)
Definition flagged (all_content : text) (f : path) : Prop :=
  (path_name f ∉ skip_files)
  ∧ referenced all_content f = false
  ∧ (f ∉ Sys.executable w).

Lemma flag_unused_spec (all_content : text) (l : list path) (self : auditor) :
  flag_unused w all_content l self =
  Auditor
    (issues self
     ++ ((λ f, Issue MEDIUM UNUSED_FILE f AppearsUnused)
           <$> filter (flagged all_content) l))
    (redundant_files self) (duplicate_functions self)
    (unused_files self ++ filter (flagged all_content) l).
Proof.
  revert self. induction l as [|f l IH]; intros self.
  - destruct self. cbn. by rewrite !app_nil_r.
  - cbn [flag_unused]. rewrite !filter_cons.
    destruct (decide (flagged all_content f)) as [(H1 & H2 & H3)|Hn].
    + rewrite bool_decide_eq_false_2 by done. rewrite H2.
      rewrite bool_decide_eq_false_2 by done. rewrite IH. cbn.
      by rewrite <- !app_assoc.
    + case_bool_decide as Hskip; [apply IH|].
      destruct (referenced all_content f) eqn:Href; [apply IH|].
      case_bool_decide as Hx; [apply IH|].
      by destruct Hn.
Qed.

(** C8, amended. A scanned file is flagged as unused exactly when its name
    is not an entry point of the allow-list, none of the four reference
    patterns matches the corpus of the readable scanned files (the search
    ignores case: [source] followed on the same line by the file name or
    by the stem, a dot followed on the same line by the file name, or the
    stem followed by [.sh]), and the file is not executable; the issue is
    logged for the same files. *)
Theorem unused_file_flagged (globbed : list path) (f : path) :
  let scanned := find_shell_files w globbed in
  let a := check_unused_files w globbed new_auditor in
  (f ∈ unused_files a ↔
   f ∈ scanned
   ∧ (path_name f ∉ skip_files)
   ∧ referenced (build_corpus w scanned []) f = false
   ∧ (f ∉ Sys.executable w))
  ∧ (Issue MEDIUM UNUSED_FILE f AppearsUnused ∈ issues a ↔ f ∈ unused_files a).
Proof.
  intros scanned a. subst a. unfold check_unused_files.
  fold scanned. rewrite flag_unused_spec.
  change (unused_files new_auditor) with (@nil path).
  change (issues new_auditor) with (@nil issue).
  cbn [unused_files issues app].
  split.
  - rewrite list_elem_of_filter. unfold flagged. tauto.
  - rewrite list_elem_of_fmap. split.
    + by intros (g & [= ->] & Hg).
    + intros Hf. by exists f.
Qed.

End UnusedFiles.

(** A script that is mentioned in upper case only. *)
Definition upper_case_mention : Sys.world :=
  Sys.World {[ py "lib/foo.sh" := py "echo FOO.SH" ]} ∅ ∅ ∅.

(** C8, as stated, fails: the file is not an entry point, neither its name
    nor its stem is a substring of the corpus, it is not executable, and
    it is not flagged. *)
Lemma unused_file_counterexample :
  let f := py "lib/foo.sh" in
  let scanned := Audit.find_shell_files upper_case_mention [f] in
  let corpus := Audit.build_corpus upper_case_mention scanned [] in
  f ∈ scanned
  ∧ (Audit.path_name f ∉ Audit.skip_files)
  ∧ Str.contains (Audit.path_name f) corpus = false
  ∧ Str.contains (Audit.path_stem f) corpus = false
  ∧ (f ∉ Sys.executable upper_case_mention)
  ∧ Audit.unused_files
      (Audit.check_unused_files upper_case_mention [f] Audit.new_auditor)
    = [].
Proof.
  cbn zeta. split_and!.
  - vm_compute. left.
  - apply (bool_decide_unpack _). vm_compute. exact I.
  - vm_compute. reflexivity.
  - vm_compute. reflexivity.
  - apply not_elem_of_empty.
  - vm_compute. reflexivity.
Qed.

(** ** Complexity *)

(** ** Kinds of lines *)

Section LineKinds.

Import Str Audit.

(** The first character of a line that is not white space, if there is
    one. *)
Fixpoint first_visible (line : text) : option ascii :=
  match line with
  | [] => None
  | c :: line' => if isspace c then first_visible line' else Some c
  end.

(** A comment line: its first visible character is a hash sign. *)
Definition spec_comment_line (line : text) : bool :=
  match first_visible line with
  | Some c => Ascii.eqb c "#"
  | None => false
  end.

(** A line of code: it is not blank and its first visible character is
    not a hash sign. *)
Definition spec_code_line (line : text) : bool :=
  match first_visible line with
  | Some c => negb (Ascii.eqb c "#")
  | None => false
  end.

Lemma lstrip_app_visible (a : text) (b : ascii) (t : text) :
  isspace b = false → lstrip (a ++ b :: t) = lstrip a ++ b :: t.
Proof.
  intros Hb. induction a as [|c a IH]; cbn [app lstrip].
  - by rewrite Hb.
  - by destruct (isspace c).
Qed.

Lemma rstrip_visible (a : text) (b : ascii) (t : text) :
  isspace b = false → rstrip (a ++ b :: t) = a ++ b :: rstrip t.
Proof.
  intros Hb. unfold rstrip.
  rewrite rev_app_distr. cbn [rev]. rewrite <- app_assoc. cbn [app].
  rewrite lstrip_app_visible by done.
  rewrite rev_app_distr. cbn [rev]. rewrite rev_involutive.
  by rewrite <- app_assoc.
Qed.

(** A stripped line starts with the first visible character of the
    line. *)
Lemma strip_first_visible (line : text) :
  match first_visible line with
  | Some c => ∃ t, strip line = c :: t
  | None => strip line = []
  end.
Proof.
  unfold strip. induction line as [|c line IH]; [reflexivity|].
  cbn [first_visible lstrip]. destruct (isspace c) eqn:Hc; [exact IH|].
  exists (rstrip line). exact (rstrip_visible [] c line Hc).
Qed.

(** The two tests of [analyze_complexity] are those of the kinds of
    lines. *)
Lemma is_comment_spec (line : text) :
  is_comment line = spec_comment_line line.
Proof.
  unfold is_comment, spec_comment_line.
  pose proof (strip_first_visible line) as H.
  destruct (first_visible line) as [c|].
  - destruct H as [t ->]. change (py "#") with ["#"%char].
    cbn [startswith]. by rewrite andb_true_r, Ascii.eqb_sym.
  - by rewrite H.
Qed.

Lemma is_code_spec (line : text) : is_code line = spec_code_line line.
Proof.
  unfold is_code. rewrite is_comment_spec.
  unfold spec_code_line, spec_comment_line.
  pose proof (strip_first_visible line) as H.
  destruct (first_visible line) as [c|].
  - destruct H as [t ->]. by rewrite bool_decide_eq_false_2.
  - rewrite H. by rewrite bool_decide_eq_true_2.
Qed.

Lemma count_lines_ext (p q : text → bool) (lines : list text) :
  (∀ l, p l = q l) → count_lines p lines = count_lines q lines.
Proof.
  intros Hpq. unfold count_lines.
  induction lines as [|l ls IH]; [done|].
  rewrite (filter_cons (λ l, p l = true)), (filter_cons (λ l, q l = true)).
  pose proof (Hpq l) as Hl.
  destruct (decide (p l = true)), (decide (q l = true));
    cbn [length]; congruence.
Qed.

End LineKinds.

Section Complexity.

Import Audit.

Variable w : Sys.world.

(** The issues that [analyze_lines] logs for one file. *)
Definition complexity_issues (f : path) (lines : list text) : list issue :=
  let total_lines := length lines in
  let code_lines := count_lines is_code lines in
  let comment_lines := count_lines is_comment lines in
  (if 300 <? code_lines
   then [Issue HIGH COMPLEX_FILE f (HighComplexity code_lines)]
   else if 200 <? code_lines
   then [Issue MEDIUM COMPLEX_FILE f (MediumComplexity code_lines)]
   else [])
  ++ (if (50 <? total_lines) && ratio_below_tenth comment_lines total_lines
      then [Issue LOW LOW_DOCUMENTATION f
              (LowCommentRatio comment_lines total_lines)]
      else []).

Definition file_issues (f : path) : list issue :=
  match read w f with
  | Some content => complexity_issues f (readlines content)
  | None => [Issue LOW FILE_ACCESS f CannotAnalyzeComplexity]
  end.

Lemma analyze_lines_spec (self : auditor) (f : path) (lines : list text) :
  analyze_lines self f lines =
  Auditor (issues self ++ complexity_issues f lines) (redundant_files self)
    (duplicate_functions self) (unused_files self).
Proof.
  unfold analyze_lines, complexity_issues, log_issue.
  destruct self as [i r d u]. cbn [issues redundant_files
    duplicate_functions unused_files].
  repeat case_match; cbn [issues redundant_files duplicate_functions
    unused_files]; rewrite ?app_nil_r, <- ?app_assoc; reflexivity.
Qed.

Lemma analyze_files_spec (l : list path) (self : auditor) :
  analyze_files w l self =
  Auditor (issues self ++ concat (file_issues <$> l)) (redundant_files self)
    (duplicate_functions self) (unused_files self).
Proof.
  revert self. induction l as [|f l IH]; intros self.
  - destruct self. cbn. by rewrite app_nil_r.
  - cbn [analyze_files].
    rewrite fmap_cons, concat_cons. unfold file_issues at 1.
    destruct (read w f) as [content|].
    + rewrite IH, analyze_lines_spec. cbn. by rewrite <- app_assoc.
    + rewrite IH. cbn. by rewrite <- app_assoc.
Qed.

Lemma file_issues_file (f : path) (i : issue) :
  i ∈ file_issues f → issue_file i = f.
Proof.
  unfold file_issues, complexity_issues.
  destruct (read w f) as [content|].
  - rewrite elem_of_app. intros [Hi|Hi]; repeat case_match;
      first [by apply elem_of_nil in Hi
            |by apply list_elem_of_singleton in Hi as ->].
  - by intros ->%list_elem_of_singleton.
Qed.

(** The issues logged for a scanned file are those of its own lines. *)
Lemma analyze_complexity_file (globbed : list path) (f : path) (i : issue) :
  f ∈ find_shell_files w globbed →
  issue_file i = f →
  i ∈ issues (analyze_complexity w globbed new_auditor) ↔ i ∈ file_issues f.
Proof.
  intros Hf Hi. unfold analyze_complexity. rewrite analyze_files_spec.
  change (issues new_auditor) with (@nil issue).
  cbn [issues app]. rewrite elem_of_concat. split.
  - intros (l & Hl & (g & -> & Hg)%list_elem_of_fmap).
    apply file_issues_file in Hl as Hfile. by simplify_eq.
  - intros H. exists (file_issues f). split; [done|].
    by apply list_elem_of_fmap_2.
Qed.

(** An issue of severity [sev] and category [cat] is logged for [f]. *)
Definition has_issue (a : auditor) (sev : severity) (cat : category)
  (f : path) : Prop :=
  ∃ d, Issue sev cat f d ∈ issues a.

(** C9. For a scanned file that can be read, with [code] lines that are
    neither blank nor comments (they have a visible character, and the
    first one is not a hash sign), [comments] comment lines (their first
    visible character is a hash sign) and [total] lines: a HIGH complexity
    issue is logged exactly when [code] exceeds 300, a MEDIUM one exactly
    when [code] exceeds 200 without exceeding 300, none of any severity
    when [code] is at most 200, and a LOW_DOCUMENTATION issue exactly when
    [total] exceeds 50 and the ratio of [comments] to [total] is below one
    tenth. *)
Theorem complexity_thresholds (globbed : list path) (f : path)
  (content : text) :
  f ∈ find_shell_files w globbed →
  read w f = Some content →
  let a := analyze_complexity w globbed new_auditor in
  let total := length (readlines content) in
  let code := count_lines spec_code_line (readlines content) in
  let comments := count_lines spec_comment_line (readlines content) in
  (has_issue a HIGH COMPLEX_FILE f ↔ 300 < code)
  ∧ (has_issue a MEDIUM COMPLEX_FILE f ↔ 200 < code ≤ 300)
  ∧ (has_issue a LOW COMPLEX_FILE f ↔ False)
  ∧ ((∀ sev, ¬ has_issue a sev COMPLEX_FILE f) ↔ code ≤ 200)
  ∧ (has_issue a LOW LOW_DOCUMENTATION f ↔
     50 < total ∧ 10 * comments < total).
Proof.
  intros Hf Hread a total code comments.
  assert (∀ sev cat, has_issue a sev cat f ↔
            ∃ d, Issue sev cat f d ∈ complexity_issues f (readlines content))
    as Hiff.
  { intros sev cat. unfold has_issue. apply exist_proper. intros d.
    subst a. rewrite (analyze_complexity_file globbed f) by done.
    unfold file_issues. by rewrite Hread. }
  assert (∀ sev cat,
            (∃ d, Issue sev cat f d ∈ complexity_issues f (readlines content))
            ↔ (sev = HIGH ∧ cat = COMPLEX_FILE ∧ 300 < code)
              ∨ (sev = MEDIUM ∧ cat = COMPLEX_FILE ∧ 200 < code ≤ 300)
              ∨ (sev = LOW ∧ cat = LOW_DOCUMENTATION
                 ∧ 50 < total ∧ 10 * comments < total)) as Hcases.
  { intros sev cat. unfold complexity_issues, ratio_below_tenth.
    rewrite (count_lines_ext is_code spec_code_line) by apply is_code_spec.
    rewrite (count_lines_ext is_comment spec_comment_line)
      by apply is_comment_spec.
    fold total code comments.
    destruct (Nat.ltb_spec 300 code); [|destruct (Nat.ltb_spec 200 code)];
      (destruct (Nat.ltb_spec 50 total);
       [destruct (Nat.ltb_spec (10 * comments) total)|]); cbn [andb app];
      (split;
       [intros [d Hd]; rewrite ?elem_of_cons, ?elem_of_nil in Hd;
        destruct_or?; simplify_eq; try done;
        first [left; split_and!; (done || lia)
              |right; left; split_and!; (done || lia)
              |right; right; split_and!; (done || lia)]
       |intros [(-> & -> & ?)|[(-> & -> & ?)|(-> & -> & ?)]];
        try lia; eexists; rewrite ?elem_of_cons; eauto]). }
  split_and!.
  - rewrite Hiff, Hcases. split; [|by auto].
    intros [(_ & _ & ?)|[(? & _)|(? & _)]]; done.
  - rewrite Hiff, Hcases. split; [|by auto].
    intros [(? & _)|[(_ & _ & ?)|(_ & ? & _)]]; done.
  - rewrite Hiff, Hcases.
    split; [|done]. intros [(? & _)|[(? & _)|(_ & ? & _)]]; done.
  - split.
    + intros Hnone. destruct (decide (code ≤ 200)) as [|Hgt]; [done|].
      destruct (decide (300 < code)).
      * destruct (Hnone HIGH). apply Hiff, Hcases. auto.
      * destruct (Hnone MEDIUM). apply Hiff, Hcases. right. left.
        split_and!; try done; lia.
    + intros Hle sev [(_ & _ & ?)|[(_ & _ & ?)|(_ & ? & _)]]%Hiff%Hcases;
        try lia. done.
  - rewrite Hiff, Hcases. split; [|by auto].
    intros [(? & _)|[(? & _)|(_ & _ & ?)]]; done.
Qed.

End Complexity.

(** A script of [n] lines of code. *)
Definition code_lines_script (n : nat) : text :=
  concat (replicate n (py "echo x" ++ [Str.nl])).

Definition three_sizes : Sys.world :=
  Sys.World
    {[ py "big.sh" := code_lines_script 301;
       py "mid.sh" := code_lines_script 250;
       py "small.sh" := code_lines_script 150 ]}
    ∅ ∅ ∅.

(** The scenario of the audit of large files: 301, 250 and 150 lines. *)
Example three_sizes_issues :
  Audit.issues
    (Audit.analyze_complexity three_sizes
       [py "big.sh"; py "mid.sh"; py "small.sh"] Audit.new_auditor)
  = [ Audit.Issue Audit.HIGH Audit.COMPLEX_FILE (py "big.sh")
        (Audit.HighComplexity 301);
      Audit.Issue Audit.LOW Audit.LOW_DOCUMENTATION (py "big.sh")
        (Audit.LowCommentRatio 0 301);
      Audit.Issue Audit.MEDIUM Audit.COMPLEX_FILE (py "mid.sh")
        (Audit.MediumComplexity 250);
      Audit.Issue Audit.LOW Audit.LOW_DOCUMENTATION (py "mid.sh")
        (Audit.LowCommentRatio 0 250);
      Audit.Issue Audit.LOW Audit.LOW_DOCUMENTATION (py "small.sh")
        (Audit.LowCommentRatio 0 150) ].
Proof. vm_compute. reflexivity. Qed.

(** A script of [n] lines of code, [c] indented comment lines and [b]
    lines of white space. *)
Definition mixed_script (n c b : nat) : text :=
  concat (replicate n (py "echo x" ++ [Str.nl]))
  ++ concat (replicate c (py "  # note" ++ [Str.nl]))
  ++ concat (replicate b (py "   " ++ [Str.nl])).

(** A long script with few comments beside a file of notes. *)
Definition code_and_notes : Sys.world :=
  Sys.World
    {[ py "big.sh" := mixed_script 301 20 10;
       py "notes.sh" := mixed_script 5 301 4 ]}
    ∅ ∅ ∅.

Lemma complexity_thresholds_witness :
  let globbed := [py "big.sh"; py "notes.sh"] in
  let a := Audit.analyze_complexity code_and_notes globbed Audit.new_auditor in
  (has_issue a Audit.HIGH Audit.COMPLEX_FILE (py "big.sh")
   ∧ has_issue a Audit.LOW Audit.LOW_DOCUMENTATION (py "big.sh"))
  ∧ ((∀ sev, ¬ has_issue a sev Audit.COMPLEX_FILE (py "notes.sh"))
     ∧ ¬ has_issue a Audit.LOW Audit.LOW_DOCUMENTATION (py "notes.sh")).
Proof.
  intros globbed a. split.
  - destruct (complexity_thresholds code_and_notes globbed (py "big.sh")
                (mixed_script 301 20 10)) as (H1 & _ & _ & _ & H5).
    + vm_compute. left.
    + vm_compute. reflexivity.
    + split.
      * apply H1. vm_compute. lia.
      * apply H5. vm_compute. lia.
  - destruct (complexity_thresholds code_and_notes globbed (py "notes.sh")
                (mixed_script 5 301 4)) as (_ & _ & _ & H4 & H5).
    + vm_compute. right. left.
    + vm_compute. reflexivity.
    + split.
      * apply H4. vm_compute. lia.
      * intros H%H5. vm_compute in H. lia.
Defined.

(** ** Duplicate functions *)

Section DuplicateFunctions.

Import Audit.

Variable w : Sys.world.

(** The names that [findall] reports for a file. *)
Definition functions_of (f : path) : list text :=
  match read w f with
  | Some content => Re.findall function_pattern content
  | None => []
  end.

(** How often the header of [name] occurs in [f]. *)
Definition occurrences (name : text) (f : path) : nat :=
  length (filter (λ n, n = name) (functions_of f)).

Lemma dict_get_present {V} (k : text) (d : dict text V) :
  dict_get k d ≠ [] → (k, dict_get k d) ∈ d.
Proof.
  induction d as [|[k' vs] d IH]; [done|]. cbn [dict_get].
  case_decide as Hk.
  - subst. intros _. by left.
  - intros H. right. by apply IH.
Qed.

Lemma register_functions_get (name : text) (fns : list text) (f : path)
  (d : dict text path) :
  dict_get name (register_functions fns f d) =
  dict_get name d ++ replicate (length (filter (λ n, n = name) fns)) f.
Proof.
  revert d. induction fns as [|n fns IH]; intros d.
  - cbn. by rewrite app_nil_r.
  - cbn [register_functions]. rewrite IH, dict_get_append, filter_cons.
    destruct (decide (name = n)) as [->|Hne].
    + rewrite decide_True by done. cbn. by rewrite <- app_assoc.
    + by rewrite decide_False by done.
Qed.

Lemma scan_functions_spec (name : text) (l : list path) (self : auditor) :
  dict_get name (duplicate_functions (scan_functions w l self)) =
  dict_get name (duplicate_functions self)
  ++ concat ((λ f, replicate (occurrences name f) f) <$> l).
Proof.
  revert self. induction l as [|f l IH]; intros self.
  - cbn. by rewrite app_nil_r.
  - cbn [scan_functions]. rewrite fmap_cons, concat_cons.
    unfold occurrences at 1, functions_of.
    destruct (read w f) as [content|].
    + rewrite IH. cbn [duplicate_functions set_duplicate_functions].
      by rewrite register_functions_get, <- app_assoc.
    + rewrite IH. done.
Qed.

Definition function_issue (entry : text * list path) : option issue :=
  match entry.2 with
  | first :: _ :: _ =>
      Some (Issue MEDIUM DUPLICATE_FUNCTION first
              (DefinedInMultipleFiles entry.1 entry.2))
  | _ => None
  end.

Lemma report_duplicate_functions_spec (d : dict text path) (self : auditor) :
  issues (report_duplicate_functions d self) =
  issues self ++ omap function_issue d.
Proof.
  revert self. induction d as [|[name fs] d IH]; intros self.
  - cbn. by rewrite app_nil_r.
  - cbn [report_duplicate_functions]. destruct fs as [|first [|second fs]].
    + by rewrite IH.
    + by rewrite IH.
    + rewrite IH. cbn. by rewrite <- app_assoc.
Qed.

(** The files of the other scanned files do not define [name]. *)
Lemma only_one_file (name : text) (f : path) (l : list path) :
  NoDup l → f ∈ l →
  (∀ g, g ∈ l → g ≠ f → occurrences name g = 0) →
  concat ((λ g, replicate (occurrences name g) g) <$> l)
  = replicate (occurrences name f) f.
Proof.
  induction l as [|g l IH]; [by intros _ ?%elem_of_nil|].
  intros [Hg Hnd]%NoDup_cons Hin Hzero.
  rewrite fmap_cons, concat_cons.
  assert (∀ l', (∀ g', g' ∈ l' → occurrences name g' = 0) →
                concat ((λ g', replicate (occurrences name g') g') <$> l')
                = []) as Hnone.
  { induction l' as [|x l' IH']; intros Hz; [done|].
    rewrite fmap_cons, concat_cons, Hz by left. cbn. apply IH'.
    intros ??. apply Hz. by right. }
  apply elem_of_cons in Hin as [->|Hin].
  - rewrite Hnone, app_nil_r; [done|].
    intros g' Hg'. apply Hzero; [by right|]. by intros ->.
  - rewrite (Hzero g) by (by left || by intros ->). cbn. apply IH; try done.
    intros g' Hg' Hne. apply Hzero; [by right|done].
Qed.

(** C10. The registry holds one entry per header occurrence: when the
    header of a name occurs twice or more in one scanned file, and in no
    other scanned file, an issue is logged that reports the function as
    defined in multiple files and lists that one file once per
    occurrence. *)
Theorem duplicate_within_one_file (globbed : list path) (f : path)
  (name : text) :
  NoDup globbed →
  f ∈ find_shell_files w globbed →
  2 ≤ occurrences name f →
  (∀ g, g ∈ find_shell_files w globbed → g ≠ f → occurrences name g = 0) →
  Issue MEDIUM DUPLICATE_FUNCTION f
    (DefinedInMultipleFiles name (replicate (occurrences name f) f))
  ∈ issues (find_duplicate_functions w globbed new_auditor).
Proof.
  intros Hnd Hf Htwice Hothers. unfold find_duplicate_functions.
  rewrite report_duplicate_functions_spec. apply elem_of_app. right.
  pose proof (scan_functions_spec name (find_shell_files w globbed)
                new_auditor) as Hget.
  rewrite (only_one_file name f) in Hget by (by try apply NoDup_filter).
  cbn [duplicate_functions new_auditor dict_get app] in Hget.
  apply list_elem_of_omap.
  exists (name, replicate (occurrences name f) f). split.
  - rewrite <- Hget. apply dict_get_present. rewrite Hget.
    destruct (occurrences name f); [lia|done].
  - unfold function_issue. cbn [fst snd].
    destruct (occurrences name f) as [|[|n]]; [lia..|done].
Qed.

End DuplicateFunctions.

(** A script that defines [foo] twice. *)
Definition defines_foo_twice : Sys.world :=
  Sys.World
    {[ py "a.sh" :=
         Str.join_nl [ py "foo() {"; py "}"; py "foo() {"; py "}"; [] ] ]}
    ∅ ∅ ∅.

Lemma duplicate_within_one_file_witness :
  Audit.issues
    (Audit.find_duplicate_functions defines_foo_twice [py "a.sh"]
       Audit.new_auditor)
  = [ Audit.Issue Audit.MEDIUM Audit.DUPLICATE_FUNCTION (py "a.sh")
        (Audit.DefinedInMultipleFiles (py "foo") [py "a.sh"; py "a.sh"]) ]
  ∧ Audit.Issue Audit.MEDIUM Audit.DUPLICATE_FUNCTION (py "a.sh")
      (Audit.DefinedInMultipleFiles (py "foo")
         (replicate (occurrences defines_foo_twice (py "foo") (py "a.sh"))
            (py "a.sh")))
    ∈ Audit.issues
        (Audit.find_duplicate_functions defines_foo_twice [py "a.sh"]
           Audit.new_auditor).
Proof.
  split; [vm_compute; reflexivity|].
  apply (duplicate_within_one_file defines_foo_twice [py "a.sh"]).
  - apply (bool_decide_unpack _). vm_compute. exact I.
  - vm_compute. left.
  - vm_compute. lia.
  - intros g Hg Hne. vm_compute in Hg.
    apply list_elem_of_singleton in Hg. contradiction.
Defined.

(** * Further properties of the tools *)

(** ** Literals of a pattern *)

Section Literals.

Import Re.

(** Whenever [f] matches, [g] matches a suffix of the text with the same
    result. *)
Definition passes_to (f g : matcher) : Prop :=
  ∀ k prev s m,
    f k prev s = Some m →
    ∃ k' prev' used s', s = used ++ s' ∧ g k' prev' s' = Some m.

Lemma passes_to_refl (f : matcher) : passes_to f f.
Proof. intros k prev s m H. by exists k, prev, [], s. Qed.

Lemma passes_to_cons (f g : matcher) (c : ascii) (k : cap)
  (prev : option ascii) (s : text) (m : found) :
  passes_to f g →
  f k prev s = Some m →
  ∃ k' prev' used s', c :: s = used ++ s' ∧ g k' prev' s' = Some m.
Proof.
  intros Hf Hm. destruct (Hf _ _ _ _ Hm) as (k' & prev' & used & s' & -> & H).
  by exists k', prev', (c :: used), s'.
Qed.

Lemma passes_to_star (p : ascii → bool) (cont g : matcher) :
  passes_to cont g → passes_to (star p cont) g.
Proof.
  intros Hc k prev s. revert k prev.
  induction s as [|c s IH]; intros k prev m; simpl.
  - apply Hc.
  - destruct (p c); [|apply Hc].
    destruct (star p cont (push k c) (Some c) s) as [m'|] eqn:E.
    + intros [= <-]. destruct (IH _ _ _ E) as (k' & prev' & u & s' & -> & H).
      by exists k', prev', (c :: u), s'.
    + apply Hc.
Qed.

Lemma passes_to_star_lazy (p : ascii → bool) (cont g : matcher) :
  passes_to cont g → passes_to (star_lazy p cont) g.
Proof.
  intros Hc k prev s. revert k prev.
  induction s as [|c s IH]; intros k prev m; simpl.
  - destruct (cont k prev []) as [m'|] eqn:E; [|done].
    intros [= <-]. by apply Hc in E.
  - destruct (cont k prev (c :: s)) as [m'|] eqn:E.
    + intros [= <-]. by apply Hc in E.
    + destruct (p c); [|done]. intros H.
      destruct (IH _ _ _ H) as (k' & prev' & u & s' & -> & H').
      by exists k', prev', (c :: u), s'.
Qed.

(** A match of [r1 ++ r2] ends with a match of [r2]. *)
Lemma rmatch_app (r1 r2 : regex) : passes_to (rmatch (r1 ++ r2)) (rmatch r2).
Proof.
  induction r1 as [|a r1 IH]; [apply passes_to_refl|].
  destruct a; cbn [app rmatch].
  - intros k prev [|c s] m; [done|]. destruct (p c); [|done].
    intros H. by eapply passes_to_cons.
  - by apply passes_to_star.
  - by apply passes_to_star_lazy.
  - intros k [c|] s m; [done|]. apply IH.
  - intros k prev s m. destruct (at_bol prev); [|done]. apply IH.
  - intros k prev s m. destruct (at_eol s); [|done]. apply IH.
  - intros k prev s m. apply IH.
  - intros k prev s m. destruct k; apply IH.
Qed.

(** A literal matches only itself. *)
Lemma rmatch_lit (l : text) (r : regex) (k : cap) (prev : option ascii)
  (s : text) (m : found) :
  rmatch (lit l ++ r) k prev s = Some m → l `prefix_of` s.
Proof.
  revert k prev s. induction l as [|c l IH]; intros k prev s.
  - intros _. apply prefix_nil.
  - cbn [lit map app rmatch]. destruct s as [|x s]; [done|].
    unfold eqc. destruct (Ascii.eqb_spec c x) as [->|]; [|done].
    intros H. apply prefix_cons. by eapply IH.
Qed.

(** The text a pattern matches holds each literal of the pattern. *)
Lemma rmatch_literal (r1 r2 : regex) (l : text) (k : cap)
  (prev : option ascii) (s : text) (m : found) :
  rmatch (r1 ++ lit l ++ r2) k prev s = Some m → Str.infix l s.
Proof.
  intros H.
  destruct (rmatch_app _ _ _ _ _ _ H) as (k' & prev' & u & s' & -> & H').
  apply rmatch_lit in H' as [b ->]. by exists u, b.
Qed.

(** Without a match at any position, a substitution changes nothing. *)
Lemma sub_from_no_match (r : regex) (repl : text) (prev : option ascii)
  (s : text) :
  (∀ a b prev', s = a ++ b → rmatch r NoCap prev' b = None) →
  sub_from r repl 0 prev s = s.
Proof.
  revert prev. induction s as [|c s IH]; intros prev Hno; [done|].
  cbn [sub_from]. rewrite (Hno [] (c :: s)) by done.
  f_equal. apply IH. intros a b prev' ->. by apply (Hno (c :: a)).
Qed.

Lemma sub_without_literal (r1 r2 : regex) (l repl s : text) :
  ¬ Str.infix l s → sub (r1 ++ lit l ++ r2) repl s = s.
Proof.
  intros Hno. apply sub_from_no_match. intros a b prev' ->.
  destruct (rmatch _ NoCap prev' b) as [m|] eqn:E; [|done].
  destruct Hno. apply infix_app_l. by eapply rmatch_literal.
Qed.

End Literals.

(** ** The migrator on every file and every world *)

Section MigratorOutcome.

Import Str Migrate.



(** What the handler of [migrate_file] does to the files. *)
Definition restore (p : path) (m : gmap path text) : gmap path text :=
  match m !! backup_of p with
  | Some data => <[p := data]> (delete (backup_of p) m)
  | None => m
  end.

(** The files, the status line and the result of [migrate_file]. *)
Definition migrate_result (w : Sys.world) (p : path)
  : gmap path text * Sys.event * bool :=
  match Audit.read w p with
  | None => (restore p (Sys.files w), Sys.ErrorMigrating p, false)
  | Some c =>
      match Sys.write_fault w !! backup_of p with
      | Some flt =>
          (restore p (failed_write flt (backup_of p) c (Sys.files w)),
           Sys.ErrorMigrating p, false)
      | None =>
          let m1 := <[backup_of p := c]> (Sys.files w) in
          let new_content := Re.sub old_pattern NEW_BOOTSTRAP_PATTERN c in
          if decide (new_content = c) then
            (delete (backup_of p) m1, Sys.NoChangesMade p, false)
          else
            match Sys.write_fault w !! p with
            | Some flt =>
                (restore p (failed_write flt p new_content m1),
                 Sys.ErrorMigrating p, false)
            | None =>
                (delete (backup_of p) (<[p := new_content]> m1),
                 Sys.SuccessfullyMigrated p, true)
            end
      end
  end.

Lemma read_fails (p : path) (st : Sys.state) :
  Audit.read (Sys.fs st) p = None → Sys.read_text p st = (st, Sys.Raise).
Proof.
  unfold Audit.read, Sys.read_text, mbind, Sys.M_bind, Sys.get_world.
  destruct (Sys.files (Sys.fs st) !! p); [|done]. by case_bool_decide.
Qed.

Lemma read_succeeds (p : path) (st : Sys.state) (c : text) :
  Audit.read (Sys.fs st) p = Some c → Sys.read_text p st = (st, Sys.Return c).
Proof.
  unfold Audit.read, Sys.read_text, mbind, Sys.M_bind, Sys.get_world.
  destruct (Sys.files (Sys.fs st) !! p); [|done].
  case_bool_decide; [done|]. by intros [= ->].
Qed.

(** The handler, run in a state whose files are [m]. *)
Lemma handler_run (p : path) (st : Sys.state) :
  (Sys.print (Sys.ErrorMigrating p);;
   backup_exists ← Sys.path_exists (backup_of p);
   (if backup_exists : bool
    then Sys.move (backup_of p) p else mret ());;
   mret false) st
  = (after st (restore p (Sys.files (Sys.fs st))) [Sys.ErrorMigrating p],
     Sys.Return false).
Proof.
  rewrite (bind_return _ _ _ _ _ (print_run _ _)).
  rewrite (bind_return _ _ _ _ _ (exists_run _ _)).
  rewrite after_files. unfold restore.
  destruct (Sys.files (Sys.fs st) !! backup_of p) as [data|] eqn:E.
  - rewrite bool_decide_eq_true_2 by eauto.
    erewrite bind_return by (by eapply move_run).
    unfold mret, Sys.M_ret. by rewrite after_after, after_files.
  - rewrite bool_decide_eq_false_2 by (by intros [? ?]).
    unfold mret, Sys.M_ret, mbind, Sys.M_bind. done.
Qed.

Lemma migrate_file_result (p : path) (st : Sys.state) :
  migrate_file p st =
  (after st (migrate_result (Sys.fs st) p).1.1
     [Sys.Migrating p; (migrate_result (Sys.fs st) p).1.2],
   Sys.Return (migrate_result (Sys.fs st) p).2).
Proof.
  unfold migrate_file, migrate_result.
  rewrite (bind_return _ _ _ _ _ (print_run _ _)).
  set (st0 := after st (Sys.files (Sys.fs st)) [Sys.Migrating p]).
  assert (Sys.fs st0 = Sys.fs st) as Hfs by (by destruct st as [[] ?]).
  assert (∀ m e, after st0 m e = after st m (Sys.Migrating p :: e)) as Hafter.
  { intros m e. unfold st0. by rewrite after_after. }
  destruct (Audit.read (Sys.fs st) p) as [c|] eqn:Hread.
  - destruct (Sys.write_fault (Sys.fs st) !! backup_of p) as [flt|] eqn:Hwb.
    + erewrite try_raise.
      2:{ erewrite bind_return by (apply read_succeeds; by rewrite Hfs).
          unfold Sys.copy2.
          erewrite bind_raise; [reflexivity|].
          erewrite bind_return by (apply read_succeeds; by rewrite Hfs).
          apply write_fails. by rewrite Hfs. }
      rewrite handler_run, after_after, after_files, Hfs, Hafter. done.
    + set (new_content := Re.sub old_pattern NEW_BOOTSTRAP_PATTERN c).
      assert (∀ k : text → Sys.M bool,
                (content ← Sys.read_text p;
                 Sys.copy2 p (backup_of p);; k content) st0
                = k c (after st0 (<[backup_of p := c]> (Sys.files (Sys.fs st)))
                         [])) as Hstart.
      { intros k.
        erewrite bind_return by (apply read_succeeds; by rewrite Hfs).
        unfold Sys.copy2.
        erewrite bind_return; [reflexivity|].
        erewrite bind_return by (apply read_succeeds; by rewrite Hfs).
        rewrite write_run by (by rewrite Hfs). by rewrite Hfs. }
      cbn zeta. destruct (decide (new_content = c)) as [Heq|Hne].
      * apply try_return. rewrite Hstart. fold new_content.
        rewrite bool_decide_eq_true_2 by done.
        rewrite (bind_return _ _ _ _ _ (print_run _ _)).
        erewrite bind_return.
        2:{ apply remove_run. rewrite !after_files, lookup_insert_eq. eauto. }
        unfold mret, Sys.M_ret.
        by rewrite !after_after, !after_files, Hafter.
      * destruct (Sys.write_fault (Sys.fs st) !! p) as [flt|] eqn:Hwp.
        -- erewrite try_raise.
           2:{ rewrite Hstart. fold new_content.
               rewrite bool_decide_eq_false_2 by done.
               erewrite bind_raise; [reflexivity|].
               apply write_fails. by rewrite after_write_fault, Hfs. }
           rewrite handler_run, !after_after, !after_files, Hafter. done.
        -- apply try_return. rewrite Hstart. fold new_content.
           rewrite bool_decide_eq_false_2 by done.
           erewrite bind_return
             by (apply write_run; by rewrite after_write_fault, Hfs).
           rewrite (bind_return _ _ _ _ _ (print_run _ _)).
           erewrite bind_return.
           2:{ apply remove_run. rewrite !after_files.
               rewrite lookup_insert_ne by (symmetry; apply backup_ne).
               rewrite lookup_insert_eq. eauto. }
           unfold mret, Sys.M_ret.
           by rewrite !after_after, !after_files, Hafter.
  - erewrite try_raise.
    2:{ erewrite bind_raise; [reflexivity|].
        apply read_fails. by rewrite Hfs. }
    rewrite handler_run, Hfs, Hafter. done.
Qed.

End MigratorOutcome.

Section MigratorProperties.

Import Str Migrate.

Lemma restore_backup (p : path) (m : gmap path text) :
  restore p m !! backup_of p = None.
Proof.
  unfold restore. destruct (m !! backup_of p) as [d|] eqn:E; [|done].
  rewrite lookup_insert_ne by (symmetry; apply backup_ne).
  apply lookup_delete_eq.
Qed.

Lemma restore_other (p q : path) (m : gmap path text) :
  q ≠ p → q ≠ backup_of p → restore p m !! q = m !! q.
Proof.
  intros Hp Hb. unfold restore. destruct (m !! backup_of p) as [d|]; [|done].
  by rewrite lookup_insert_ne, lookup_delete_ne.
Qed.

Lemma failed_write_other (flt : Sys.fault) (p q : path) (data : text)
  (m : gmap path text) :
  q ≠ p → failed_write flt p data m !! q = m !! q.
Proof. intros Hq. destruct flt; cbn; [done|]. by rewrite lookup_insert_ne. Qed.

(** X2. In the file system of this development, where reading and
    writing a file can fail while a status line can always be printed and
    an existing file can always be removed or moved: whatever the path and
    whatever the read and write faults, [migrate_file] returns a truth
    value, no backup file of the path is left, no file other than the path
    and its backup is touched, and the readable, writable and executable
    sets are as before. *)
Theorem migrate_file_contained (p : path) (st : Sys.state) :
  let st' := (migrate_file p st).1 in
  (∃ ok, (migrate_file p st).2 = Sys.Return ok)
  ∧ Sys.files (Sys.fs st') !! backup_of p = None
  ∧ (∀ q, q ≠ p → q ≠ backup_of p →
          Sys.files (Sys.fs st') !! q = Sys.files (Sys.fs st) !! q)
  ∧ Sys.unreadable (Sys.fs st') = Sys.unreadable (Sys.fs st)
  ∧ Sys.write_fault (Sys.fs st') = Sys.write_fault (Sys.fs st)
  ∧ Sys.executable (Sys.fs st') = Sys.executable (Sys.fs st).
Proof.
  rewrite migrate_file_result. cbn [fst snd]. rewrite after_files.
  split_and!; [by eexists| | |done..].
  - unfold migrate_result. repeat case_match; cbn [fst snd];
      first [apply restore_backup | apply lookup_delete_eq].
  - intros q Hp Hb. unfold migrate_result.
    repeat case_match; cbn [fst snd];
      rewrite ?restore_other, ?failed_write_other, ?lookup_delete_ne,
        ?lookup_insert_ne by done; done.
Qed.

(** X3. In the same file system (the status lines can be printed and the
    backup can be removed), [migrate_file] returns [True] exactly when the
    file can be read, the backup can be written, the substitution changes
    the content and the write-back succeeds; the file then holds the
    substituted content and the success line is printed. *)
Theorem migrate_file_true (p : path) (st : Sys.state) :
  let st' := (migrate_file p st).1 in
  ((migrate_file p st).2 = Sys.Return true ↔
   ∃ c, Audit.read (Sys.fs st) p = Some c
        ∧ Sys.write_fault (Sys.fs st) !! backup_of p = None
        ∧ Sys.write_fault (Sys.fs st) !! p = None
        ∧ Re.sub old_pattern NEW_BOOTSTRAP_PATTERN c ≠ c)
  ∧ ((migrate_file p st).2 = Sys.Return true →
     ∃ c, Audit.read (Sys.fs st) p = Some c
          ∧ Sys.files (Sys.fs st') !! p
            = Some (Re.sub old_pattern NEW_BOOTSTRAP_PATTERN c)
          ∧ Sys.out st' =
            Sys.out st ++ [Sys.Migrating p; Sys.SuccessfullyMigrated p]).
Proof.
  rewrite migrate_file_result. cbn [fst snd].
  rewrite after_files, after_out. unfold migrate_result.
  destruct (Audit.read (Sys.fs st) p) as [c|]; cbn [fst snd].
  2:{ split; [split; [done|]|done]. by intros (c & [=] & _). }
  destruct (Sys.write_fault (Sys.fs st) !! backup_of p) as [flt|];
    cbn [fst snd].
  { split; [split; [done|]|done]. by intros (c' & _ & [=] & _). }
  cbn zeta. case_decide as Hsub; cbn [fst snd].
  { split; [split; [done|]|done].
    intros (c' & [= <-] & _ & _ & Hne). done. }
  destruct (Sys.write_fault (Sys.fs st) !! p) as [flt|]; cbn [fst snd].
  { split; [split; [done|]|done]. by intros (c' & _ & _ & [=] & _). }
  split.
  - split; [intros _|done]. by exists c.
  - intros _. exists c. split_and!; try done.
    rewrite lookup_delete_ne by apply backup_ne. apply lookup_insert_eq.
Qed.

(** X4. When the file cannot be read and a backup of an earlier run is
    still there, the handler moves that stale backup over the file. *)
Theorem stale_backup_replaces_file (p : path) (st : Sys.state)
  (stale : text) :
  Audit.read (Sys.fs st) p = None →
  Sys.files (Sys.fs st) !! backup_of p = Some stale →
  let st' := (migrate_file p st).1 in
  Sys.files (Sys.fs st') !! p = Some stale
  ∧ Sys.files (Sys.fs st') !! backup_of p = None
  ∧ (migrate_file p st).2 = Sys.Return false.
Proof.
  intros Hread Hstale. rewrite migrate_file_result. cbn [fst snd].
  rewrite after_files. unfold migrate_result. rewrite Hread. cbn [fst snd].
  split_and!; [|apply restore_backup|done].
  unfold restore. rewrite Hstale. apply lookup_insert_eq.
Qed.

(** X5. When the copy to the backup stops after [n] characters, the
    handler finds the partial backup and moves it over the file: the file
    is left with the first [n] characters of its content. *)
Theorem partial_backup_replaces_file (p : path) (st : Sys.state)
  (c : text) (n : nat) :
  Audit.read (Sys.fs st) p = Some c →
  Sys.write_fault (Sys.fs st) !! backup_of p = Some (Sys.WriteStops n) →
  let st' := (migrate_file p st).1 in
  Sys.files (Sys.fs st') !! p = Some (take n c)
  ∧ Sys.files (Sys.fs st') !! backup_of p = None
  ∧ (migrate_file p st).2 = Sys.Return false.
Proof.
  intros Hread Hflt. rewrite migrate_file_result. cbn [fst snd].
  rewrite after_files. unfold migrate_result. rewrite Hread, Hflt.
  cbn [fst snd failed_write].
  split_and!; [|apply restore_backup|done].
  unfold restore. rewrite lookup_insert_eq. apply lookup_insert_eq.
Qed.

End MigratorProperties.

Section MigratorRuns.

Import Str Migrate.

(** A file that [migrate_file] migrates: readable, changed by the
    substitution, and with no write fault on it or on its backup. *)
Definition migratable (w : Sys.world) (p : path) : Prop :=
  ∃ c, Audit.read w p = Some c
       ∧ Sys.write_fault w !! backup_of p = None
       ∧ Sys.write_fault w !! p = None
       ∧ Re.sub old_pattern NEW_BOOTSTRAP_PATTERN c ≠ c.

(** The content that a migration gives to [p]. *)
Definition migrated_content (w : Sys.world) (p : path) : option text :=
  Re.sub old_pattern NEW_BOOTSTRAP_PATTERN <$> Audit.read w p.

Lemma migrate_file_success (p : path) (st : Sys.state) (c : text) :
  Audit.read (Sys.fs st) p = Some c →
  Sys.write_fault (Sys.fs st) !! backup_of p = None →
  Sys.write_fault (Sys.fs st) !! p = None →
  Re.sub old_pattern NEW_BOOTSTRAP_PATTERN c ≠ c →
  migrate_file p st =
  (after st
     (<[p := Re.sub old_pattern NEW_BOOTSTRAP_PATTERN c]>
        (delete (backup_of p) (Sys.files (Sys.fs st))))
     [Sys.Migrating p; Sys.SuccessfullyMigrated p],
   Sys.Return true).
Proof.
  intros Hread Hwb Hwp Hne. rewrite migrate_file_result.
  unfold migrate_result. rewrite Hread, Hwb. cbn zeta.
  rewrite decide_False by done. rewrite Hwp. cbn [fst snd].
  do 2 f_equal. apply map_eq. intros q.
  destruct (decide (q = backup_of p)) as [->|Hb].
  - rewrite lookup_delete_eq.
    rewrite lookup_insert_ne by (symmetry; apply backup_ne).
    by rewrite lookup_delete_eq.
  - rewrite lookup_delete_ne by done.
    destruct (decide (q = p)) as [->|Hp].
    + by rewrite !lookup_insert_eq.
    + by rewrite !lookup_insert_ne, lookup_delete_ne by done.
Qed.

Lemma read_after (st : Sys.state) (m : gmap path text) (e : list Sys.event)
  (q : path) :
  m !! q = Sys.files (Sys.fs st) !! q →
  Audit.read (Sys.fs (after st m e)) q = Audit.read (Sys.fs st) q.
Proof.
  intros H. unfold Audit.read. rewrite after_files, after_unreadable.
  by rewrite H.
Qed.

(** X6. In the same file system (the status lines can be printed, an
    existing file can be removed or moved), the loop of [main] handles
    every entry of its list once, whatever read or write fault meets it
    (a path that is listed twice is handled twice): the loop ends, the two
    counters grow together by the length of the list, and each entry gets
    its [Migrating] line. *)
Theorem migrate_all_counts (l : list path) (m e : nat) (st : Sys.state) :
  ∃ m' e',
    (migrate_all l m e st).2 = Sys.Return (m', e')
    ∧ m' + e' = m + e + length l
    ∧ ∀ p, p ∈ l → Sys.Migrating p ∈ Sys.out (migrate_all l m e st).1.
Proof.
  revert m e st. induction l as [|p l IH]; intros m e st.
  - exists m, e. cbn. split_and!; [done|lia|]. by intros p ?%elem_of_nil.
  - cbn [migrate_all].
    rewrite (bind_return _ _ _ _ _ (migrate_file_result p st)).
    set (st1 := after st _ _).
    assert (Sys.Migrating p ∈ Sys.out st1) as Hp.
    { unfold st1. rewrite after_out, elem_of_app. right. by left. }
    assert (∀ m0 e0, ∀ x, x ∈ Sys.out st1 →
              x ∈ Sys.out (migrate_all l m0 e0 st1).1) as Hmono.
    { clear. generalize st1. clear st1.
      induction l as [|q l IH]; intros st1 m0 e0 x Hx; [done|].
      cbn [migrate_all].
      rewrite (bind_return _ _ _ _ _ (migrate_file_result q st1)).
      destruct (migrate_result (Sys.fs st1) q).2;
        apply IH; rewrite after_out, elem_of_app; by left. }
    destruct (migrate_result (Sys.fs st) p).2.
    + destruct (IH (m + 1) e st1) as (m' & e' & H1 & H2 & H3).
      exists m', e'. split_and!; [done|cbn; lia|].
      intros q [->|Hq]%elem_of_cons; [by apply Hmono|by apply H3].
    + destruct (IH m (e + 1) st1) as (m' & e' & H1 & H2 & H3).
      exists m', e'. split_and!; [done|cbn; lia|].
      intros q [->|Hq]%elem_of_cons; [by apply Hmono|by apply H3].
Qed.

Lemma backup_not_sh (p q : path) :
  endswith (py ".sh") q = true → backup_of p ≠ q.
Proof. intros Hq Heq. by apply (sh_not_backup q p Hq). Qed.

Lemma migrate_all_success (l : list path) (m e : nat) (st : Sys.state) :
  NoDup l →
  Forall (λ p, endswith (py ".sh") p = true ∧ migratable (Sys.fs st) p) l →
  let st' := (migrate_all l m e st).1 in
  (migrate_all l m e st).2 = Sys.Return (m + length l, e)
  ∧ (∀ p, p ∈ l →
          Sys.files (Sys.fs st') !! p = migrated_content (Sys.fs st) p
          ∧ Sys.files (Sys.fs st') !! backup_of p = None)
  ∧ (∀ q, q ∉ l → q ∉ backup_of <$> l →
          Sys.files (Sys.fs st') !! q = Sys.files (Sys.fs st) !! q).
Proof.
  revert m e st. induction l as [|p l IH]; intros m e st Hnd Hall.
  - cbn. split_and!; [by rewrite Nat.add_0_r|by intros p ?%elem_of_nil|done].
  - apply NoDup_cons in Hnd as [Hp Hnd].
    apply Forall_cons in Hall as [[Hsh (c & Hread & Hwb & Hwp & Hne)] Hall].
    cbn [migrate_all].
    rewrite (bind_return _ _ _ _ _
               (migrate_file_success p st c Hread Hwb Hwp Hne)).
    set (st1 := after st _ _).
    assert (∀ q, q ≠ p → q ≠ backup_of p →
              Sys.files (Sys.fs st1) !! q = Sys.files (Sys.fs st) !! q)
      as Hframe.
    { intros q Hq Hb. unfold st1. rewrite after_files.
      by rewrite lookup_insert_ne, lookup_delete_ne by done. }
    assert (Forall (λ q, endswith (py ".sh") q = true
                         ∧ migratable (Sys.fs st1) q) l) as Hall1.
    { apply Forall_forall. intros q Hq.
      apply Forall_forall with (x := q) in Hall as Hallq; [|done].
      destruct Hallq as [Hqsh (cq & Hr & H1 & H2 & H3)].
      split; [done|]. exists cq.
      assert (q ≠ p) as Hqp by (by intros ->).
      unfold st1. rewrite read_after, after_write_fault; [done|].
      rewrite lookup_insert_ne, lookup_delete_ne; [done| |done].
      by apply backup_not_sh. }
    destruct (IH (m + 1) e st1 Hnd Hall1) as (H1 & H2 & H3).
    rewrite Forall_forall in Hall.
    assert (p ∉ backup_of <$> l) as Hpb.
    { intros (x & Hx & _)%list_elem_of_fmap. by eapply sh_not_backup. }
    assert (backup_of p ∉ l) as Hbl.
    { intros Hin. destruct (Hall _ Hin) as [Hb _].
      by apply (sh_not_backup _ p Hb). }
    assert (backup_of p ∉ backup_of <$> l) as Hbb.
    { intros (x & Hx & Hin)%list_elem_of_fmap.
      apply app_inv_tail in Hx. by subst. }
    split_and!.
    + cbn zeta in H1. rewrite H1. cbn [length]. do 2 f_equal. lia.
    + intros q [->|Hq]%elem_of_cons.
      * cbn zeta in H3. rewrite !H3 by done.
        unfold st1. rewrite !after_files, lookup_insert_eq.
        rewrite lookup_insert_ne by (symmetry; apply backup_ne).
        rewrite lookup_delete_eq. unfold migrated_content.
        by rewrite Hread.
      * destruct (H2 q Hq) as [Hc Hb]. split; [|done].
        cbn zeta in Hc. rewrite Hc. unfold migrated_content, st1.
        rewrite read_after; [done|].
        assert (q ≠ p) as Hqp by (by intros ->).
        rewrite lookup_insert_ne, lookup_delete_ne; [done| |done].
        destruct (Hall q Hq) as [Hqsh _]. by apply backup_not_sh.
    + intros q Hq Hb. apply not_elem_of_cons in Hq as [Hqp Hq].
      rewrite fmap_cons in Hb. apply not_elem_of_cons in Hb as [Hqb Hb].
      cbn zeta in H3. rewrite H3 by done. by apply Hframe.
Qed.

End MigratorRuns.

Section MigratorMain.

Import Str Migrate.

(** The prologue of [main]: the greeting, the scan and the selection. *)
Lemma main_prologue (globbed : list path) (w : Sys.world)
  (k : list path → list path → Sys.M bool) :
  (Sys.print (Sys.Line (py "Starting bootstrap migration..."));;
   shell_files ← find_shell_files globbed;
   Sys.print (Sys.FoundShellFiles (length shell_files));;
   files_to_migrate ← select_files shell_files;
   Sys.print (Sys.FoundFilesToMigrate (length files_to_migrate));;
   k shell_files files_to_migrate) (Sys.State w [])
  = k (filter (λ f, is_Some (Sys.files w !! f)
                    ∧ endswith (py ".sh") f = true) globbed)
      (files_to_migrate w globbed)
      (Sys.State w
         [ Sys.Line (py "Starting bootstrap migration...");
           Sys.FoundShellFiles
             (length (filter (λ f, is_Some (Sys.files w !! f)
                                   ∧ endswith (py ".sh") f = true) globbed));
           Sys.FoundFilesToMigrate (length (files_to_migrate w globbed)) ]).
Proof.
  rewrite (bind_return _ _ _ _ _ (print_run _ _)).
  rewrite (bind_return _ _ _ _ _ (find_shell_files_run _ _)).
  rewrite (bind_return _ _ _ _ _ (print_run _ _)).
  rewrite (bind_return _ _ _ _ _ (select_files_run _ _)).
  rewrite (bind_return _ _ _ _ _ (print_run _ _)).
  rewrite !after_after, !after_files. cbn [Sys.fs].
  destruct w as [m u f x]. reflexivity.
Qed.

(** X7. When no scanned script mentions the legacy bootstrap file, [main]
    touches nothing, says so and ends with exit code 0. *)
Theorem main_nothing_to_migrate (w : Sys.world) (globbed : list path) :
  files_to_migrate w globbed = [] →
  Sys.fs (Sys.run (main globbed) w).1 = w
  ∧ List.last (Sys.out (Sys.run (main globbed) w).1) (Sys.Line [])
    = Sys.Line (py "No files need migration!")
  ∧ exit_code (Sys.run (main globbed) w).2 = 0%Z.
Proof.
  intros Hnone. unfold Sys.run, main.
  rewrite (main_prologue globbed w
             (λ shell_files files_to_migrate,
                match files_to_migrate with
                | [] => _
                | _ => _
                end)).
  rewrite Hnone. rewrite (bind_return _ _ _ _ _ (print_run _ _)).
  cbn [fst snd]. unfold after. cbn [Sys.fs Sys.out Sys.files].
  destruct w as [m u f x]. done.
Qed.

(** X8. When the files to migrate are distinct and each of them is
    migrated without a fault, [main] ends with exit code 0, each of them
    holds the substituted content, none has a backup left, and no other
    file has changed. *)
Theorem main_full_success (w : Sys.world) (globbed : list path) :
  NoDup (files_to_migrate w globbed) →
  (∀ p, p ∈ files_to_migrate w globbed → migratable w p) →
  let st := (Sys.run (main globbed) w).1 in
  exit_code (Sys.run (main globbed) w).2 = 0%Z
  ∧ (∀ p, p ∈ files_to_migrate w globbed →
          Sys.files (Sys.fs st) !! p = migrated_content w p
          ∧ Sys.files (Sys.fs st) !! backup_of p = None)
  ∧ (∀ q, q ∉ files_to_migrate w globbed →
          q ∉ backup_of <$> files_to_migrate w globbed →
          Sys.files (Sys.fs st) !! q = Sys.files w !! q).
Proof.
  intros Hnd Hall. unfold Sys.run, main.
  rewrite (main_prologue globbed w
             (λ shell_files files_to_migrate,
                match files_to_migrate with
                | [] => _
                | _ => _
                end)).
  destruct (files_to_migrate w globbed) as [|p0 l] eqn:E.
  - rewrite (bind_return _ _ _ _ _ (print_run _ _)). cbn [fst snd].
    split_and!; [done|by intros p ?%elem_of_nil|].
    intros q _ _. unfold after. cbn. by destruct w.
  - rewrite <- E in *. set (st0 := Sys.State w _).
    assert (Forall (λ p, endswith (py ".sh") p = true
                         ∧ migratable (Sys.fs st0) p)
              (files_to_migrate w globbed)) as Hforall.
    { apply Forall_forall. intros p Hp. split; [|by apply Hall].
      unfold files_to_migrate in Hp.
      apply list_elem_of_filter in Hp as [_ Hp].
      by apply list_elem_of_filter in Hp as [[_ Hsh] _]. }
    destruct (migrate_all_success _ 0 0 st0 Hnd Hforall) as (H1 & H2 & H3).
    destruct (migrate_all (files_to_migrate w globbed) 0 0 st0)
      as [st1 r1] eqn:Hrun.
    cbn [fst snd] in *. subst r1.
    erewrite bind_return by exact Hrun. cbn beta iota.
    rewrite (bind_return _ _ _ _ _ (print_run _ _)).
    change (0 =? 0) with true. cbn iota.
    rewrite (bind_return _ _ _ _ _ (print_run _ _)).
    unfold mret, Sys.M_ret. rewrite !after_after, !after_files.
    cbn [fst snd exit_code]. split_and!; done.
Qed.

End MigratorMain.


(** An unreadable script beside a backup left by an earlier run. *)
Definition stale_backup_world : Sys.world :=
  Sys.World
    {[ py "tools/a.sh" := py "current";
       py "tools/a.sh.backup" := py "old" ]}
    {[ py "tools/a.sh" ]} ∅ ∅.

Lemma stale_backup_replaces_file_witness :
  let st' := (Migrate.migrate_file (py "tools/a.sh")
                (Sys.State stale_backup_world [])).1 in
  Sys.files (Sys.fs st') !! py "tools/a.sh" = Some (py "old")
  ∧ Sys.files (Sys.fs st') !! Migrate.backup_of (py "tools/a.sh") = None.
Proof.
  destruct (stale_backup_replaces_file (py "tools/a.sh")
              (Sys.State stale_backup_world []) (py "old"))
    as (H1 & H2 & _).
  - vm_compute. reflexivity.
  - vm_compute. reflexivity.
  - exact (conj H1 H2).
Defined.

(** The copy to the backup stops after three characters. *)
Definition backup_stops : Sys.world :=
  Sys.World {[ py "tools/a.sh" := legacy_script ]} ∅
    {[ py "tools/a.sh.backup" := Sys.WriteStops 3 ]} ∅.

Lemma partial_backup_replaces_file_witness :
  let st' := (Migrate.migrate_file (py "tools/a.sh")
                (Sys.State backup_stops [])).1 in
  Sys.files (Sys.fs st') !! py "tools/a.sh" = Some (py "#!/")
  ∧ Sys.files (Sys.fs st') !! Migrate.backup_of (py "tools/a.sh") = None.
Proof.
  destruct (partial_backup_replaces_file (py "tools/a.sh")
              (Sys.State backup_stops []) legacy_script 3)
    as (H1 & H2 & _).
  - vm_compute. reflexivity.
  - vm_compute. reflexivity.
  - split; [|exact H2]. rewrite H1. vm_compute. reflexivity.
Defined.

(** A tree whose only script does not mention the legacy file. *)
Definition nothing_legacy : Sys.world :=
  Sys.World {[ py "tools/a.sh" := py "echo hi" ]} ∅ ∅ ∅.

Lemma main_nothing_to_migrate_witness :
  Sys.fs (Sys.run (Migrate.main [py "tools/a.sh"]) nothing_legacy).1
  = nothing_legacy
  ∧ Migrate.exit_code
      (Sys.run (Migrate.main [py "tools/a.sh"]) nothing_legacy).2 = 0%Z.
Proof.
  destruct (main_nothing_to_migrate nothing_legacy [py "tools/a.sh"])
    as (H1 & _ & H3).
  - vm_compute. reflexivity.
  - exact (conj H1 H3).
Defined.

(** A tree whose only script holds the legacy block. *)
Definition one_legacy_script : Sys.world :=
  Sys.World {[ py "tools/a.sh" := legacy_script ]} ∅ ∅ ∅.

Lemma main_full_success_witness :
  let st := (Sys.run (Migrate.main [py "tools/a.sh"]) one_legacy_script).1 in
  Migrate.exit_code
    (Sys.run (Migrate.main [py "tools/a.sh"]) one_legacy_script).2 = 0%Z
  ∧ Sys.files (Sys.fs st) !! py "tools/a.sh"
    = Some (Str.join_nl
              [py "#!/bin/bash"; Migrate.NEW_BOOTSTRAP_PATTERN;
               py "echo hi"; []])
  ∧ Sys.files (Sys.fs st) !! Migrate.backup_of (py "tools/a.sh") = None.
Proof.
  destruct (main_full_success one_legacy_script [py "tools/a.sh"])
    as (H1 & H2 & _).
  - apply (bool_decide_unpack _). vm_compute. exact I.
  - intros p Hp. vm_compute in Hp.
    apply list_elem_of_singleton in Hp as ->.
    exists legacy_script. split_and!; try (vm_compute; reflexivity).
    intros H. vm_compute in H. discriminate H.
  - destruct (H2 (py "tools/a.sh")) as [H3 H4]; [vm_compute; left|].
    split; [exact H1|]. split; [|exact H4].
    rewrite H3. vm_compute. reflexivity.
Defined.

(** ** The consolidator on every file and every world *)

Section UpdateFile.

Import Str Consolidate.

Definition bump (self : consolidator) : consolidator :=
  Consolidator (changes_made self + 1) (files_updated self + 1).

(** The files, the status lines and the result of [update_file]. *)
Definition update_result (self : consolidator) (w : Sys.world) (p : path)
  : gmap path text * list Sys.event * (consolidator * bool) :=
  match Audit.read w p with
  | None => (Sys.files w, [Sys.ErrorUpdating p], (self, false))
  | Some c =>
      if (update_content c).2 && bool_decide ((update_content c).1 ≠ c) then
        match Sys.write_fault w !! p with
        | None =>
            (<[p := (update_content c).1]> (Sys.files w), [Sys.Updated p],
             (bump self, true))
        | Some flt =>
            (failed_write flt p (update_content c).1 (Sys.files w),
             [Sys.ErrorUpdating p], (self, false))
        end
      else (Sys.files w, [], (self, false))
  end.

Lemma update_file_result (self : consolidator) (p : path) (st : Sys.state) :
  update_file self p st =
  (after st (update_result self (Sys.fs st) p).1.1
     (update_result self (Sys.fs st) p).1.2,
   Sys.Return (update_result self (Sys.fs st) p).2).
Proof.
  unfold update_file, update_result.
  destruct (Audit.read (Sys.fs st) p) as [c|] eqn:Hread.
  - destruct (update_content c) as [c' upd] eqn:E. cbn [fst snd].
    destruct (upd && bool_decide (c' ≠ c)) eqn:Hif.
    + destruct (Sys.write_fault (Sys.fs st) !! p) as [flt|] eqn:Hw.
      * erewrite try_raise.
        2:{ erewrite bind_return by (by apply read_succeeds).
            rewrite E, Hif. erewrite bind_raise; [reflexivity|].
            by apply write_fails. }
        rewrite (bind_return _ _ _ _ _ (print_run _ _)).
        unfold mret, Sys.M_ret. by rewrite !after_after, !after_files.
      * apply try_return.
        erewrite bind_return by (by apply read_succeeds).
        rewrite E, Hif. erewrite bind_return by (by apply write_run).
        rewrite (bind_return _ _ _ _ _ (print_run _ _)).
        unfold mret, Sys.M_ret. by rewrite !after_after, !after_files.
    + apply try_return.
      erewrite bind_return by (by apply read_succeeds).
      rewrite E, Hif. unfold mret, Sys.M_ret. cbn [fst snd].
      by rewrite after_nil.
  - erewrite try_raise.
    2:{ erewrite bind_raise; [reflexivity|]. by apply read_fails. }
    rewrite (bind_return _ _ _ _ _ (print_run _ _)).
    reflexivity.
Qed.

(** When [update_file] succeeds. *)
Lemma update_result_true (self : consolidator) (w : Sys.world) (p : path) :
  (update_result self w p).2.2 = true ↔
  ∃ c, Audit.read w p = Some c
       ∧ (update_content c).1 ≠ c
       ∧ Sys.write_fault w !! p = None.
Proof.
  unfold update_result.
  destruct (Audit.read w p) as [c|]; cbn [fst snd].
  2:{ split; [done|]. by intros (c & [=] & _). }
  assert ((∃ c0, Some c = Some c0
                 ∧ (update_content c0).1 ≠ c0
                 ∧ Sys.write_fault w !! p = None)
          ↔ (update_content c).1 ≠ c ∧ Sys.write_fault w !! p = None) as ->.
  { split; [by intros (c0 & [= <-] & H)|]. intros H. by exists c. }
  pose proof (update_content_unchanged c) as Hu.
  destruct (update_content c) as [c' upd]. cbn [fst snd] in *.
  destruct upd; cbn [andb].
  - case_bool_decide as Hne.
    + destruct (Sys.write_fault w !! p) as [flt|]; cbn [fst snd].
      * split; [done|]. by intros [_ [=]].
      * split; [done|]. intros _. by split.
    + cbn [fst snd]. split; [done|]. intros [H _]. by destruct Hne.
  - cbn [fst snd]. split; [done|]. intros [H _]. destruct H. by apply Hu.
Qed.

(** X9. Where the status lines can be printed: whatever the path and the
    read and write faults, [update_file] returns, and it touches no file
    but the path.  It returns [True] exactly when the file can be read,
    the update changes its content and the write meets no fault; the file
    then holds the new content and both counters have grown by one.
    Otherwise the counters are as before. *)
Theorem update_file_contained (self : consolidator) (p : path)
  (st : Sys.state) :
  let st' := (update_file self p st).1 in
  ∃ self' ok,
    (update_file self p st).2 = Sys.Return (self', ok)
    ∧ (∀ q, q ≠ p →
            Sys.files (Sys.fs st') !! q = Sys.files (Sys.fs st) !! q)
    ∧ (ok = true ↔
       ∃ c, Audit.read (Sys.fs st) p = Some c
            ∧ (update_content c).1 ≠ c
            ∧ Sys.write_fault (Sys.fs st) !! p = None)
    ∧ (ok = true →
       self' = bump self
       ∧ ∃ c, Audit.read (Sys.fs st) p = Some c
              ∧ Sys.files (Sys.fs st') !! p = Some (update_content c).1)
    ∧ (ok = false → self' = self).
Proof.
  pose proof (update_result_true self (Sys.fs st) p) as Htrue.
  rewrite update_file_result. cbn [fst snd]. rewrite after_files.
  exists (update_result self (Sys.fs st) p).2.1,
         (update_result self (Sys.fs st) p).2.2.
  split; [by destruct (update_result self (Sys.fs st) p) as [? [? ?]]|].
  cut ((∀ q, q ≠ p →
          (update_result self (Sys.fs st) p).1.1 !! q
          = Sys.files (Sys.fs st) !! q)
       ∧ ((update_result self (Sys.fs st) p).2.2 = true →
          (update_result self (Sys.fs st) p).2.1 = bump self
          ∧ ∃ c, Audit.read (Sys.fs st) p = Some c
                 ∧ (update_result self (Sys.fs st) p).1.1 !! p
                   = Some (update_content c).1)
       ∧ ((update_result self (Sys.fs st) p).2.2 = false →
          (update_result self (Sys.fs st) p).2.1 = self)).
  { intros (H1 & H2 & H3). split_and!; [exact H1|exact Htrue|exact H2|exact H3]. }
  clear Htrue. unfold update_result.
  destruct (Audit.read (Sys.fs st) p) as [c|] eqn:Hread; cbn [fst snd].
  2:{ by split_and!. }
  assert (∃ c' upd, update_content c = (c', upd)) as (c' & upd & E)
    by (destruct (update_content c); eauto).
  assert (ok_case :
    ∀ P : text → Prop, P c' → P (update_content c).1)
    by (intros P HP; by rewrite E).
  rewrite E. cbn [fst snd]. clear E.
  destruct upd; cbn [andb]; [case_bool_decide as Hne|]; cbn [fst snd].
  - destruct (Sys.write_fault (Sys.fs st) !! p) as [flt|]; cbn [fst snd].
    + split_and!; try done. intros q Hq. by apply failed_write_other.
    + split_and!; try done.
      * intros q Hq. by rewrite lookup_insert_ne.
      * intros _. split; [done|]. exists c. split; [done|].
        apply (ok_case (λ x, _ !! p = Some x)). apply lookup_insert_eq.
  - by split_and!.
  - by split_and!.
Qed.

(** X10. [update_file] makes no backup: when the write of the new content
    stops after [n] characters, the file is left with the first [n]
    characters of the new content, the error line is printed and the
    result is [False]. *)
Theorem update_file_partial_write (self : consolidator) (p : path)
  (st : Sys.state) (c : text) (n : nat) :
  Audit.read (Sys.fs st) p = Some c →
  (update_content c).1 ≠ c →
  Sys.write_fault (Sys.fs st) !! p = Some (Sys.WriteStops n) →
  let st' := (update_file self p st).1 in
  Sys.files (Sys.fs st') !! p = Some (take n (update_content c).1)
  ∧ Sys.out st' = Sys.out st ++ [Sys.ErrorUpdating p]
  ∧ (update_file self p st).2 = Sys.Return (self, false).
Proof.
  intros Hread Hne Hflt. rewrite update_file_result. cbn [fst snd].
  rewrite after_files, after_out. unfold update_result. rewrite Hread.
  destruct (update_content c) as [c' upd] eqn:E. cbn [fst snd] in *.
  assert (upd = true) as ->.
  { destruct upd; [reflexivity|]. destruct Hne.
    pose proof (update_content_unchanged c) as Hu.
    rewrite E in Hu. apply Hu. reflexivity. }
  clear E.
  rewrite bool_decide_eq_true_2 by done. cbn [andb]. rewrite Hflt.
  cbn [fst snd failed_write]. split_and!; [apply lookup_insert_eq|done..].
Qed.

End UpdateFile.

(** A test script that calls [test_pass], on a disk that takes five
    characters of the write-back. *)
Definition update_write_stops : Sys.world :=
  Sys.World {[ py "tests/t.sh" := py "test_pass ok" ]} ∅
    {[ py "tests/t.sh" := Sys.WriteStops 5 ]} ∅.

Lemma update_file_partial_write_witness :
  let st := Sys.State update_write_stops [] in
  let r := Consolidate.update_file (Consolidate.Consolidator 0 0) (py "tests/t.sh") st in
  Sys.files (Sys.fs r.1) !! py "tests/t.sh" = Some (Str.nl :: py "# Lo")
  ∧ r.2 = Sys.Return (Consolidate.Consolidator 0 0, false).
Proof.
  destruct (update_file_partial_write (Consolidate.Consolidator 0 0) (py "tests/t.sh")
              (Sys.State update_write_stops []) (py "test_pass ok") 5)
    as (H1 & _ & H3).
  - vm_compute. reflexivity.
  - intros H. vm_compute in H. discriminate H.
  - vm_compute. reflexivity.
  - split; [|exact H3]. rewrite H1. vm_compute. reflexivity.
Defined.

(** ** tools/consolidate_duplicates.py: the batch driver *)

Module ConsolidateRun.

Import Consolidate.

(** The loop of [find_files_with_duplicates] over what the glob of all
    [.sh] files yields: directories and unreadable files are passed
    over. *)
Fixpoint find_files_with_duplicates (files : list path)
  : Sys.M (list path) :=
  match files with
  | [] => mret []
  | file_path :: files' =>
      is_file ← Sys.path_exists file_path;
      if negb is_file then find_files_with_duplicates files'
      else
        has_duplicates ←
          Sys.try_except
            (content ← Sys.read_text file_path;
             mret (should_add_test_framework content
                   || should_add_ui_framework content))
            (mret false);
        rest ← find_files_with_duplicates files';
        mret (if has_duplicates : bool then file_path :: rest else rest)
  end.

(** [for file_path in files_to_update: self.update_file(file_path)] *)
Fixpoint update_all (self : consolidator) (files_to_update : list path)
  : Sys.M consolidator :=
  match files_to_update with
  | [] => mret self
  | file_path :: files' =>
      r ← update_file self file_path;
      update_all r.1 files'
  end.

(** [run_consolidation]; the numbers of its summary are the counters of
    the consolidator that it returns. *)
Definition run_consolidation (self : consolidator) (globbed : list path)
  : Sys.M (consolidator * bool) :=
  Sys.print (Sys.Line (py "Starting duplicate function consolidation..."));;
  files_to_update ← find_files_with_duplicates globbed;
  match files_to_update with
  | [] =>
      Sys.print (Sys.Line (py "No files need updating!"));;
      mret (self, true)
  | _ =>
      self ← update_all self files_to_update;
      if 0 <? files_updated self then
        Sys.print
          (Sys.Line (py "Duplicate function consolidation completed!"));;
        mret (self, true)
      else
        Sys.print (Sys.Line (py "No changes were needed"));;
        mret (self, true)
  end.

(** [main]: [DuplicateConsolidator()] starts from zero. *)
Definition main (globbed : list path) : Sys.M Z :=
  r ← run_consolidation (Consolidator 0 0) globbed;
  mret (if r.2 : bool then 0 else 1)%Z.

End ConsolidateRun.

Section ConsolidateRunProperties.

Import Str Consolidate ConsolidateRun.

(** The files that the driver selects. *)
Definition has_duplicates (w : Sys.world) (f : path) : bool :=
  match Audit.read w f with
  | Some content =>
      should_add_test_framework content || should_add_ui_framework content
  | None => false
  end.







End ConsolidateRunProperties.

(** ** Where and what the injector inserts *)

Section InjectorInsertion.

Import Str Consolidate.

Lemma elem_of_list_insert_at {A} (i : nat) (x : A) (l : list A) :
  x ∈ list_insert_at i x l.
Proof. unfold list_insert_at. apply elem_of_app. right. by left. Qed.

(** X12. The text that [add_framework_import] returns for the test (the
    UI) framework holds the source path that the already-imported check of
    [update_file] looks for, so that check stops a second insertion; for
    any other framework type the content is returned as it is. *)
Theorem add_framework_import_marks (content kind : text) :
  contains (py "test_framework_core.sh")
    (add_framework_import content (py "test")) = true
  ∧ contains (py "print_utils.sh")
      (add_framework_import content (py "ui")) = true
  ∧ (kind ≠ py "test" → kind ≠ py "ui" →
     add_framework_import content kind = content).
Proof.
  split_and!.
  - rewrite add_test_import. apply contains_spec.
    eapply infix_trans; [|apply join_nl_infix, elem_of_list_insert_at].
    apply contains_spec. vm_compute. reflexivity.
  - rewrite add_ui_import. apply contains_spec.
    eapply infix_trans; [|apply join_nl_infix, elem_of_list_insert_at].
    apply contains_spec. vm_compute. reflexivity.
  - intros Ht Hu. unfold add_framework_import.
    by rewrite !bool_decide_eq_false_2.
Qed.

(** X13. The insertion index is within the lines; it is 0, or it follows
    a line that is [fi] once stripped and that lies strictly after the
    first line mentioning the marker variable. *)
Theorem find_insert_index_spec (lines : list text) :
  let k := find_insert_index lines in
  k ≤ length lines
  ∧ (k = 0
     ∨ ∃ i j marker_line fi_line,
         lines !! i = Some marker_line
         ∧ contains (py "SERVERSENTRY_ENV_LOADED") marker_line = true
         ∧ (∀ i' l', i' < i → lines !! i' = Some l' →
                     contains (py "SERVERSENTRY_ENV_LOADED") l' = false)
         ∧ i < j
         ∧ lines !! j = Some fi_line
         ∧ strip fi_line = py "fi"
         ∧ contains (py "bootstrap")
             (lower (join_empty (slice i j lines))) = true
         ∧ k = j + 1).
Proof.
  cbn zeta. unfold find_insert_index.
  destruct (list_find _ lines) as [[i marker_line]|] eqn:Hi;
    [|split; [lia|by left]].
  apply list_find_Some in Hi as (Hli & Hmarker & Hfirst).
  destruct (list_find _ (seq i (length lines - i))) as [[n j]|] eqn:Hj;
    [|split; [lia|by left]].
  apply list_find_Some in Hj as (Hseq & Hclose & _).
  apply lookup_seq in Hseq as [-> Hn].
  unfold closes_bootstrap in Hclose.
  destruct (lines !! (i + n)) as [fi_line|] eqn:Hfi; [|done].
  apply andb_true_iff in Hclose as [Hstrip Hboot].
  apply bool_decide_eq_true in Hstrip.
  split; [lia|]. right. exists i, (i + n), marker_line, fi_line.
  split_and!; try done.
  - intros i' l' Hlt Hl'. specialize (Hfirst i' l' Hl' Hlt).
    by destruct (contains _ l').
  - destruct n; [|lia]. exfalso.
    rewrite Nat.add_0_r in Hboot. unfold slice in Hboot.
    rewrite Nat.sub_diag in Hboot. by vm_compute in Hboot.
Qed.

(** X14. Inserting an import keeps every line of the content, in order:
    the lines of the result are the lines of the content with the lines of
    the import block put in at the insertion index. *)
Theorem add_framework_import_lines (content kind : text) :
  kind = py "test" ∨ kind = py "ui" →
  let lines := split_nl content in
  let k := find_insert_index lines in
  split_nl (add_framework_import content kind)
  = take k lines ++ split_nl (block_of kind) ++ drop k lines
  ∧ length (split_nl (add_framework_import content kind))
    = length lines + 6.
Proof.
  intros Hkind. cbn zeta.
  assert (split_nl (add_framework_import content kind)
          = take (find_insert_index (split_nl content)) (split_nl content)
            ++ split_nl (block_of kind)
            ++ drop (find_insert_index (split_nl content))
                 (split_nl content)) as Hlines.
  { destruct Hkind as [->| ->].
    - rewrite add_test_import. apply split_insert.
    - rewrite add_ui_import. apply split_insert. }
  split; [exact Hlines|]. rewrite Hlines, !length_app.
  assert (length (split_nl (block_of kind)) = 6) as ->
    by (by destruct Hkind as [->| ->]; vm_compute).
  pose proof (length_app (take (find_insert_index (split_nl content))
                            (split_nl content))
                (drop (find_insert_index (split_nl content))
                   (split_nl content))) as H.
  rewrite take_drop in H. lia.
Qed.

End InjectorInsertion.

Lemma add_framework_import_lines_witness :
  Str.split_nl (Consolidate.add_framework_import (py "echo hi") (py "ui"))
  = Str.split_nl Consolidate.ui_import_block ++ [py "echo hi"].
Proof.
  destruct (add_framework_import_lines (py "echo hi") (py "ui")) as [H _].
  - right. reflexivity.
  - rewrite H. vm_compute. reflexivity.
Defined.

(** ** What the remover skips *)

Section RemoverSkips.

Import Str Consolidate.

Variable F : gset text.

(** The brace counter stays positive on every line of [body], starting
    from [bc]. *)
Fixpoint stays_open (bc : Z) (body : list text) : bool :=
  match body with
  | [] => true
  | line :: body' =>
      (0 <? bc + brace_delta line)%Z
      && stays_open (bc + brace_delta line) body'
  end.

(** The brace counter after the lines of [body]. *)
Definition depth_after (bc : Z) (body : list text) : Z :=
  foldl (λ d line, d + brace_delta line)%Z bc body.

Lemma skip_body (body rest : list text) (bc : Z) :
  stays_open bc body = true →
  remove_loop F (body ++ rest) true bc
  = remove_loop F rest true (depth_after bc body).
Proof.
  revert bc. induction body as [|line body IH]; intros bc Hopen; [done|].
  cbn [stays_open] in Hopen. apply andb_true_iff in Hopen as [Hpos Hopen].
  apply Z.ltb_lt in Hpos. cbn [app remove_loop depth_after foldl].
  unfold brace_delta in *.
  replace (bc + count "{" line - count "}" line)%Z
    with (bc + (count "{" line - count "}" line))%Z by lia.
  destruct (Z.leb_spec (bc + (count "{" line - count "}" line)) 0); [lia|].
  by apply IH.
Qed.

Lemma skip_closing (closing : text) (rest : list text) (bc : Z) :
  (bc + brace_delta closing ≤ 0)%Z →
  remove_loop F (closing :: rest) true bc = remove_loop F rest false 0.
Proof.
  intros Hle. cbn [remove_loop]. unfold brace_delta in *.
  destruct (Z.leb_spec (bc + count "{" closing - count "}" closing) 0);
    [done|lia].
Qed.

Lemma keep_prefix (pre rest : list text) (bc : Z) :
  Forall (λ l, ¬ is_header_of F l) pre →
  remove_loop F (pre ++ rest) false bc = pre ++ remove_loop F rest false bc.
Proof.
  induction 1 as [|line pre Hline _ IH]; [done|].
  cbn [app remove_loop].
  destruct (function_match line) as [name|] eqn:E.
  - case_bool_decide as HF.
    + destruct Hline. by exists name.
    + by rewrite IH.
  - by rewrite IH.
Qed.

Lemma enter_skip (hdr : text) (rest : list text) (bc : Z) :
  is_header_of F hdr →
  remove_loop F (hdr :: rest) false bc
  = remove_loop F rest true (brace_delta hdr).
Proof.
  intros (name & Hm & HF). cbn [remove_loop]. rewrite Hm.
  by rewrite bool_decide_eq_true_2.
Qed.

(** X15. Exactly the block is removed: when the lines before a header of
    the deletion set hold no such header, the brace counter stays positive
    on the lines of the body and falls to zero or below on the closing
    line, the remover emits the lines before the header, drops the header,
    the body and the closing line, and goes on with the lines after the
    block as at the start. *)
Theorem remove_block (content : text) (pre body post : list text)
  (hdr closing : text) :
  split_nl content = pre ++ hdr :: body ++ closing :: post →
  Forall (λ l, ¬ is_header_of F l) pre →
  is_header_of F hdr →
  stays_open (brace_delta hdr) body = true →
  (depth_after (brace_delta hdr) body + brace_delta closing ≤ 0)%Z →
  emitted_lines content F = pre ++ remove_loop F post false 0.
Proof.
  intros Hlines Hpre Hhdr Hopen Hclose. unfold emitted_lines.
  rewrite Hlines, keep_prefix by done. f_equal.
  rewrite enter_skip by done. rewrite skip_body by done.
  by apply skip_closing.
Qed.



End RemoverSkips.

Lemma foo_is_header (line : text) :
  Consolidate.function_match line = Some (py "foo") →
  Consolidate.is_header_of {[ py "foo" ]} line.
Proof. intros H. exists (py "foo"). split; [exact H|]. by apply elem_of_singleton. Defined.

Lemma plain_line_no_header (F : gset text) (line : text) :
  Consolidate.function_match line = None →
  Forall (λ l, ¬ Consolidate.is_header_of F l) [line].
Proof.
  intros H. constructor; [|constructor].
  intros (n & Hn & _). rewrite H in Hn. discriminate Hn.
Defined.

Lemma remove_block_witness :
  Consolidate.emitted_lines
    (Str.join_nl [py "a"; py "foo() {"; py "  echo {x}"; py "}"; py "b"])
    {[ py "foo" ]}
  = [py "a"; py "b"].
Proof.
  rewrite (remove_block {[ py "foo" ]} _ [py "a"] [py "  echo {x}"] [py "b"]
             (py "foo() {") (py "}")).
  - vm_compute. reflexivity.
  - vm_compute. reflexivity.
  - apply plain_line_no_header. vm_compute. reflexivity.
  - apply foo_is_header. vm_compute. reflexivity.
  - vm_compute. reflexivity.
  - vm_compute. discriminate.
Defined.



(** ** The names that the header pattern captures *)

Section HeaderNames.

Import Re.

(** A matcher that leaves a closed group as it is. *)
Definition keeps_group (f : matcher) : Prop :=
  ∀ g prev s m, f (Closed g) prev s = Some m → grp m = g.

Lemma keeps_group_star (p : ascii → bool) (cont : matcher) :
  keeps_group cont → keeps_group (star p cont).
Proof.
  intros Hc g prev s. revert prev.
  induction s as [|c s IH]; intros prev m; simpl; [apply Hc|].
  destruct (p c); [|apply Hc].
  destruct (star p cont (Closed g) (Some c) s) as [m'|] eqn:E.
  - intros [= <-]. by eapply IH.
  - apply Hc.
Qed.

Lemma keeps_group_star_lazy (p : ascii → bool) (cont : matcher) :
  keeps_group cont → keeps_group (star_lazy p cont).
Proof.
  intros Hc g prev s. revert prev.
  induction s as [|c s IH]; intros prev m; simpl.
  - destruct (cont (Closed g) prev []) as [m'|] eqn:E; [|done].
    intros [= <-]. by eapply Hc.
  - destruct (cont (Closed g) prev (c :: s)) as [m'|] eqn:E.
    + intros [= <-]. by eapply Hc.
    + destruct (p c); [|done]. apply IH.
Qed.

(** The atoms after which group 1 cannot change. *)
Definition no_group (a : atom) : bool :=
  match a with
  | GOpen | GClose => false
  | _ => true
  end.

Lemma keeps_group_rmatch (r : regex) :
  forallb no_group r = true → keeps_group (rmatch r).
Proof.
  induction r as [|a r IH]; [by intros _ g prev s m [= <-]|].
  cbn [forallb]. intros [Ha Hr]%andb_true_iff. specialize (IH Hr).
  destruct a; try done; cbn [rmatch].
  - intros g prev [|c s] m; [done|]. destruct (p c); [|done]. apply IH.
  - by apply keeps_group_star.
  - by apply keeps_group_star_lazy.
  - intros g [c|] s m; [done|]. apply IH.
  - intros g prev s m. destruct (at_bol prev); [|done]. apply IH.
  - intros g prev s m. destruct (at_eol s); [|done]. apply IH.
Qed.

(** A greedy star inside an open group adds to it characters of its
    class. *)
Lemma star_open (p : ascii → bool) (cont : matcher) (acc : text)
  (prev : option ascii) (s : text) (m : found) :
  star p cont (Open acc) prev s = Some m →
  ∃ taken rest prev',
    s = taken ++ rest
    ∧ Forall (λ c, p c = true) taken
    ∧ cont (Open (acc ++ taken)) prev' rest = Some m.
Proof.
  revert acc prev. induction s as [|c s IH]; intros acc prev; simpl.
  - intros H. exists [], [], prev. by rewrite (app_nil_r acc).
  - destruct (p c) eqn:Hp.
    + destruct (star p cont (Open (acc ++ [c])) (Some c) s) as [m'|] eqn:E.
      * intros [= <-].
        destruct (IH _ _ E) as (taken & rest & prev' & -> & Ht & Hc).
        exists (c :: taken), rest, prev'. split_and!; [done|by constructor|].
        by rewrite <- app_assoc in Hc.
      * intros H. exists [], (c :: s), prev. by rewrite (app_nil_r acc).
    + intros H. exists [], (c :: s), prev. by rewrite (app_nil_r acc).
Qed.

End HeaderNames.

Section HeaderShape.

Import Str Consolidate.

(** X18. The name that [function_match] finds in a line is an identifier:
    it starts the stripped line, its first character is a letter or an
    underscore and the others are letters, digits or underscores. *)
Theorem function_match_identifier (line name : text) :
  function_match line = Some name →
  name `prefix_of` strip line
  ∧ ∃ c rest,
      name = c :: rest
      ∧ ident_start c = true
      ∧ Forall (λ x, ident_char x = true) rest.
Proof.
  unfold function_match, Re.re_match, function_re.
  destruct (Re.rmatch _ Re.NoCap None (strip line)) as [m|] eqn:E; [|done].
  intros [= <-]. cbn [Re.rmatch] in E.
  destruct (strip line) as [|c s]; [done|].
  destruct (ident_start c) eqn:Hc; [|done].
  cbn [Re.push app] in E.
  apply star_open in E as (taken & rest & prev' & -> & Ht & E).
  cbn beta in E.
  apply (keeps_group_rmatch
           [Re.Star isspace; Re.Chr (Re.eqc "("); Re.Chr (Re.eqc ")");
            Re.Star isspace; Re.Chr (Re.eqc "{")] eq_refl) in E.
  rewrite E. cbn [app]. split.
  - apply prefix_cons. by exists rest.
  - by exists c, taken.
Qed.

End HeaderShape.

Lemma function_match_identifier_witness :
  Consolidate.function_match (py "  cmd_1 () { echo") = Some (py "cmd_1")
  ∧ py "cmd_1" `prefix_of` Str.strip (py "  cmd_1 () { echo").
Proof.
  assert (Consolidate.function_match (py "  cmd_1 () { echo")
          = Some (py "cmd_1")) as H by (vm_compute; reflexivity).
  split; [exact H|].
  exact (proj1 (function_match_identifier _ _ H)).
Defined.

(** ** Headers as the specification defines them *)

Section GreedyStars.

Import Re.

Lemma foldl_push_open (acc taken : text) :
  foldl push (Open acc) taken = Open (acc ++ taken).
Proof.
  revert acc. induction taken as [|c taken IH]; intros acc; cbn [foldl push].
  - by rewrite app_nil_r.
  - rewrite IH. by rewrite <- app_assoc.
Qed.

Lemma foldl_push_closed (g taken : text) :
  foldl push (Closed g) taken = Closed g.
Proof. induction taken as [|c taken IH]; [done|exact IH]. Qed.

(** A greedy star takes a whole run of its class when the pattern goes
    on from there. *)
Lemma star_greedy (p : ascii → bool) (cont : matcher) (taken rest : text)
  (k : cap) (prev : option ascii) (m : found) :
  Forall (λ c, p c = true) taken →
  match rest with c :: _ => p c = false | [] => True end →
  cont (foldl push k taken) (foldl (λ _ c, Some c) prev taken) rest = Some m →
  star p cont k prev (taken ++ rest) = Some m.
Proof.
  intros Ht Hrest. revert k prev.
  induction Ht as [|c taken Hc _ IH]; intros k prev Hm.
  - cbn [foldl app] in *. destruct rest as [|c r]; cbn [star]; [done|].
    by rewrite Hrest.
  - cbn [app star]. rewrite Hc. by rewrite (IH (push k c) (Some c)).
Qed.

(** What a greedy star has taken once the group is closed. *)
Lemma star_closed (p : ascii → bool) (cont : matcher) (g : text)
  (prev : option ascii) (s : text) (m : found) :
  star p cont (Closed g) prev s = Some m →
  ∃ taken rest prev',
    s = taken ++ rest
    ∧ Forall (λ c, p c = true) taken
    ∧ cont (Closed g) prev' rest = Some m.
Proof.
  revert prev. induction s as [|c s IH]; intros prev; simpl.
  - intros H. by exists [], [], prev.
  - destruct (p c) eqn:Hp.
    + destruct (star p cont (Closed g) (Some c) s) as [m'|] eqn:E.
      * intros [= <-].
        destruct (IH _ E) as (taken & rest & prev' & -> & Ht & Hc).
        exists (c :: taken), rest, prev'. split_and!; [done|by constructor|done].
      * intros H. by exists [], (c :: s), prev.
    + intros H. by exists [], (c :: s), prev.
Qed.

End GreedyStars.

Section SpecHeader.

Import Str Consolidate.

(** An identifier: letters, digits and underscores, the first one not a
    digit. *)
Definition identifier (name : text) : Prop :=
  ∃ c rest,
    name = c :: rest
    ∧ ident_start c = true
    ∧ Forall (λ x, ident_char x = true) rest.

(** Section 4.1 of the specification: [line] is a definition header of
    [name] when it starts with the identifier [name], white space, a pair
    of parentheses, white space and an opening brace. *)
Definition spec_header (name line : text) : Prop :=
  identifier name
  ∧ ∃ sp1 sp2 rest,
      Forall (λ c, isspace c = true) sp1
      ∧ Forall (λ c, isspace c = true) sp2
      ∧ line = name ++ sp1 ++ py "()" ++ sp2 ++ py "{" ++ rest.

Lemma space_not_ident (c : ascii) : isspace c = true → ident_char c = false.
Proof.
  destruct c as [b0 b1 b2 b3 b4 b5 b6 b7].
  destruct b0, b1, b2, b3, b4, b5, b6, b7; vm_compute; congruence.
Qed.

Lemma ident_start_visible (c : ascii) :
  ident_start c = true → isspace c = false.
Proof.
  destruct c as [b0 b1 b2 b3 b4 b5 b6 b7].
  destruct b0, b1, b2, b3, b4, b5, b6, b7; vm_compute; congruence.
Qed.

Lemma first_not_class (p : ascii → bool) (sp rest : text) (x : ascii) :
  Forall (λ c, isspace c = true) sp →
  (∀ c, isspace c = true → p c = false) →
  p x = false →
  match sp ++ x :: rest with c :: _ => p c = false | [] => True end.
Proof.
  intros Hsp Hp Hx. destruct Hsp as [|c sp Hc _]; cbn [app]; auto.
Qed.

(** The rest of the header pattern, after the name. *)
Definition header_tail : Re.regex :=
  [Re.Star isspace; Re.Chr (Re.eqc "("); Re.Chr (Re.eqc ")");
   Re.Star isspace; Re.Chr (Re.eqc "{")].

Lemma header_tail_matches (g sp1 sp2 rest : text) (prev : option ascii) :
  Forall (λ c, isspace c = true) sp1 →
  Forall (λ c, isspace c = true) sp2 →
  ∃ m, Re.rmatch header_tail (Re.Closed g) prev
         (sp1 ++ py "()" ++ sp2 ++ py "{" ++ rest) = Some m
       ∧ Re.grp m = g.
Proof.
  intros H1 H2. unfold header_tail. cbn [Re.rmatch].
  change (py "()") with ["("%char; ")"%char].
  change (py "{") with ["{"%char]. cbn [app].
  eexists. split.
  - apply star_greedy; [exact H1|reflexivity|].
    rewrite foldl_push_closed. cbn beta iota.
    unfold Re.eqc at 1. rewrite Ascii.eqb_refl.
    unfold Re.eqc at 1. rewrite Ascii.eqb_refl. cbn [Re.push].
    apply star_greedy; [exact H2|reflexivity|].
    rewrite foldl_push_closed. cbn beta iota.
    unfold Re.eqc at 1. rewrite Ascii.eqb_refl. cbn [Re.push].
    reflexivity.
  - reflexivity.
Qed.

Lemma header_tail_inv (g : text) (prev : option ascii) (s : text)
  (m : Re.found) :
  Re.rmatch header_tail (Re.Closed g) prev s = Some m →
  Re.grp m = g
  ∧ ∃ sp1 sp2 rest,
      Forall (λ c, isspace c = true) sp1
      ∧ Forall (λ c, isspace c = true) sp2
      ∧ s = sp1 ++ py "()" ++ sp2 ++ py "{" ++ rest.
Proof.
  intros E. split.
  { by apply (keeps_group_rmatch header_tail eq_refl) in E. }
  unfold header_tail in E. cbn [Re.rmatch] in E.
  apply star_closed in E as (sp1 & r1 & prev1 & -> & H1 & E).
  cbn beta in E. destruct r1 as [|x1 r1]; [done|].
  unfold Re.eqc at 1 in E.
  destruct (Ascii.eqb_spec "(" x1) as [<-|]; [|done].
  destruct r1 as [|x2 r1]; [done|].
  unfold Re.eqc at 1 in E.
  destruct (Ascii.eqb_spec ")" x2) as [<-|]; [|done].
  cbn [Re.push] in E.
  apply star_closed in E as (sp2 & r2 & prev2 & -> & H2 & E).
  cbn beta in E. destruct r2 as [|x3 r2]; [done|].
  unfold Re.eqc at 1 in E.
  destruct (Ascii.eqb_spec "{" x3) as [<-|]; [|done].
  by exists sp1, sp2, r2.
Qed.

(** The remover's recogniser finds the headers of the specification in
    the stripped line, and nothing else. *)
Lemma function_match_spec (line name : text) :
  function_match line = Some name ↔ spec_header name (strip line).
Proof.
  unfold function_match, Re.re_match, function_re. split.
  - destruct (Re.rmatch _ Re.NoCap None (strip line)) as [m|] eqn:E; [|done].
    intros [= <-]. cbn [Re.rmatch] in E.
    destruct (strip line) as [|c s]; [done|].
    destruct (ident_start c) eqn:Hc; [|done].
    cbn [Re.push app] in E.
    apply star_open in E as (taken & rest & prev' & -> & Ht & E).
    cbn beta in E.
    apply (header_tail_inv ([c] ++ taken) prev' rest m) in E
      as (-> & sp1 & sp2 & rest' & H1 & H2 & ->).
    split; [by exists c, taken|]. by exists sp1, sp2, rest'.
  - intros ((c & nrest & -> & Hc & Hn) & sp1 & sp2 & rest & H1 & H2 & ->).
    cbn [Re.rmatch app]. rewrite Hc. cbn [Re.push app].
    destruct (header_tail_matches (c :: nrest) sp1 sp2 rest
                (foldl (λ _ x, Some x) (Some c) nrest) H1 H2)
      as (m & Hm & Hg).
    rewrite (star_greedy ident_char _ nrest _ _ _ m Hn).
    + cbn [fmap option_fmap option_map]. by rewrite Hg.
    + exact (first_not_class ident_char sp1 _ "(" H1 space_not_ident eq_refl).
    + rewrite foldl_push_open. exact Hm.
Qed.

End SpecHeader.

Section RemoverHeaders.

Import Str Consolidate.

(** A header of the specification is still one once the line is
    stripped. *)
Lemma spec_header_strip (name line : text) :
  spec_header name line → spec_header name (strip line).
Proof.
  intros (Hid & sp1 & sp2 & rest & H1 & H2 & ->). split; [done|].
  destruct Hid as (c & nrest & -> & Hc & Hn).
  exists sp1, sp2, (rstrip rest). split_and!; [done..|].
  unfold strip. cbn [app lstrip]. rewrite (ident_start_visible c Hc).
  change (py "{") with ["{"%char].
  replace (c :: nrest ++ sp1 ++ py "()" ++ sp2 ++ ["{"%char] ++ rest)
    with ((c :: nrest ++ sp1 ++ py "()" ++ sp2) ++ "{"%char :: rest)
    by (cbn [app]; by rewrite <- !app_assoc).
  rewrite rstrip_visible by reflexivity.
  cbn [app]. by rewrite <- !app_assoc.
Qed.

(** C3, amended. For every text and every deletion set: no line of the
    remover's output is, once stripped of the white space around it, a
    definition header of a deleted name, and so no line of the output is
    such a header itself; the emitted lines are lines of the input,
    unchanged and in their original order; and when no line of the input
    is, once stripped, a header of a deleted name, the output is the
    input. *)
Theorem remove_duplicate_functions_headers (F : gset text) (content : text) :
  (∀ line name,
     line ∈ split_nl (remove_duplicate_functions content F) → name ∈ F →
     ¬ spec_header name (strip line) ∧ ¬ spec_header name line)
  ∧ emitted_lines content F `sublist_of` split_nl content
  ∧ ((∀ line name,
        line ∈ split_nl content → name ∈ F →
        ¬ spec_header name (strip line)) →
     remove_duplicate_functions content F = content).
Proof.
  split_and!.
  - intros line name Hin HF.
    assert (¬ spec_header name (strip line)) as Hno.
    { intros H%function_match_spec.
      pose proof (remove_no_header F content) as Hall.
      rewrite Forall_forall in Hall. apply (Hall line Hin). by exists name. }
    split; [done|]. intros H. by apply Hno, spec_header_strip.
  - apply remove_loop_sublist.
  - intros H. apply remove_id. apply Forall_forall.
    intros line Hin (name & Hm%function_match_spec & HF). by apply (H line name).
Qed.

End RemoverHeaders.

(** A definition whose header line is indented. *)
Definition indented_definition : text :=
  Str.join_nl
    [ py "  foo() {"; py "    echo hi"; py "  }"; py "echo done" ].

(** C3, as stated, fails: no line of this text is a header in the sense of
    section 4.1, which is anchored at the start of the line, and yet the
    output is not the input. *)
Lemma indented_header_counterexample :
  (∀ line name,
     line ∈ Str.split_nl indented_definition →
     name ∈ ({[ py "foo" ]} : gset text) →
     ¬ spec_header name line)
  ∧ Consolidate.remove_duplicate_functions indented_definition {[ py "foo" ]}
    ≠ indented_definition.
Proof.
  split.
  - intros line name Hin ->%elem_of_singleton
      (_ & sp1 & sp2 & rest & _ & _ & Heq).
    vm_compute in Hin.
    repeat (apply elem_of_cons in Hin as [->|Hin];
            [vm_compute in Heq; discriminate Heq|]).
    by apply elem_of_nil in Hin.
  - vm_compute. discriminate.
Qed.

(** The indented definition is removed, and what is left has no header of
    the deleted name. *)
Lemma remove_duplicate_functions_headers_witness :
  Consolidate.remove_duplicate_functions indented_definition {[ py "foo" ]}
  = py "echo done"
  ∧ ∀ line, line ∈ Str.split_nl (py "echo done") →
            ¬ spec_header (py "foo") (Str.strip line).
Proof.
  assert (Consolidate.remove_duplicate_functions indented_definition
            {[ py "foo" ]} = py "echo done") as H by (vm_compute; reflexivity).
  split; [exact H|]. intros line Hin. rewrite <- H in Hin.
  exact (proj1 (proj1 (remove_duplicate_functions_headers {[ py "foo" ]}
                         indented_definition) line (py "foo") Hin
                  (proj2 (elem_of_singleton (py "foo") (py "foo")) eq_refl))).
Defined.

(** ** tools/cleanup_commands.py *)

Module Cleanup.

Definition file_path : path := py "lib/ui/cli/commands.sh".

(** The end of the two patterns: a newline and a closing brace. *)
Definition closing : text := Str.nl :: py "}".

(** A header, then any characters (DOTALL), as few as possible, up to the
    first line that starts with a closing brace. *)
Definition block_pattern (header : text) : Re.regex :=
  Re.lit header ++ [Re.StarLazy Re.any] ++ Re.lit closing.

Definition template_header : text :=
  py "# Command: template" ++ Str.nl :: py "cmd_template() {".

Definition composite_header : text :=
  py "# Command: composite" ++ Str.nl :: py "cmd_composite() {".

Definition template_pattern : Re.regex := block_pattern template_header.

Definition composite_pattern : Re.regex := block_pattern composite_header.

(** Three newlines or more. *)
Definition blank_lines_pattern : Re.regex :=
  [Re.Chr (Re.eqc Str.nl); Re.Chr (Re.eqc Str.nl); Re.Chr (Re.eqc Str.nl);
   Re.Star (Re.eqc Str.nl)].

(** The three substitutions of [cleanup_commands_file]. *)
Definition clean (content : text) : text :=
  let content := Re.sub template_pattern [] content in
  let content := Re.sub composite_pattern [] content in
  Re.sub blank_lines_pattern [Str.nl; Str.nl] content.

(** [cleanup_commands_file]; the status lines are kept without their
    pictograph and without the text of the exception. *)
Definition cleanup_commands_file : Sys.M bool :=
  Sys.try_except
    (content ← Sys.read_text file_path;
     Sys.write_text file_path (clean content);;
     Sys.print (Sys.Line (py "Cleaned up lib/ui/cli/commands.sh"));;
     mret true)
    (Sys.print (Sys.Line (py "Error cleaning up lib/ui/cli/commands.sh"));;
     mret false).

Definition main : Sys.M Z :=
  Sys.print (Sys.Line (py "Cleaning up commands.sh file..."));;
  success ← cleanup_commands_file;
  mret (if success : bool then 0 else 1)%Z.

End Cleanup.

Section CleanupBlankLines.

Import Re Cleanup.

(** The number of newlines that a text starts with. *)
Fixpoint newlines (s : text) : nat :=
  match s with
  | c :: s' => if Ascii.eqb Str.nl c then S (newlines s') else 0
  | [] => 0
  end.

Lemma newlines_drop (s : text) : newlines (drop (newlines s) s) = 0.
Proof.
  induction s as [|c s IH]; [done|]. cbn [newlines].
  destruct (Ascii.eqb Str.nl c) eqn:E; [exact IH|].
  cbn [drop newlines]. by rewrite E.
Qed.

Lemma newlines_length (s : text) : newlines s ≤ length s.
Proof.
  induction s as [|c s IH]; cbn [newlines length]; [lia|].
  destruct (Ascii.eqb Str.nl c); lia.
Qed.

Lemma startswith_three (s : text) :
  Str.startswith [Str.nl; Str.nl; Str.nl] s = (3 <=? newlines s).
Proof.
  destruct s as [|c1 s]; [done|]. cbn [Str.startswith newlines].
  destruct (Ascii.eqb Str.nl c1); [|done]. cbn [andb].
  destruct s as [|c2 s]; [done|]. cbn [Str.startswith newlines].
  destruct (Ascii.eqb Str.nl c2); [|done]. cbn [andb].
  destruct s as [|c3 s]; [done|]. cbn [Str.startswith newlines].
  destruct (Ascii.eqb Str.nl c3); [|done]. done.
Qed.

Lemma star_newlines (s : text) (prev : option ascii) :
  ∃ prev',
    star (eqc Str.nl) (rmatch []) NoCap prev s =
    Some (Found [] prev' (drop (newlines s) s)).
Proof.
  revert prev. induction s as [|c s IH]; intros prev.
  - by exists prev.
  - cbn [star newlines push]. unfold eqc at 1.
    destruct (Ascii.eqb Str.nl c); [|by exists prev].
    destruct (IH (Some c)) as [prev' ->]. by exists prev'.
Qed.

(** Where the pattern of blank lines matches, and what it consumes. *)
Lemma rmatch_blank_lines (prev : option ascii) (s : text) :
  rest <$> rmatch blank_lines_pattern NoCap prev s =
  if 3 <=? newlines s then Some (drop (newlines s) s) else None.
Proof.
  unfold blank_lines_pattern.
  destruct s as [|c1 s]; [done|]. cbn [rmatch newlines]. unfold eqc at 1.
  destruct (Ascii.eqb Str.nl c1); [|done].
  destruct s as [|c2 s]; [done|]. cbn [rmatch newlines push]. unfold eqc at 1.
  destruct (Ascii.eqb Str.nl c2); [|done].
  destruct s as [|c3 s]; [done|]. cbn [rmatch newlines push]. unfold eqc at 1.
  destruct (Ascii.eqb Str.nl c3); [|done]. cbn [rmatch push].
  destruct (star_newlines s (Some c3)) as [prev' H]. cbn [rmatch] in H.
  by rewrite H.
Qed.

Lemma contains_cons (p : text) (c : ascii) (s : text) :
  Str.contains p (c :: s) = Str.startswith p (c :: s) || Str.contains p s.
Proof. done. Qed.

Lemma newlines_nl (s : text) : newlines (Str.nl :: s) = S (newlines s).
Proof. cbn [newlines]. by rewrite Ascii.eqb_refl. Qed.

Lemma drop_newlines (c : ascii) (s : text) :
  0 < newlines (c :: s) →
  drop (newlines (c :: s) - 1) s = drop (newlines (c :: s)) (c :: s).
Proof.
  destruct (newlines (c :: s)) as [|k]; [lia|]. intros _.
  cbn [drop]. f_equal. lia.
Qed.

(** What the third substitution returns, from any point of its scan. *)
Lemma squeeze_spec (s : text) (skip : nat) (prev : option ascii) :
  Str.contains [Str.nl; Str.nl; Str.nl]
    (sub_from blank_lines_pattern [Str.nl; Str.nl] skip prev s) = false
  ∧ newlines (sub_from blank_lines_pattern [Str.nl; Str.nl] skip prev s)
    ≤ newlines (drop skip s)
  ∧ newlines (sub_from blank_lines_pattern [Str.nl; Str.nl] skip prev s) ≤ 2.
Proof.
  revert skip prev. induction s as [|c s IH]; intros skip prev.
  - destruct skip; cbn [sub_from]; rewrite drop_nil; cbn [newlines];
      (split_and!; [reflexivity|lia..]).
  - destruct skip as [|n]; [|cbn [sub_from drop]; apply IH].
    cbn [sub_from]. rewrite drop_0.
    pose proof (rmatch_blank_lines prev (c :: s)) as Hm.
    pose proof (newlines_length (c :: s)) as Hlen.
    destruct (rmatch blank_lines_pattern NoCap prev (c :: s)) as [m|].
    + destruct (3 <=? newlines (c :: s)) eqn:H3; [|done].
      apply Nat.leb_le in H3.
      assert (rest m = drop (newlines (c :: s)) (c :: s)) as Hrest
        by (cbn [fmap option_fmap option_map] in Hm; congruence).
      clear Hm.
      assert (consumed (c :: s) m - 1 = newlines (c :: s) - 1) as ->.
      { unfold consumed. rewrite Hrest, length_drop. lia. }
      destruct (IH (newlines (c :: s) - 1) (Some c)) as (Hno & Hlead & _).
      rewrite drop_newlines, newlines_drop in Hlead by lia.
      revert Hno Hlead.
      generalize (sub_from blank_lines_pattern [Str.nl; Str.nl]
                    (newlines (c :: s) - 1) (Some c) s).
      intros t Hno Hlead. cbn [app].
      rewrite !contains_cons, !startswith_three, !newlines_nl, Hno.
      replace (newlines t) with 0 by lia.
      split_and!; [reflexivity|lia..].
    + destruct (3 <=? newlines (c :: s)) eqn:H3; [done|].
      apply Nat.leb_gt in H3.
      destruct (IH 0 (Some c)) as (Hno & Hlead & Htwo).
      rewrite drop_0 in Hlead. revert Hno Hlead Htwo.
      generalize (sub_from blank_lines_pattern [Str.nl; Str.nl] 0 (Some c) s).
      intros t Hno Hlead Htwo.
      rewrite contains_cons, startswith_three, Hno, orb_false_r.
      revert H3. cbn [newlines]. destruct (Ascii.eqb Str.nl c); intros H3.
      * split_and!; [apply Nat.leb_gt; lia|lia..].
      * split_and!; [reflexivity|lia..].
Qed.

End CleanupBlankLines.

Section CleanupText.

Import Re Cleanup.

(** X19. Whatever the content, the text that [cleanup_commands_file]
    writes has no three newlines in a row. *)
Theorem clean_no_blank_run (content : text) :
  Str.contains [Str.nl; Str.nl; Str.nl] (clean content) = false.
Proof. unfold clean, sub. apply squeeze_spec. Qed.

(** A substitution by the empty text only deletes. *)
Lemma sub_empty_sublist (r : regex) (skip : nat) (prev : option ascii)
  (s : text) :
  sub_from r [] skip prev s `sublist_of` s.
Proof.
  revert skip prev. induction s as [|c s IH]; intros skip prev; [done|].
  cbn [sub_from]. destruct skip as [|n]; [|by apply sublist_cons].
  destruct (rmatch r NoCap prev (c :: s)) as [m|]; cbn [app].
  - by apply sublist_cons.
  - by apply sublist_skip.
Qed.

Lemma newlines_three (s : text) :
  3 ≤ newlines s → ∃ s3, s = Str.nl :: Str.nl :: Str.nl :: s3.
Proof.
  destruct s as [|c1 s]; cbn [newlines]; [lia|].
  destruct (Ascii.eqb_spec Str.nl c1) as [<-|]; [|lia].
  destruct s as [|c2 s]; cbn [newlines]; [lia|].
  destruct (Ascii.eqb_spec Str.nl c2) as [<-|]; [|lia].
  destruct s as [|c3 s]; cbn [newlines]; [lia|].
  destruct (Ascii.eqb_spec Str.nl c3) as [<-|]; [|lia].
  intros _. by exists s.
Qed.

Lemma squeeze_sublist (s : text) (skip : nat) (prev : option ascii) :
  sub_from blank_lines_pattern [Str.nl; Str.nl] skip prev s
  `sublist_of` drop skip s.
Proof.
  revert skip prev. induction s as [|c s IH]; intros skip prev.
  - destruct skip; cbn [sub_from]; by rewrite drop_nil.
  - destruct skip as [|n]; [|cbn [sub_from drop]; apply IH].
    cbn [sub_from]. rewrite drop_0.
    pose proof (rmatch_blank_lines prev (c :: s)) as Hm.
    pose proof (newlines_length (c :: s)) as Hlen.
    destruct (rmatch blank_lines_pattern NoCap prev (c :: s)) as [m|].
    + destruct (3 <=? newlines (c :: s)) eqn:H3; [|done].
      apply Nat.leb_le in H3.
      assert (rest m = drop (newlines (c :: s)) (c :: s)) as Hrest
        by (cbn [fmap option_fmap option_map] in Hm; congruence).
      clear Hm.
      assert (consumed (c :: s) m - 1 = newlines (c :: s) - 1) as ->.
      { unfold consumed. rewrite Hrest, length_drop. lia. }
      specialize (IH (newlines (c :: s) - 1) (Some c)).
      rewrite drop_newlines in IH by lia.
      destruct (newlines_three _ H3) as [s3 Hs]. revert IH.
      generalize (sub_from blank_lines_pattern [Str.nl; Str.nl]
                    (newlines (c :: s) - 1) (Some c) s).
      intros t Ht. rewrite Hs in Ht |- *.
      rewrite !newlines_nl in Ht. cbn [drop app] in Ht |- *.
      apply sublist_cons. do 2 apply sublist_skip.
      etrans; [exact Ht|]. apply sublist_drop.
    + apply sublist_skip. specialize (IH 0 (Some c)).
      by rewrite drop_0 in IH.
Qed.

(** X20. Cleaning only deletes: the text written is the content with some
    characters left out, none added and none moved. *)
Theorem clean_only_deletes (content : text) :
  clean content `sublist_of` content.
Proof.
  unfold clean, sub.
  etrans; [apply (squeeze_sublist _ 0 None)|]. rewrite drop_0.
  etrans; apply sub_empty_sublist.
Qed.

End CleanupText.

Section CleanupBlocks.

Import Re Cleanup.

(** Patterns without anchors match the same way whatever precedes. *)
Definition anchor_free (a : atom) : bool :=
  match a with
  | Bos | Bol | Eol => false
  | _ => true
  end.

Definition same_rest (f : matcher) : Prop :=
  ∀ k prev prev' s, rest <$> f k prev s = rest <$> f k prev' s.

Lemma same_rest_star (p : ascii → bool) (cont : matcher) :
  same_rest cont → same_rest (star p cont).
Proof.
  intros Hc k prev prev' s. revert k prev prev'.
  induction s as [|c s IH]; intros k prev prev'; cbn [star]; [apply Hc|].
  destruct (p c); [|apply Hc].
  destruct (star p cont (push k c) (Some c) s); [reflexivity|apply Hc].
Qed.

Lemma same_rest_star_lazy (p : ascii → bool) (cont : matcher) :
  same_rest cont → same_rest (star_lazy p cont).
Proof.
  intros Hc k prev prev' s.
  destruct s as [|c s]; cbn [star_lazy];
    pose proof (Hc k prev prev') as H.
  - specialize (H []).
    destruct (cont k prev []), (cont k prev' []); done.
  - specialize (H (c :: s)).
    destruct (cont k prev (c :: s)), (cont k prev' (c :: s)); done.
Qed.

Lemma same_rest_rmatch (r : regex) :
  forallb anchor_free r = true → same_rest (rmatch r).
Proof.
  induction r as [|a r IH]; [by intros _ k prev prev' s|].
  cbn [forallb]. intros [Ha Hr]%andb_true_iff. specialize (IH Hr).
  destruct a; try discriminate Ha; cbn [rmatch].
  - intros k prev prev' [|c s]; [reflexivity|].
    destruct (p c); reflexivity.
  - by apply same_rest_star.
  - by apply same_rest_star_lazy.
  - intros k prev prev' s. apply IH.
  - intros k prev prev' s. destruct k; apply IH.
Qed.

Lemma sub_from_prev (r : regex) (repl : text) (s : text) (n : nat)
  (prev prev' : option ascii) :
  forallb anchor_free r = true →
  sub_from r repl n prev s = sub_from r repl n prev' s.
Proof.
  intros Hr. revert n prev prev'.
  induction s as [|c s IH]; intros n prev prev'; [done|].
  cbn [sub_from]. destruct n as [|n]; [|done].
  pose proof (same_rest_rmatch r Hr NoCap prev prev' (c :: s)) as H.
  destruct (rmatch r NoCap prev (c :: s)) as [m|],
           (rmatch r NoCap prev' (c :: s)) as [m'|]; try done.
  unfold consumed.
  assert (rest m = rest m') as -> by
    (cbn [fmap option_fmap option_map] in H; congruence).
  done.
Qed.

(** The scan passes over the characters of a match. *)
Lemma sub_from_skip (r : regex) (repl a s : text) (prev : option ascii) :
  ∃ prev',
    sub_from r repl (length a) prev (a ++ s) = sub_from r repl 0 prev' s.
Proof.
  revert prev. induction a as [|c a IH]; intros prev; [by exists prev|].
  cbn [length app sub_from]. apply IH.
Qed.

Lemma rmatch_lit_app (l : text) (r : regex) (prev : option ascii)
  (s : text) :
  ∃ prev', rmatch (lit l ++ r) NoCap prev (l ++ s) = rmatch r NoCap prev' s.
Proof.
  revert prev. induction l as [|c l IH]; intros prev; [by exists prev|].
  cbn [lit map app rmatch]. unfold eqc at 1. rewrite Ascii.eqb_refl.
  cbn [push]. apply IH.
Qed.

Lemma rmatch_lit_fail (l : text) (r : regex) (k : cap)
  (prev : option ascii) (s : text) :
  Str.startswith l s = false → rmatch (lit l ++ r) k prev s = None.
Proof.
  revert k prev s. induction l as [|a l IH]; intros k prev s; [done|].
  cbn [lit map app rmatch]. destruct s as [|b s]; [done|].
  cbn [Str.startswith]. unfold eqc at 1.
  destruct (Ascii.eqb a b); [|done]. cbn [andb]. apply IH.
Qed.

Lemma star_lazy_now (p : ascii → bool) (cont : matcher) (k : cap)
  (prev : option ascii) (s : text) (m : found) :
  cont k prev s = Some m → star_lazy p cont k prev s = Some m.
Proof. intros H. destruct s; cbn [star_lazy]; by rewrite H. Qed.

Lemma contains_false_cons (p : text) (c : ascii) (s : text) :
  Str.contains p (c :: s) = false →
  Str.startswith p (c :: s) = false ∧ Str.contains p s = false.
Proof. rewrite contains_cons. apply orb_false_iff. Qed.

Lemma contains_false_start (p s : text) :
  Str.contains p s = false → Str.startswith p s = false.
Proof.
  destruct s as [|c s]; [|by intros [? _]%contains_false_cons].
  cbn [Str.contains]. by intros [? _]%orb_false_iff.
Qed.

Lemma contains_false_app (p a s : text) :
  Str.contains p (a ++ s) = false → Str.contains p s = false.
Proof.
  induction a as [|c a IH]; [done|]. cbn [app].
  intros [_ H]%contains_false_cons. by apply IH.
Qed.

Lemma closing_start (c : ascii) (body post : text) :
  Str.startswith closing (c :: body ++ [Str.nl]) = false →
  Str.startswith closing (c :: body ++ closing ++ post) = false.
Proof.
  unfold closing. change (py "}") with ["}"%char].
  cbn [Str.startswith]. destruct (Ascii.eqb Str.nl c); [|done].
  cbn [andb]. by destruct body.
Qed.

(** The lazy star stops at the first closing line. *)
Lemma lazy_to_closing (body post : text) (prev : option ascii) :
  Str.contains closing (body ++ [Str.nl]) = false →
  ∃ prev',
    star_lazy any (rmatch (lit closing)) NoCap prev
      (body ++ closing ++ post)
    = Some (Found [] prev' post).
Proof.
  revert prev. induction body as [|c body IH]; intros prev Hno.
  - destruct (rmatch_lit_app closing [] prev post) as [prev' H].
    rewrite app_nil_r in H. exists prev'. by apply star_lazy_now.
  - cbn [app] in Hno. apply contains_false_cons in Hno as [Hc Hno].
    apply closing_start with (post := post) in Hc.
    pose proof (rmatch_lit_fail closing [] NoCap prev _ Hc) as Hfail.
    rewrite app_nil_r in Hfail.
    cbn [app star_lazy]. rewrite Hfail. cbn [any push]. by apply IH.
Qed.

Lemma startswith_take (l s : text) :
  Str.startswith l s = Str.startswith l (take (length l) s).
Proof.
  revert s. induction l as [|a l IH]; intros [|b s]; cbn; try done.
  by rewrite <- IH.
Qed.

(** An occurrence that starts before the end of [pre] lies in [pre]
    followed by all but the last character of the literal. *)
Lemma no_earlier_start (l b x : text) :
  b ≠ [] →
  Str.startswith l (b ++ removelast l) = false →
  Str.startswith l (b ++ l ++ x) = false.
Proof.
  intros Hb H. rewrite startswith_take in H |- *.
  rewrite !take_app in H |- *.
  assert (length l - length b ≤ length l - 1) as Hle.
  { destruct b; [done|]. cbn [length]. lia. }
  rewrite removelast_firstn_len in H.
  change (firstn (Nat.pred (length l)) l) with (take (Nat.pred (length l)) l)
    in H.
  rewrite take_take in H.
  rewrite Nat.min_l in H by lia.
  by rewrite take_app_le by lia.
Qed.

(** The scan copies the text before the first match. *)
Lemma sub_prefix_kept (r : regex) (repl pre s : text) :
  (∀ a b prev, pre = a ++ b → b ≠ [] → rmatch r NoCap prev (b ++ s) = None) →
  ∀ prev, ∃ prev',
    sub_from r repl 0 prev (pre ++ s) = pre ++ sub_from r repl 0 prev' s.
Proof.
  induction pre as [|c pre IH]; intros Hno prev; [by exists prev|].
  assert (rmatch r NoCap prev (c :: pre ++ s) = None) as H0
    by (by apply (Hno [] (c :: pre) prev)).
  cbn [app sub_from]. rewrite H0.
  destruct (IH (λ a b prev' Hab, Hno (c :: a) b prev' (f_equal (cons c) Hab))
              (Some c)) as [prev' ->].
  by exists prev'.
Qed.

Lemma anchor_free_lit (l : text) : forallb anchor_free (lit l) = true.
Proof. by induction l. Qed.

Lemma anchor_free_block (header : text) :
  forallb anchor_free (block_pattern header) = true.
Proof.
  unfold block_pattern. rewrite !forallb_app, !anchor_free_lit. done.
Qed.

Lemma block_removed (header pre body post : text) :
  Str.contains header (pre ++ removelast header) = false →
  Str.contains closing (body ++ [Str.nl]) = false →
  sub (block_pattern header) [] (pre ++ header ++ body ++ closing ++ post)
  = pre ++ sub (block_pattern header) [] post.
Proof.
  intros Hpre Hbody. unfold sub.
  destruct (sub_prefix_kept (block_pattern header) [] pre
              (header ++ body ++ closing ++ post)) with (prev := @None ascii)
    as [prev1 ->].
  { intros a b prev -> Hb. apply rmatch_lit_fail.
    apply no_earlier_start; [done|].
    rewrite <- app_assoc in Hpre.
    by apply contains_false_app, contains_false_start in Hpre. }
  f_equal.
  destruct header as [|h header].
  { by destruct (pre ++ removelast []). }
  destruct (rmatch_lit_app (h :: header) ([StarLazy any] ++ lit closing)
              prev1 (body ++ closing ++ post)) as [prev2 Hhead].
  destruct (lazy_to_closing body post prev2 Hbody) as [prev3 Hlazy].
  cbn [app sub_from].
  change (rmatch (block_pattern (h :: header)) NoCap prev1
            (h :: header ++ body ++ closing ++ post))
    with (rmatch (lit (h :: header) ++ [StarLazy any] ++ lit closing) NoCap
            prev1 ((h :: header) ++ body ++ closing ++ post)).
  rewrite Hhead. cbn [app rmatch]. rewrite Hlazy.
  assert (consumed (h :: header ++ body ++ closing ++ post)
            (Found [] prev3 post) - 1
          = length (header ++ body ++ closing)) as ->.
  { unfold consumed. cbn [rest length]. rewrite !length_app. lia. }
  replace (header ++ body ++ closing ++ post)
    with ((header ++ body ++ closing) ++ post) by (by rewrite <- !app_assoc).
  destruct (sub_from_skip (block_pattern (h :: header)) []
              (header ++ body ++ closing) post (Some h)) as [prev4 ->].
  apply sub_from_prev, anchor_free_block.
Qed.

(** X21. A command block is removed from its header to the first line
    that starts with a closing brace, and nothing else: when the header
    does not occur earlier and no line of the body starts with a closing
    brace, the substitution keeps the text before the header, drops the
    header, the body and the closing brace, and goes on after it. *)
Theorem command_block_removed (pre body post : text) :
  Str.contains closing (body ++ [Str.nl]) = false →
  (Str.contains template_header (pre ++ removelast template_header) = false →
   sub template_pattern [] (pre ++ template_header ++ body ++ closing ++ post)
   = pre ++ sub template_pattern [] post)
  ∧ (Str.contains composite_header (pre ++ removelast composite_header)
     = false →
     sub composite_pattern []
       (pre ++ composite_header ++ body ++ closing ++ post)
     = pre ++ sub composite_pattern [] post).
Proof.
  intros Hbody. split; intros Hpre; by apply block_removed.
Qed.

(** X22. A content without the two headers and without three newlines
    in a row is written back as it is. *)
Theorem clean_fixed_point (content : text) :
  Str.contains template_header content = false →
  Str.contains composite_header content = false →
  Str.contains [Str.nl; Str.nl; Str.nl] content = false →
  clean content = content.
Proof.
  intros Ht Hc Hn. unfold clean.
  change template_pattern
    with ([] ++ lit template_header ++ [StarLazy any] ++ lit closing).
  rewrite sub_without_literal
    by (intros H%contains_spec; congruence).
  change composite_pattern
    with ([] ++ lit composite_header ++ [StarLazy any] ++ lit closing).
  rewrite sub_without_literal
    by (intros H%contains_spec; congruence).
  apply sub_from_no_match. intros a b prev' ->.
  apply contains_false_app, contains_false_start in Hn.
  rewrite startswith_three in Hn.
  pose proof (rmatch_blank_lines prev' b) as H. rewrite Hn in H.
  by destruct (rmatch blank_lines_pattern NoCap prev' b).
Qed.

End CleanupBlocks.

(** Two short command files. *)
Definition commands_with_template : text :=
  py "#!/bin/bash" ++ Str.nl :: Cleanup.template_header
  ++ (Str.nl :: py "  echo {}") ++ Cleanup.closing
  ++ (Str.nl :: py "cmd_list() { :; }").

Lemma command_block_removed_witness :
  Re.sub Cleanup.template_pattern [] commands_with_template
  = py "#!/bin/bash" ++ Str.nl :: Str.nl :: py "cmd_list() { :; }".
Proof.
  destruct (command_block_removed (py "#!/bin/bash" ++ [Str.nl])
              (Str.nl :: py "  echo {}")
              (Str.nl :: py "cmd_list() { :; }")) as [H _].
  - vm_compute. reflexivity.
  - etrans; [|etrans; [apply H|]]; vm_compute; reflexivity.
Defined.

Lemma clean_fixed_point_witness :
  Cleanup.clean (py "cmd_list() { :; }") = py "cmd_list() { :; }".
Proof.
  apply clean_fixed_point; vm_compute; reflexivity.
Defined.

Section CleanupFile.

Import Cleanup.

(** The files, the status line and the result of
    [cleanup_commands_file]. *)
Lemma cleanup_commands_file_run (st : Sys.state) :
  cleanup_commands_file st =
  match Audit.read (Sys.fs st) file_path with
  | None =>
      (after st (Sys.files (Sys.fs st))
         [Sys.Line (py "Error cleaning up lib/ui/cli/commands.sh")],
       Sys.Return false)
  | Some c =>
      match Sys.write_fault (Sys.fs st) !! file_path with
      | None =>
          (after st (<[file_path := clean c]> (Sys.files (Sys.fs st)))
             [Sys.Line (py "Cleaned up lib/ui/cli/commands.sh")],
           Sys.Return true)
      | Some flt =>
          (after st (failed_write flt file_path (clean c)
                       (Sys.files (Sys.fs st)))
             [Sys.Line (py "Error cleaning up lib/ui/cli/commands.sh")],
           Sys.Return false)
      end
  end.
Proof.
  unfold cleanup_commands_file.
  destruct (Audit.read (Sys.fs st) file_path) as [c|] eqn:Hread.
  - destruct (Sys.write_fault (Sys.fs st) !! file_path) as [flt|] eqn:Hw.
    + erewrite try_raise.
      2:{ erewrite bind_return by (by apply read_succeeds).
          erewrite bind_raise; [reflexivity|]. by apply write_fails. }
      rewrite (bind_return _ _ _ _ _ (print_run _ _)).
      unfold mret, Sys.M_ret. by rewrite !after_after, !after_files.
    + apply try_return.
      erewrite bind_return by (by apply read_succeeds).
      erewrite bind_return by (by apply write_run).
      rewrite (bind_return _ _ _ _ _ (print_run _ _)).
      unfold mret, Sys.M_ret. by rewrite !after_after, !after_files.
  - erewrite try_raise.
    2:{ erewrite bind_raise; [reflexivity|]. by apply read_fails. }
    rewrite (bind_return _ _ _ _ _ (print_run _ _)). reflexivity.
Qed.

Lemma cleanup_main_run (st : Sys.state) :
  main st =
  let st1 := after st (Sys.files (Sys.fs st))
               [Sys.Line (py "Cleaning up commands.sh file...")] in
  match cleanup_commands_file st1 with
  | (st2, Sys.Return success) =>
      (st2, Sys.Return (if success : bool then 0 else 1)%Z)
  | (st2, Sys.Raise) => (st2, Sys.Raise)
  end.
Proof.
  unfold main. rewrite (bind_return _ _ _ _ _ (print_run _ _)).
  cbn zeta. unfold mbind, Sys.M_bind.
  by destruct (cleanup_commands_file _) as [st2 [[]|]].
Qed.

(** X23. When the command file can be read and written, it is written
    back with the cleaned content, no other file is touched, the result is
    [True] and the exit code 0. *)
Theorem cleanup_writes_back (st : Sys.state) (c : text) :
  Audit.read (Sys.fs st) file_path = Some c →
  Sys.write_fault (Sys.fs st) !! file_path = None →
  let st' := (cleanup_commands_file st).1 in
  (cleanup_commands_file st).2 = Sys.Return true
  ∧ Sys.files (Sys.fs st') !! file_path = Some (clean c)
  ∧ (∀ q, q ≠ file_path →
          Sys.files (Sys.fs st') !! q = Sys.files (Sys.fs st) !! q)
  ∧ (main st).2 = Sys.Return 0%Z.
Proof.
  intros Hread Hw. rewrite cleanup_main_run. cbn zeta.
  rewrite !cleanup_commands_file_run.
  rewrite read_after, after_write_fault by reflexivity.
  rewrite Hread, Hw. cbn [fst snd]. rewrite after_files.
  split_and!; [reflexivity|apply lookup_insert_eq| |reflexivity].
  intros q Hq. by apply lookup_insert_ne.
Qed.

(** X24. The file is rewritten in place, without a backup: when the write
    stops after [n] characters, the command file is left with the first
    [n] characters of the cleaned content, also when there was nothing to
    clean; the result is [False] and the exit code 1. *)
Theorem cleanup_partial_write (st : Sys.state) (c : text) (n : nat) :
  Audit.read (Sys.fs st) file_path = Some c →
  Sys.write_fault (Sys.fs st) !! file_path = Some (Sys.WriteStops n) →
  let st' := (cleanup_commands_file st).1 in
  (cleanup_commands_file st).2 = Sys.Return false
  ∧ Sys.files (Sys.fs st') !! file_path = Some (take n (clean c))
  ∧ (main st).2 = Sys.Return 1%Z.
Proof.
  intros Hread Hw. rewrite cleanup_main_run. cbn zeta.
  rewrite !cleanup_commands_file_run.
  rewrite read_after, after_write_fault by reflexivity.
  rewrite Hread, Hw. cbn [fst snd failed_write]. rewrite after_files.
  split_and!; [reflexivity|apply lookup_insert_eq|reflexivity].
Qed.

End CleanupFile.

(** A clean command file on a disk that takes four characters. *)
Definition commands_write_stops : Sys.world :=
  Sys.World {[ Cleanup.file_path := py "cmd_list() { :; }" ]} ∅
    {[ Cleanup.file_path := Sys.WriteStops 4 ]} ∅.

Lemma cleanup_partial_write_witness :
  let r := Sys.run Cleanup.cleanup_commands_file commands_write_stops in
  Sys.files (Sys.fs r.1) !! Cleanup.file_path = Some (py "cmd_")
  ∧ (Sys.run Cleanup.main commands_write_stops).2 = Sys.Return 1%Z.
Proof.
  destruct (cleanup_partial_write (Sys.State commands_write_stops [])
              (py "cmd_list() { :; }") 4) as (_ & H2 & H3).
  - vm_compute. reflexivity.
  - vm_compute. reflexivity.
  - split; [|exact H3]. unfold Sys.run. rewrite H2. vm_compute. reflexivity.
Defined.

(** A command file with a template command and blank lines. *)
Definition commands_world : Sys.world :=
  Sys.World
    {[ Cleanup.file_path :=
         commands_with_template ++ [Str.nl; Str.nl; Str.nl] ]} ∅ ∅ ∅.

Lemma cleanup_writes_back_witness :
  let r := Sys.run Cleanup.cleanup_commands_file commands_world in
  Sys.files (Sys.fs r.1) !! Cleanup.file_path
  = Some (py "#!/bin/bash" ++ Str.nl :: Str.nl :: py "cmd_list() { :; }"
          ++ [Str.nl; Str.nl])
  ∧ (Sys.run Cleanup.main commands_world).2 = Sys.Return 0%Z.
Proof.
  destruct (cleanup_writes_back (Sys.State commands_world [])
              (commands_with_template ++ [Str.nl; Str.nl; Str.nl]))
    as (_ & H2 & _ & H4).
  - vm_compute. reflexivity.
  - vm_compute. reflexivity.
  - split; [|exact H4]. unfold Sys.run. rewrite H2. vm_compute. reflexivity.
Defined.
